(** * The recordings log of replay-cli: registry fold, upload and cleanup

    A shallow embedding of the recordings module of the [@replayio/replay]
    package (the recordings log, the registry fold [readRecordings], the
    upload orchestration and the asset cleanup) and of the retry helpers
    [retry] and [retryWithExponentialBackoff], followed by the properties
    the specification states about them.

    Conventions.
    - A JavaScript value read out of a parsed log line is a [value]:
      [None] is [undefined], [Some j] a JSON value.  Numbers are integers
      (the log carries timestamps and offsets).  Strings are sequences of
      8-bit characters.
    - The delays of the retry helpers are doubles: [Double] has their
      products and sums, rounded as IEEE 754 rounds them.
    - A call of [pMap] runs its mappers one after the other and leaves in
      the world the concurrency it was given and the count of its pending
      mappers.
    - What the JavaScript runtime and the imported helpers compute
      ([JSON.parse], [JSON.stringify], [==] with its coercions, [String(v)],
      [path.join], [generateDefaultTitle]) is gathered in the class
      [JSRuntime], and what the helpers outside these sources compute
      ([getDirectory], the jsonata filter) in the class [Helpers]; every
      theorem holds for every instance, and [Reference.js] and
      [Reference.helpers] are executable ones.
    - Exceptions are explicit: a computation that can throw returns a
      [result]; code that also touches the disk or the remote service runs
      in the monad [M] over a [World].
    - [debug], [maybeLog] and [console.warn] only print and are left out. *)

From Stdlib Require Import ZArith QArith Qround Qabs Qpower Lqa Lia List String Ascii Bool.
From stdpp Require Import base option list strings gmap pretty.
From Equations Require Import Equations.

Local Open Scope string_scope.
Local Open Scope Z_scope.
Local Open Scope list_scope.

(** ** JavaScript values *)

#[local] Set Warnings "-register-all".

Inductive JSON : Type :=
| JNull
| JBool (b : bool)
| JNum (n : Z)
| JStr (s : string)
| JArr (xs : list JSON)
| JObj (fields : list (string * JSON)).

(** [None] is [undefined]. *)
Definition value : Type := option JSON.

Definition undefined : value := None.
Definition str (s : string) : value := Some (JStr s).

(** Truthiness, as [if (v)], [!v] and [v || w] see it. *)
Definition truthy (v : value) : bool :=
  match v with
  | None => false
  | Some JNull => false
  | Some (JBool b) => b
  | Some (JNum n) => negb (n =? 0)
  | Some (JStr s) => negb (String.eqb s "")
  | Some (JArr _) => true
  | Some (JObj _) => true
  end.

(** [o[k]] for the own properties of a parsed object: [JSON.parse] keeps the
    last of several bindings of one key. *)
Fixpoint field (k : string) (fs : list (string * JSON)) : value :=
  match fs with
  | [] => None
  | (k', v) :: rest =>
      match field k rest with
      | Some w => Some w
      | None => if String.eqb k k' then Some v else None
      end
  end.

(** [obj.k] where [obj] is not [null]: the keys the code reads ([kind], [id],
    [path], ...) are properties of parsed objects only; on a string, a
    number, a boolean or an array they are [undefined]. *)
Definition prop (obj : JSON) (k : string) : value :=
  match obj with
  | JObj fs => field k fs
  | _ => None
  end.

(** [v === w].  Two arrays or objects are identical only when they are the
    same reference; the operands the code compares come from different
    parsed lines, so composite values are never identical. *)
Definition strictEq (v w : value) : bool :=
  match v, w with
  | None, None => true
  | Some JNull, Some JNull => true
  | Some (JBool a), Some (JBool b) => Bool.eqb a b
  | Some (JNum a), Some (JNum b) => a =? b
  | Some (JStr a), Some (JStr b) => String.eqb a b
  | _, _ => false
  end.

(** ** Errors and results *)

Inductive Error : Type :=
| TypeError (what : string)
| ShouldBeUnreachable
| Rejection (reason : value)
| AggregateError (errors : list Error).

Inductive result (A : Type) : Type :=
| Ok (a : A)
| Throw (e : Error).
Arguments Ok {A} a.
Arguments Throw {A} e.

Definition bind_result {A B} (r : result A) (k : A -> result B) : result B :=
  match r with
  | Ok a => k a
  | Throw e => Throw e
  end.

(** ** The runtime the code runs on *)

Class JSRuntime : Type := {
  (** [JSON.parse]; [None] when it throws a [SyntaxError]. *)
  JSON_parse : string -> option JSON;
  JSON_stringify : JSON -> string;
  (** [v == w]. *)
  looseEq : value -> value -> bool;
  (** [String(v)], the coercion [RegExp.prototype.exec] applies. *)
  ToString : value -> string;
  (** [path.join(dir, name)]. *)
  path_join : string -> string -> string;
  (** [generateDefaultTitle(metadata)] of [./generateDefaultTitle]. *)
  generateDefaultTitle : gmap string value -> value;
  looseEq_str : forall s t, looseEq (str s) (str t) = String.eqb s t;
  ToString_str : forall s, ToString (str s) = s
}.

(** ** Strings *)

Definition is_line_terminator (c : ascii) : bool :=
  (Ascii.eqb c "010" || Ascii.eqb c "013")%char.

Definition is_dash (c : ascii) : bool := Ascii.eqb c "-"%char.

(** [s.split("\n")]: never empty, [""] gives [[""]]. *)
Fixpoint split_lines (s : string) : list string :=
  match s with
  | EmptyString => [""]
  | String c rest =>
      if Ascii.eqb c "010"%char then "" :: split_lines rest
      else match split_lines rest with
           | [] => [String c ""]
           | l :: ls => String c l :: ls
           end
  end.

(** [lines.join("\n")]. *)
Fixpoint join_lines (lines : list string) : string :=
  match lines with
  | [] => ""
  | [l] => l
  | l :: ls => l +:+ String "010"%char (join_lines ls)
  end.

Fixpoint starts_with (p s : string) : bool :=
  match p, s with
  | EmptyString, _ => true
  | String a p', String b s' => Ascii.eqb a b && starts_with p' s'
  | String _ _, EmptyString => false
  end.

(** [s.includes(needle)]. *)
Fixpoint includes (needle s : string) : bool :=
  starts_with needle s ||
  match s with
  | EmptyString => false
  | String _ s' => includes needle s'
  end.

(** [s.replace(/\.map$/, ".lookup")]: [$] only matches at the end of [s]. *)
Fixpoint replace_map_suffix (s : string) : string :=
  match s with
  | EmptyString => ""
  | String c rest =>
      if String.eqb s ".map" then ".lookup" else String c (replace_map_suffix rest)
  end.

(** ** Recordings *)

Inductive Status : Type :=
| unknown | startedWrite | onDisk | startedUpload | uploaded
| unusable | crashed | crashUploaded.

Definition Status_eqb (a b : Status) : bool :=
  match a, b with
  | unknown, unknown | startedWrite, startedWrite | onDisk, onDisk
  | startedUpload, startedUpload | uploaded, uploaded | unusable, unusable
  | crashed, crashed | crashUploaded, crashUploaded => true
  | _, _ => false
  end.

(** The status as the string the code writes in messages. *)
Definition Status_name (s : Status) : string :=
  match s with
  | unknown => "unknown" | startedWrite => "startedWrite" | onDisk => "onDisk"
  | startedUpload => "startedUpload" | uploaded => "uploaded"
  | unusable => "unusable" | crashed => "crashed"
  | crashUploaded => "crashUploaded"
  end.

Record OriginalSource : Type := {
  os_path : value;
  os_parentOffset : value
}.

Record SourceMapEntry : Type := {
  sm_id : value;
  sm_path : value;
  sm_baseURL : value;
  sm_targetContentHash : value;
  sm_targetURLHash : value;
  sm_targetMapURLHash : value;
  sm_originalSources : list OriginalSource
}.

(** [createTime] holds the timestamp [new Date(timestamp)] is built from;
    [crashData] is [None] until the first [crashData] event. *)
Record RecordingEntry : Type := {
  id : value;
  createTime : value;
  buildId : value;
  runtime : string;
  metadata : gmap string value;
  sourcemaps : list SourceMapEntry;
  status : Status;
  path : value;
  server : value;
  recordingId : value;
  crashData : option (list value);
  unusableReason : value
}.

Definition set_status (s : Status) (r : RecordingEntry) : RecordingEntry :=
  {| id := id r; createTime := createTime r; buildId := buildId r;
     runtime := runtime r; metadata := metadata r; sourcemaps := sourcemaps r;
     status := s; path := path r; server := server r;
     recordingId := recordingId r; crashData := crashData r;
     unusableReason := unusableReason r |}.

Definition set_path (p : value) (r : RecordingEntry) : RecordingEntry :=
  {| id := id r; createTime := createTime r; buildId := buildId r;
     runtime := runtime r; metadata := metadata r; sourcemaps := sourcemaps r;
     status := status r; path := p; server := server r;
     recordingId := recordingId r; crashData := crashData r;
     unusableReason := unusableReason r |}.

Definition set_upload (srv rid : value) (r : RecordingEntry) : RecordingEntry :=
  {| id := id r; createTime := createTime r; buildId := buildId r;
     runtime := runtime r; metadata := metadata r; sourcemaps := sourcemaps r;
     status := status r; path := path r; server := srv;
     recordingId := rid; crashData := crashData r;
     unusableReason := unusableReason r |}.

Definition set_unusableReason (v : value) (r : RecordingEntry) : RecordingEntry :=
  {| id := id r; createTime := createTime r; buildId := buildId r;
     runtime := runtime r; metadata := metadata r; sourcemaps := sourcemaps r;
     status := status r; path := path r; server := server r;
     recordingId := recordingId r; crashData := crashData r;
     unusableReason := v |}.

Definition set_metadata (m : gmap string value) (r : RecordingEntry) : RecordingEntry :=
  {| id := id r; createTime := createTime r; buildId := buildId r;
     runtime := runtime r; metadata := m; sourcemaps := sourcemaps r;
     status := status r; path := path r; server := server r;
     recordingId := recordingId r; crashData := crashData r;
     unusableReason := unusableReason r |}.

Definition set_sourcemaps (l : list SourceMapEntry) (r : RecordingEntry) : RecordingEntry :=
  {| id := id r; createTime := createTime r; buildId := buildId r;
     runtime := runtime r; metadata := metadata r; sourcemaps := l;
     status := status r; path := path r; server := server r;
     recordingId := recordingId r; crashData := crashData r;
     unusableReason := unusableReason r |}.

Definition set_crashData (d : option (list value)) (r : RecordingEntry) : RecordingEntry :=
  {| id := id r; createTime := createTime r; buildId := buildId r;
     runtime := runtime r; metadata := metadata r; sourcemaps := sourcemaps r;
     status := status r; path := path r; server := server r;
     recordingId := recordingId r; crashData := d;
     unusableReason := unusableReason r |}.

(** [updateStatus(recording, status)]. *)
Definition updateStatus (recording : RecordingEntry) (s : Status) : RecordingEntry :=
  if Status_eqb (status recording) unusable
     || Status_eqb (status recording) crashUploaded
     || (Status_eqb (status recording) crashed && negb (Status_eqb s crashUploaded))
  then recording
  else set_status s recording.

(** ** [getBuildRuntime]: the pattern [/.*?-(.*?)-/] *)

(** [(.*?)-] anchored at the start of [s]: the shortest run of characters
    other than line terminators that a dash follows. *)
Fixpoint capture_group (s : string) : option string :=
  match s with
  | EmptyString => None
  | String c rest =>
      if is_dash c then Some ""
      else if is_line_terminator c then None
      else option_map (String c) (capture_group rest)
  end.

(** [.*?-(.*?)-] anchored at the start of [s]: the lazy prefix first tries
    to stop here, then lets [.] take one more character. *)
Fixpoint match_here (s : string) : option string :=
  match s with
  | EmptyString => None
  | String c rest =>
      match (if is_dash c then capture_group rest else None) with
      | Some g => Some g
      | None => if is_line_terminator c then None else match_here rest
      end
  end.

(** [re.exec(s)]: the leftmost start position that matches; the result is
    the captured group [match[1]]. *)
Fixpoint regexp_exec (s : string) : option string :=
  match match_here s with
  | Some g => Some g
  | None =>
      match s with
      | EmptyString => None
      | String _ rest => regexp_exec rest
      end
  end.

(** [recordings.find(p)] followed by a mutation of the entry found: the
    first entry that satisfies [p] is replaced by [f] of it. *)
Fixpoint update_first {A} (p : A -> bool) (f : A -> A) (l : list A) : list A :=
  match l with
  | [] => []
  | x :: l' => if p x then f x :: l' else x :: update_first p f l'
  end.

(** The own enumerable properties [Object.assign] copies from a source. *)
Definition own_properties (source : value) : list (string * value) :=
  match source with
  | Some (JObj fs) => List.map (fun kv => (fst kv, Some (snd kv))) fs
  | Some (JArr xs) => imap (fun i x => (pretty i, Some x)) xs
  | Some (JStr s) =>
      imap (fun i c => (pretty i, str (String c ""))) (list_ascii_of_string s)
  | _ => []
  end.

Definition Object_assign (target : gmap string value) (source : value)
  : gmap string value :=
  fold_left (fun m kv => <[fst kv := snd kv]> m) (own_properties source) target.

(** [metadata.k]. *)
Definition get (m : gmap string value) (k : string) : value :=
  match m !! k with
  | Some v => v
  | None => None
  end.

(** [(reason || "").includes("No interesting content")]: a string searches
    for the text, an array for an element identical to it, and any other
    truthy value has no [includes] method. *)
Definition noInterestingContent (reason : value) : result bool :=
  if truthy reason then
    match reason with
    | Some (JStr s) => Ok (includes "No interesting content" s)
    | Some (JArr xs) =>
        Ok (existsb (fun x => strictEq (Some x) (str "No interesting content")) xs)
    | _ => Throw (TypeError "includes is not a function")
    end
  else Ok false.

(** [recordings.filter(keep)] for a [keep] that can throw. *)
Fixpoint filter_result {A} (keep : A -> result bool) (l : list A) : result (list A) :=
  match l with
  | [] => Ok []
  | x :: l' =>
      bind_result (keep x) (fun b =>
      bind_result (filter_result keep l') (fun rest =>
      Ok (if b then x :: rest else rest)))
  end.

Section Registry.
Context `{RT : JSRuntime}.

(** [getBuildRuntime(buildId)]. *)
Definition getBuildRuntime (buildId : value) : string :=
  match regexp_exec (ToString buildId) with
  | Some g => g
  | None => "unknown"
  end.

Definition createRecording_entry (obj : JSON) : RecordingEntry :=
  {| id := prop obj "id";
     createTime := prop obj "timestamp";
     buildId := prop obj "buildId";
     runtime := getBuildRuntime (prop obj "buildId");
     metadata := ∅;
     sourcemaps := [];
     status := unknown;
     path := None; server := None; recordingId := None;
     crashData := None; unusableReason := None |}.

Definition addMetadata (md : value) (recording : RecordingEntry) : RecordingEntry :=
  let m := Object_assign (metadata recording) md in
  if truthy (get m "title") then set_metadata m recording
  else set_metadata (<["title" := generateDefaultTitle m]> m) recording.

Definition push_crashData (data : value) (recording : RecordingEntry) : RecordingEntry :=
  match crashData recording with
  | None => set_crashData (Some [data]) recording
  | Some l => set_crashData (Some (l ++ [data])) recording
  end.

Definition sourcemap_entry (obj : JSON) : SourceMapEntry :=
  {| sm_id := prop obj "id";
     sm_path := prop obj "path";
     sm_baseURL := prop obj "baseURL";
     sm_targetContentHash := prop obj "targetContentHash";
     sm_targetURLHash := prop obj "targetURLHash";
     sm_targetMapURLHash := prop obj "targetMapURLHash";
     sm_originalSources := [] |}.

Definition push_originalSource (o : OriginalSource) (s : SourceMapEntry) : SourceMapEntry :=
  {| sm_id := sm_id s; sm_path := sm_path s; sm_baseURL := sm_baseURL s;
     sm_targetContentHash := sm_targetContentHash s;
     sm_targetURLHash := sm_targetURLHash s;
     sm_targetMapURLHash := sm_targetMapURLHash s;
     sm_originalSources := sm_originalSources s ++ [o] |}.

(** The body of the [switch (obj.kind)] of [readRecordings], for an [obj]
    that is not [null]. *)
Definition applyKind (recordings : list RecordingEntry) (obj : JSON)
  : list RecordingEntry :=
  let on_id f := update_first (fun r => looseEq (id r) (prop obj "id")) f recordings in
  match prop obj "kind" with
  | Some (JStr kind) =>
      if String.eqb kind "createRecording" then
        recordings ++ [createRecording_entry obj]
      else if String.eqb kind "addMetadata" then
        on_id (addMetadata (prop obj "metadata"))
      else if String.eqb kind "writeStarted" then
        on_id (fun r => set_path (prop obj "path") (updateStatus r startedWrite))
      else if String.eqb kind "writeFinished" then
        on_id (fun r => updateStatus r onDisk)
      else if String.eqb kind "uploadStarted" then
        on_id (fun r => set_upload (prop obj "server") (prop obj "recordingId")
                          (updateStatus r startedUpload))
      else if String.eqb kind "uploadFinished" then
        on_id (fun r => updateStatus r uploaded)
      else if String.eqb kind "recordingUnusable" then
        on_id (fun r => set_unusableReason (prop obj "reason") (updateStatus r unusable))
      else if String.eqb kind "crashed" then
        on_id (fun r => updateStatus r crashed)
      else if String.eqb kind "crashData" then
        on_id (push_crashData (prop obj "data"))
      else if String.eqb kind "crashUploaded" then
        on_id (fun r => updateStatus r crashUploaded)
      else if String.eqb kind "sourcemapAdded" then
        update_first (fun r => looseEq (id r) (prop obj "recordingId"))
          (fun r => set_sourcemaps (sourcemaps r ++ [sourcemap_entry obj]) r)
          recordings
      else if String.eqb kind "originalSourceAdded" then
        update_first (fun r => strictEq (id r) (prop obj "recordingId"))
          (fun r => set_sourcemaps
             (update_first (fun s => strictEq (sm_id s) (prop obj "parentId"))
                (push_originalSource
                   {| os_path := prop obj "path";
                      os_parentOffset := prop obj "parentOffset" |})
                (sourcemaps r)) r)
          recordings
      else recordings
  | _ => recordings
  end.

(** One turn of the [for (const line of lines)] loop: a line that is not
    valid JSON is skipped; reading [obj.kind] of [null] throws. *)
Definition processLine (recordings : list RecordingEntry) (line : string)
  : result (list RecordingEntry) :=
  match JSON_parse line with
  | None => Ok recordings
  | Some JNull => Throw (TypeError "Cannot read properties of null (reading 'kind')")
  | Some obj => Ok (applyKind recordings obj)
  end.

Fixpoint foldLines (lines : list string) (recordings : list RecordingEntry)
  : result (list RecordingEntry) :=
  match lines with
  | [] => Ok recordings
  | line :: rest => bind_result (processLine recordings line) (foldLines rest)
  end.

(** [readRecordings] on the lines [readRecordingFile] returned. *)
Definition readRecordingsOf (lines : list string) (includeHidden : bool)
  : result (list RecordingEntry) :=
  bind_result (foldLines lines []) (fun recordings =>
  if includeHidden then Ok recordings
  else filter_result
         (fun r => bind_result (noInterestingContent (unusableReason r))
                     (fun b => Ok (negb b)))
         recordings).
End Registry.

(** ** The world: disk, remote service, clock *)

(** What the code asks of its collaborators: the methods of [ReplayClient],
    [readToken] and the waits between retries. *)
Inductive Call : Type :=
| InitConnection (srv : string) (key : value)
| ReportCrash (data : value)
| BuildRecordingMetadata (md : gmap string value)
| BeginRecordingUpload (rid bid : value) (size : Z)
| SetRecordingMetadata (remoteId md : value)
| UploadRecording (file : value) (uploadLink : value) (size : Z)
| EndRecordingUpload (rid : value)
| UploadSourcemap (remoteId : value) (sm : SourceMapEntry) (contents : string)
| UploadOriginalSource (remoteId sourcemapId : value) (o : OriginalSource)
    (contents : string)
| CloseConnection
| ReadToken (dir : string)
| Backoff (attempt : nat).

(** The collaborators answer a call knowing all earlier calls: the promise
    resolves to a value or rejects.  [Date_now] is the clock. *)
Record Environment : Type := {
  respond : list Call -> Call -> result value;
  Date_now : list Call -> Z;
  RECORD_REPLAY_SERVER : option string;
  REPLAY_SERVER : option string
}.

(** What a call of [pMap] leaves of its pool: the [concurrency] it was
    given and the number of mappers pending after each mapper it started
    and after each one that settled. *)
Record Pool : Type := {
  pool_concurrency : Z;
  pending : list nat
}.

(** The files on disk with their contents, the calls made so far and the
    pools of the calls of [pMap] that have settled. *)
Record World : Type := {
  disk : gmap string string;
  history : list Call;
  pools : list Pool
}.

Definition M (A : Type) : Type := World -> result A * World.

#[export] Instance M_ret : MRet M := fun A a w => (Ok a, w).
#[export] Instance M_bind : MBind M := fun A B k m w =>
  match m w with
  | (Ok a, w') => k a w'
  | (Throw e, w') => (Throw e, w')
  end.

Definition throw {A} (e : Error) : M A := fun w => (Throw e, w).

(** [try { body } catch (e) { handler(e) }]. *)
Definition try_catch {A} (body : M A) (handler : Error -> M A) : M A := fun w =>
  match body w with
  | (Ok a, w') => (Ok a, w')
  | (Throw e, w') => handler e w'
  end.

Definition lift {A} (r : result A) : M A := fun w => (r, w).

Definition skip : M unit := mret tt.

Definition get_disk : M (gmap string string) := fun w => (Ok (disk w), w).

Definition put_disk (d : gmap string string) : M unit := fun w =>
  (Ok tt, {| disk := d; history := history w; pools := pools w |}).

Section Effects.
Context (env : Environment).

(** [await client.method(args)]. *)
Definition call (c : Call) : M value := fun w =>
  (respond env (history w) c,
   {| disk := disk w; history := history w ++ [c]; pools := pools w |}).

Definition now : M Z := fun w => (Ok (Date_now env (history w)), w).
End Effects.

(** [fs.existsSync(file)]. *)
Definition existsSync (file : string) : M bool :=
  d ← get_disk; mret (bool_decide (is_Some (d !! file))).

(** [fs.readFileSync(file, "utf8")]. *)
Definition readFileSync (file : string) : M string :=
  d ← get_disk;
  match d !! file with
  | Some contents => mret contents
  | None => throw (Rejection (str "ENOENT"))
  end.

(** [fs.writeFileSync(file, contents)]. *)
Definition writeFileSync (file contents : string) : M unit :=
  d ← get_disk; put_disk (<[file := contents]> d).

(** [fs.unlinkSync(file)]. *)
Definition unlinkSync (file : string) : M unit :=
  d ← get_disk;
  match d !! file with
  | Some _ => put_disk (delete file d)
  | None => throw (Rejection (str "ENOENT"))
  end.

(** A path read from the log names a file when it is a string. *)
Definition as_path (v : value) : M string :=
  match v with
  | Some (JStr s) => mret s
  | _ => throw (TypeError "The path argument must be of type string")
  end.

(** [items.forEach(f)], and a [for] loop over [items]. *)
Fixpoint forEach {A} (f : A -> M unit) (items : list A) : M unit :=
  match items with
  | [] => mret tt
  | x :: rest => _ ← f x; forEach f rest
  end.

(** [pMap(items, mapper, { concurrency, stopOnError: false })] of p-map 4:
    the concurrency must be an integer from 1 up; every item is mapped
    whether or not another one rejected; if some rejected, the call rejects
    with the [AggregateError] of their errors once all are settled.

    The pool of p-map: [next()] starts the mapper of the next item, if one
    is left, and counts it as pending; the call runs [next()] [concurrency]
    times, or until the items are out; a mapper that settles is no longer
    pending and runs [next()].  Here a mapper does its work when it settles
    and the mappers settle in the order of [items], so that they run one
    after the other; [pool_counts] follows the number of pending mappers
    along, and the call leaves it in the world with the concurrency it was
    given. *)
Fixpoint pool_settle (settling left pending : nat) : list nat :=
  match settling with
  | O => []
  | S settling' =>
      match left with
      | O => (pending - 1)%nat :: pool_settle settling' O (pending - 1)%nat
      | S left' => (pending - 1)%nat :: pending :: pool_settle settling' left' pending
      end
  end.

Definition pool_counts (concurrency : Z) (items : nat) : list nat :=
  let started := Nat.min (Z.to_nat concurrency) items in
  seq 1 started ++ pool_settle items (items - started) started.

Definition log_pool (pool : Pool) : M unit := fun w =>
  (Ok tt, {| disk := disk w; history := history w; pools := pools w ++ [pool] |}).

Fixpoint pMap_settle {A B} (mapper : A -> M B) (items : list A)
  : M (list B * list Error) :=
  match items with
  | [] => mret ([], [])
  | x :: rest =>
      r ← try_catch (b ← mapper x; mret (inl b)) (fun e => mret (inr e));
      '(bs, es) ← pMap_settle mapper rest;
      match r with
      | inl b => mret (b :: bs, es)
      | inr e => mret (bs, e :: es)
      end
  end.

Definition pMap {A B} (items : list A) (mapper : A -> M B) (concurrency : Z)
  : M (list B) :=
  if concurrency <? 1 then
    throw (TypeError "Expected `concurrency` to be an integer from 1 and up")
  else
    '(bs, es) ← pMap_settle mapper items;
    _ ← log_pool {| pool_concurrency := concurrency;
                    pending := pool_counts concurrency (length items) |};
    match es with
    | [] => mret bs
    | _ => throw (AggregateError es)
    end.

(** ** Options *)

(** [FilterOptions["filter"]]: absent, a jsonata expression or a function. *)
Inductive Filter : Type :=
| NoFilter
| FilterExpr (e : string)
| FilterFn (f : RecordingEntry -> bool).

(** [Options & ListOptions & FilterOptions & UploadAllOptions]; an absent
    boolean option is [false]. *)
Record Options : Type := {
  directory : option string;
  opt_server : option string;
  apiKey : value;
  all : bool;
  filter : Filter;
  includeCrashes : bool;
  batchSize : option Z
}.

(** [{ directory: dir }]. *)
Definition directory_only (dir : string) : Options :=
  {| directory := Some dir; opt_server := None; apiKey := None; all := false;
     filter := NoFilter; includeCrashes := false; batchSize := None |}.

(** [{ ...opts, filter }]. *)
Definition with_filter (opts : Options) (f : Filter) : Options :=
  {| directory := directory opts; opt_server := opt_server opts;
     apiKey := apiKey opts; all := all opts; filter := f;
     includeCrashes := includeCrashes opts; batchSize := batchSize opts |}.

(** What the imported helpers compute that the sources do not show:
    [getDirectory(opts)] of [./utils], which takes a
    [Pick<Options, "directory">] and so is a function of [opts.directory],
    and the evaluation of the jsonata expression [$filter($, e)[]], given as
    the flags of the entries kept. *)
Class Helpers : Type := {
  getDirectory : option string -> string;
  jsonata_filter : string -> list RecordingEntry -> result (list bool)
}.

(** [a || b || c] on optional strings: the empty string is falsy. *)
Definition or_else (a : option string) (b : option string) : option string :=
  match a with
  | Some s => if String.eqb s "" then b else Some s
  | None => b
  end.

(** The entries of [l] whose flag in [mask] is set, with their positions. *)
Fixpoint select_indexed {A} (i : nat) (mask : list bool) (l : list A) : list (nat * A) :=
  match mask, l with
  | b :: mask', x :: l' =>
      if b then (i, x) :: select_indexed (S i) mask' l'
      else select_indexed (S i) mask' l'
  | _, _ => []
  end.

Section Main.
Context `{RT : JSRuntime} `{HP : Helpers} (env : Environment).

Definition getRecordingsFile (dir : string) : string :=
  path_join dir "recordings.log".

(** [readRecordingFile(dir)]. *)
Definition readRecordingFile (dir : string) : M (list string) :=
  let file := getRecordingsFile dir in
  present ← existsSync file;
  if negb present then mret []
  else contents ← readFileSync file; mret (split_lines contents).

(** [writeRecordingFile(dir, lines)]. *)
Definition writeRecordingFile (dir : string) (lines : list string) : M unit :=
  writeFileSync (getRecordingsFile dir)
    (join_lines lines +:+ String "010"%char "").

(** [readRecordings(dir, includeHidden)]. *)
Definition readRecordings (dir : string) (includeHidden : bool)
  : M (list RecordingEntry) :=
  lines ← readRecordingFile dir;
  lift (readRecordingsOf lines includeHidden).

(** [filterRecordings(recordings, filter, includeCrashes)].  Entries are
    told apart by their position in [recordings], which is what
    [filteredRecordings.includes(r)] tests. *)
Definition filterRecordings (recordings : list RecordingEntry) (f : Filter)
  (includeCrashes : bool) : result (list RecordingEntry) :=
  bind_result
    (match f with
     | FilterExpr e =>
         if String.eqb e "" then Ok (List.map (fun _ => true) recordings)
         else jsonata_filter e recordings
     | FilterFn p => Ok (List.map p recordings)
     | NoFilter => Ok (List.map (fun _ => true) recordings)
     end)
    (fun mask =>
       let filtered := select_indexed 0 mask recordings in
       let extra :=
         if includeCrashes then
           List.filter
             (fun ir => Status_eqb (status (snd ir)) crashed
                        && negb (existsb (Nat.eqb (fst ir)) (List.map fst filtered)))
             (select_indexed 0 (List.map (fun _ => true) recordings) recordings)
         else [] in
       Ok (List.map snd (filtered ++ extra))).

(** [listRecording(recording)]: drops [buildId] and [crashData]. *)
Definition listRecording (r : RecordingEntry) : RecordingEntry :=
  {| id := id r; createTime := createTime r; buildId := None;
     runtime := runtime r; metadata := metadata r; sourcemaps := sourcemaps r;
     status := status r; path := path r; server := server r;
     recordingId := recordingId r; crashData := None;
     unusableReason := unusableReason r |}.

(** [listAllRecordings(opts)]. *)
Definition listAllRecordings (opts : Options) : M (list RecordingEntry) :=
  let dir := getDirectory (directory opts) in
  recordings ← readRecordings dir false;
  if all opts then
    filtered ← lift (filterRecordings recordings (filter opts) (includeCrashes opts));
    mret (List.map listRecording filtered)
  else
    let uploadableRecordings :=
      List.filter
        (fun recording =>
           existsb (Status_eqb (status recording)) [onDisk; startedWrite; crashed])
        recordings in
    filtered ← lift (filterRecordings uploadableRecordings (filter opts)
                       (includeCrashes opts));
    mret (List.map listRecording filtered).

(** [uploadSkipReason(recording)]. *)
Definition uploadSkipReason (recording : RecordingEntry) : option string :=
  let canUploadStatus := [onDisk; startedWrite; startedUpload; crashed] in
  if negb (existsb (Status_eqb (status recording)) canUploadStatus) then
    Some ("wrong recording status " +:+ Status_name (status recording))
  else if negb (truthy (path recording))
          && negb (Status_eqb (status recording) crashed) then
    Some "recording not saved to disk"
  else None.

(** [getServer(opts)]. *)
Definition getServer (opts : Options) : string :=
  match or_else (opt_server opts)
          (or_else (RECORD_REPLAY_SERVER env) (REPLAY_SERVER env)) with
  | Some s => s
  | None => "wss://dispatch.replay.io"
  end.

(** [addRecordingEvent(dir, kind, id, tags)]: the event is the object
    [{ kind, id, timestamp: Date.now(), ...tags }]. *)
Definition addRecordingEvent (dir kind : string) (rid : value)
  (tags : list (string * JSON)) : M unit :=
  t ← now env;
  let event :=
    JObj ([("kind", JStr kind)]
          ++ match rid with Some j => [("id", j)] | None => [] end
          ++ [("timestamp", JNum t)] ++ tags) in
  lines ← readRecordingFile dir;
  writeRecordingFile dir (lines ++ [JSON_stringify event]).
End Main.

Section Cleanup.
Context `{RT : JSRuntime} `{HP : Helpers}.

(** [maybeRemoveAssetFile(asset)]: [fs.existsSync] is false for a value
    that is not a string. *)
Definition maybeRemoveAssetFile (asset : value) : M unit :=
  if truthy asset then
    match asset with
    | Some (JStr file) =>
        try_catch
          (present ← existsSync file;
           if (present : bool) then unlinkSync file else skip)
          (fun _ => skip)
    | _ => skip
    end
  else skip.

(** [sm.path.replace(/\.map$/, ".lookup")]: only a string has [replace]. *)
Definition lookup_file (p : value) : result value :=
  match p with
  | Some (JStr s) => Ok (str (replace_map_suffix s))
  | _ => Throw (TypeError "Cannot read properties (reading 'replace')")
  end.

Fixpoint sourcemapAssetFiles (sms : list SourceMapEntry) : result (list value) :=
  match sms with
  | [] => Ok []
  | sm :: rest =>
      bind_result (lookup_file (sm_path sm)) (fun lookup =>
      bind_result (sourcemapAssetFiles rest) (fun files =>
      Ok ([sm_path sm; lookup] ++ List.map os_path (sm_originalSources sm) ++ files)))
  end.

(** [getRecordingAssetFiles(recording)]. *)
Definition getRecordingAssetFiles (recording : RecordingEntry) : result (list value) :=
  bind_result (sourcemapAssetFiles (sourcemaps recording)) (fun files =>
  Ok ((if truthy (path recording) then [path recording] else []) ++ files)).

(** [recordings.flatMap(getRecordingAssetFiles)]. *)
Fixpoint flatMap_assets (recordings : list RecordingEntry) : result (list value) :=
  match recordings with
  | [] => Ok []
  | r :: rest =>
      bind_result (getRecordingAssetFiles r) (fun files =>
      bind_result (flatMap_assets rest) (fun more => Ok (files ++ more)))
  end.

(** The filter [removeRecordingAssets] hands to [listAllRecordings]. *)
Definition otherLocalRecording (recording r : RecordingEntry) : bool :=
  negb (Status_eqb (status r) uploaded)
  && negb (Status_eqb (status r) crashUploaded)
  && negb (strictEq (id r) (id recording)).

(** [removeRecordingAssets(recording, opts)]; [set.has(file)] compares as
    [===] does on the values a log holds. *)
Definition removeRecordingAssets (recording : RecordingEntry) (opts : Options)
  : M unit :=
  localRecordings ←
    listAllRecordings (with_filter opts (FilterFn (otherLocalRecording recording)));
  localRecordingAssetFiles ← lift (flatMap_assets localRecordings);
  assetFiles ← lift (getRecordingAssetFiles recording);
  forEach
    (fun file =>
       if negb (existsb (strictEq file) localRecordingAssetFiles)
       then maybeRemoveAssetFile file
       else skip)
    assetFiles.

(** The test of the [filter] in [removeRecording]: a line is kept when it
    parses and its [id] is not [==] to the one removed; reading [obj.id]
    of [null] throws inside the [try]. *)
Definition keepLine (rid : string) (line : string) : bool :=
  match JSON_parse line with
  | None => false
  | Some JNull => false
  | Some obj => negb (looseEq (prop obj "id") (str rid))
  end.

(** [removeRecording(id, opts)]. *)
Definition removeRecording (rid : string) (opts : Options) : M bool :=
  let dir := getDirectory (directory opts) in
  recordings ← readRecordings dir false;
  match List.find (fun r => looseEq (id r) (str rid)) recordings with
  | None => mret false
  | Some recording =>
      _ ← removeRecordingAssets recording opts;
      lines ← readRecordingFile dir;
      _ ← writeRecordingFile dir (List.filter (keepLine rid) lines);
      mret true
  end.

(** [removeAllRecordings(opts)]. *)
Definition removeAllRecordings (opts : Options) : M unit :=
  let dir := getDirectory (directory opts) in
  recordings ← readRecordings dir false;
  _ ← forEach (fun r => removeRecordingAssets r opts) recordings;
  let file := getRecordingsFile dir in
  present ← existsSync file;
  if (present : bool) then unlinkSync file else skip.
End Cleanup.

Section Upload.
Context `{RT : JSRuntime} `{HP : Helpers} (env : Environment).

(** [await Promise.all(items.map(async x => f(x)))]: every [f(x)] is
    started, in order, before any result is awaited; the first rejection
    rejects the whole. *)
Definition Promise_all_map {A B} (f : A -> M B) (items : list A) : M (list B) :=
  '(bs, es) ← pMap_settle f items;
  match es with
  | [] => mret bs
  | e :: _ => throw e
  end.

(** The entry [doUploadCrash] adds to the crash data. *)
Definition recordingMetadata_marker (recording : RecordingEntry) : value :=
  Some (JObj ([("kind", JStr "recordingMetadata")]
              ++ match id recording with
                 | Some j => [("recordingId", j)]
                 | None => []
                 end)).

(** [doUploadCrash(dir, server, recording, verbose, apiKey, agent)];
    its result is [null] when the connection fails, [undefined] otherwise.
    The marker is pushed onto the array [recording.crashData] itself when
    the recording has one; the embedding passes recordings by value, and
    nothing in [doUploadRecording] reads the crash data again. *)
Definition doUploadCrash (dir srv : string) (recording : RecordingEntry)
  (key : value) : M value :=
  connected ← call env (InitConnection srv key);
  if negb (truthy connected) then mret (Some JNull)
  else
    let crashData :=
      match crashData recording with
      | Some l => l
      | None => []
      end ++ [recordingMetadata_marker recording] in
    _ ← Promise_all_map (fun data => call env (ReportCrash data)) crashData;
    _ ← addRecordingEvent env dir "crashUploaded" (id recording) [("server", JStr srv)];
    _ ← call env CloseConnection;
    mret undefined.

(** Modelled from the spec: [exponentialBackoffRetry] of [./utils] is not
    among the sources.  "Individual network operations (notably byte
    transfer) use exponential backoff with randomized jitter, capped
    attempt count (default 5); on final failure the error propagates to
    the caller of that step only."  [left] attempts remain; the wait
    before the next one is the call [Backoff attempt]. *)
Fixpoint retry_attempts {A} (left attempt : nat) (f : M A) (onFail : Error -> M unit)
  : M A :=
  match left with
  | O => throw ShouldBeUnreachable
  | S left' =>
      try_catch f
        (fun e =>
           _ ← onFail e;
           match left' with
           | O => throw e
           | S _ =>
               _ ← call env (Backoff attempt);
               retry_attempts left' (S attempt) f onFail
           end)
  end.

Definition exponentialBackoffRetry {A} (f : M A) (onFail : Error -> M unit) : M A :=
  retry_attempts 5 1 f onFail.

(** [const { recordingId, uploadLink } = response]. *)
Definition destructure (response : value) (k : string) : M value :=
  match response with
  | None | Some JNull => throw (TypeError "Cannot destructure property")
  | Some obj => mret (prop obj k)
  end.

(** [fs.promises.stat(file).size]. *)
Definition stat_size (file : value) : M Z :=
  p ← as_path file;
  contents ← readFileSync p;
  mret (Z.of_nat (String.length contents)).

Definition tag (k : string) (v : value) : list (string * JSON) :=
  match v with
  | Some j => [(k, j)]
  | None => []
  end.

(** The mapper of the inner [pMap]: one original source. *)
Definition uploadOriginalSource (remoteId sourcemapId : value) (o : OriginalSource)
  : M value :=
  p ← as_path (os_path o);
  contents ← readFileSync p;
  call env (UploadOriginalSource remoteId sourcemapId o contents).

(** The mapper of the outer [pMap]: one source map and its original
    sources; whatever is thrown is caught and only logged. *)
Definition uploadSourcemap (remoteId : value) (sourcemap : SourceMapEntry) : M unit :=
  try_catch
    (p ← as_path (sm_path sourcemap);
     contents ← readFileSync p;
     sourcemapId ← call env (UploadSourcemap remoteId sourcemap contents);
     _ ← pMap (sm_originalSources sourcemap)
           (uploadOriginalSource remoteId sourcemapId) 5;
     skip)
    (fun _ => skip).

(** [if (!apiKey) { apiKey = await readToken({ directory: dir }); }]. *)
Definition apiKey_or_token (dir : string) (key : value) : M value :=
  if negb (truthy key) then call env (ReadToken dir) else mret key.

(** The branch of [doUploadRecording] for a crashed recording. *)
Definition uploadCrashReport (dir srv : string) (recording : RecordingEntry)
  (key : value) (removeAssets : bool) : M value :=
  _ ← doUploadCrash dir srv recording key;
  _ ← (if removeAssets
       then removeRecordingAssets recording (directory_only dir)
       else skip);
  mret (id recording).

(** [doUploadRecording(dir, server, recording, verbose, apiKey, agent,
    removeAssets)]; the result [null] is [Some JNull]. *)
Definition doUploadRecording (dir srv : string) (recording : RecordingEntry)
  (key : value) (removeAssets : bool) : M value :=
  if Status_eqb (status recording) uploaded && truthy (recordingId recording) then
    mret (recordingId recording)
  else
    match uploadSkipReason recording with
    | Some _ => mret (Some JNull)
    | None =>
        key ← apiKey_or_token dir key;
        if Status_eqb (status recording) crashed then
          uploadCrashReport dir srv recording key removeAssets
        else
          size ← stat_size (path recording);
          connected ← call env (InitConnection srv key);
          if negb (truthy connected) then mret (Some JNull)
          else
            md ← call env (BuildRecordingMetadata (metadata recording));
            response ← call env (BeginRecordingUpload (id recording)
                                   (buildId recording) size);
            remoteId ← destructure response "recordingId";
            uploadLink ← destructure response "uploadLink";
            _ ← (if truthy md
                 then try_catch
                        (_ ← call env (SetRecordingMetadata remoteId md); skip)
                        (fun _ => skip)
                 else skip);
            _ ← addRecordingEvent env dir "uploadStarted" (id recording)
                  ([("server", JStr srv)] ++ tag "recordingId" remoteId);
            _ ← exponentialBackoffRetry
                  (call env (UploadRecording (path recording) uploadLink size))
                  (fun _ => skip);
            _ ← call env (EndRecordingUpload (id recording));
            _ ← pMap (sourcemaps recording) (uploadSourcemap remoteId) 10;
            _ ← (if removeAssets
                 then removeRecordingAssets recording (directory_only dir)
                 else skip);
            _ ← addRecordingEvent env dir "uploadFinished" (id recording) [];
            _ ← call env CloseConnection;
            mret remoteId
    end.

(** [uploadRecording(id, opts)]. *)
Definition uploadRecording (rid : string) (opts : Options) : M value :=
  let srv := getServer env opts in
  let dir := getDirectory (directory opts) in
  recordings ← readRecordings dir false;
  match List.find (fun r => looseEq (id r) (str rid)) recordings with
  | None => mret (Some JNull)
  | Some recording => doUploadRecording dir srv recording (apiKey opts) true
  end.

(** [Math.min(opts.batchSize || 20, 25)]. *)
Definition uploadConcurrency (opts : Options) : Z :=
  Z.min (match batchSize opts with
         | Some b => if b =? 0 then 20 else b
         | None => 20
         end) 25.

Definition is_null (v : value) : bool :=
  match v with
  | Some JNull => true
  | _ => false
  end.

(** [uploadAllRecordings(opts)].  The ids the uploads returned are looked
    up with [===] among the selected recordings; a crashed recording returns
    its own [id], which [strictEq] finds again unless it is an array or an
    object. *)
Definition uploadAllRecordings (opts : Options) : M bool :=
  let srv := getServer env opts in
  let dir := getDirectory (directory opts) in
  read ← readRecordings dir false;
  let allRecordings :=
    List.filter (fun r => negb (bool_decide (is_Some (uploadSkipReason r)))) read in
  recordings ← lift (filterRecordings allRecordings (filter opts) (includeCrashes opts));
  match recordings with
  | [] => mret true
  | _ =>
      let batchSize := uploadConcurrency opts in
      recordingIds ←
        pMap recordings
          (fun r => doUploadRecording dir srv r (apiKey opts) false)
          batchSize;
      _ ← forEach
            (fun rid =>
               match List.find (fun r => strictEq (id r) rid) recordings with
               | None => skip
               | Some recording => removeRecordingAssets recording opts
               end)
            recordingIds;
      mret (forallb (fun r => negb (is_null r)) recordingIds)
  end.
End Upload.

(** ** The Numbers of the backoff

    The delays of [retry.ts] are Numbers: IEEE 754 doubles, with every
    product and sum rounded to the nearest double, ties to the even one.  A
    finite Number is given by its value (the sign of a zero is not kept;
    nothing here divides by one). *)

Module Double.

Inductive number : Type :=
| Finite (q : Q)
| Infinity (negative : bool)
| NaN.

(** The exponent of the least positive double, and the power of 2 that no
    double reaches. *)
Definition emin : Z := -1074.
Definition emax : Z := 1024.

(** The integer nearest to [x], the even one of two that are as near. *)
Definition rne (x : Q) : Z :=
  let f := Qfloor x in
  match (x - inject_Z f ?= 1 # 2)%Q with
  | Lt => f
  | Eq => if Z.even f then f else f + 1
  | Gt => f + 1
  end.

(** The exponent of the step between the doubles around [x >= 0]: 52 binary
    digits below the leading one, and [emin] for the subnormals. *)
Definition exponent (x : Q) : Z :=
  Z.max (Z.log2 (Qfloor (x * 2 ^ 1074)%Q) - 1074 - 52) emin.

Definition negative (x : Q) : bool := negb (Qle_bool 0 x).

(** The double nearest to [x]; what reaches [2 ** 1024] is an infinity. *)
Definition round (x : Q) : number :=
  let e := exponent (Qabs x) in
  let r := (inject_Z (rne (Qabs x / 2 ^ e)) * 2 ^ e)%Q in
  if Qle_bool (2 ^ emax) r then Infinity (negative x)
  else Finite (Qred (if negative x then - r else r)).

(** [x * y]. *)
Definition mul (x y : number) : number :=
  match x, y with
  | NaN, _ | _, NaN => NaN
  | Finite a, Finite b => round (a * b)
  | Infinity s, Infinity t => Infinity (xorb s t)
  | Infinity s, Finite b | Finite b, Infinity s =>
      if Qeq_bool b 0 then NaN else Infinity (xorb s (negative b))
  end.

(** [x + y]. *)
Definition add (x y : number) : number :=
  match x, y with
  | NaN, _ | _, NaN => NaN
  | Finite a, Finite b => round (a + b)
  | Infinity s, Infinity t => if Bool.eqb s t then Infinity s else NaN
  | Infinity s, Finite _ | Finite _, Infinity s => Infinity s
  end.

(** [2 ** n] for an integer [n]. *)
Definition pow2 (n : Z) : number := round (2 ^ n).

(** The rationals that are doubles. *)
Definition representable (q : Q) : Prop :=
  exists m e : Z, emin <= e /\ Z.abs m < 2 ^ 53 /\ (q == inject_Z m * 2 ^ e)%Q.

End Double.

(** ** [retry] and [retryWithExponentialBackoff] *)

Module Retry.

(** What a run of [retry] leaves behind: how often the async function was
    invoked, how many numbers [Math.random] handed out, the delays waited
    for and the failures reported to [onFail]. *)
Record Run : Type := {
  invocations : nat;
  draws : nat;
  waits : list Double.number;
  reported : list (Error * Z)
}.

Definition start : Run :=
  {| invocations := 0; draws := 0; waits := []; reported := [] |}.

Definition invoked (st : Run) : Run :=
  {| invocations := S (invocations st); draws := draws st;
     waits := waits st; reported := reported st |}.

Definition drawn (st : Run) : Run :=
  {| invocations := invocations st; draws := S (draws st);
     waits := waits st; reported := reported st |}.

Definition waited (ms : Double.number) (st : Run) : Run :=
  {| invocations := invocations st; draws := draws st;
     waits := waits st ++ [ms]; reported := reported st |}.

Definition report (e : Error) (attempt : Z) (st : Run) : Run :=
  {| invocations := invocations st; draws := draws st;
     waits := waits st; reported := reported st ++ [(e, attempt)] |}.

Section Retry.
Context {T : Type}.
(** [asyncFunction k] is how the [k]-th invocation of the async function
    settles; [random k] is the value of the [k]-th number of [Math.random]. *)
Context (asyncFunction : nat -> result T) (random : nat -> Q).

(** [jitter()]: [Math.random() * 100]. *)
Definition jitter (st : Run) : Double.number * Run :=
  (Double.mul (Double.Finite (random (draws st))) (Double.Finite 100), drawn st).

(** [if (onFail) { onFail(error, currentAttempt); }]. *)
Definition notify (onFail : option (Error -> Z -> result unit)) (error : Error)
  (currentAttempt : Z) (st : Run) : result unit * Run :=
  match onFail with
  | Some f => (f error currentAttempt, report error currentAttempt st)
  | None => (Ok tt, st)
  end.

(** The [while (currentAttempt <= maxAttempts)] loop of [retry] and the
    [throw] after it. *)
Equations? retry_loop (backOffStrategy : Z -> Run -> Double.number * Run)
  (onFail : option (Error -> Z -> result unit)) (maxAttempts : Z)
  (currentAttempt : Z) (st : Run) : result T * Run
  by wf (Z.to_nat (maxAttempts + 1 - currentAttempt)) lt :=
  retry_loop backOffStrategy onFail maxAttempts currentAttempt st
    with Z_le_dec currentAttempt maxAttempts => {
    | right _ := (Throw ShouldBeUnreachable, st)
    | left _ with asyncFunction (S (invocations st)) => {
      | Ok v := (Ok v, invoked st)
      | Throw error
          with notify onFail error (currentAttempt + 1) (invoked st) => {
        | (Throw e, st1) := (Throw e, st1)
        | (Ok _, st1) with Z.eq_dec (currentAttempt + 1) maxAttempts => {
          | left _ := (Throw error, st1)
          | right _ :=
              retry_loop backOffStrategy onFail maxAttempts (currentAttempt + 1)
                (waited (fst (backOffStrategy (currentAttempt + 1) st1))
                   (snd (backOffStrategy (currentAttempt + 1) st1)))
          } } } }.
Proof. lia. Qed.

(** [retry(asyncFunction, backOffStrategy, onFail, maxAttempts = 5)]. *)
Definition retry (backOffStrategy : Z -> Run -> Double.number * Run)
  (onFail : option (Error -> Z -> result unit)) (maxAttempts : option Z)
  : result T * Run :=
  retry_loop backOffStrategy onFail
    (match maxAttempts with Some n => n | None => 5 end) 0 start.

(** [iteration => 2 ** iteration * 100 + jitter()]. *)
Definition exponential_backoff (iteration : Z) (st : Run) : Double.number * Run :=
  (Double.add (Double.mul (Double.pow2 iteration) (Double.Finite 100)) (fst (jitter st)),
   snd (jitter st)).

(** [() => 100 + jitter()]. *)
Definition linear_backoff (iteration : Z) (st : Run) : Double.number * Run :=
  (Double.add (Double.Finite 100) (fst (jitter st)), snd (jitter st)).

Definition retryWithExponentialBackoff
  (onFail : option (Error -> Z -> result unit)) (maxTries : option Z)
  : result T * Run :=
  retry exponential_backoff onFail maxTries.

Definition retryWithLinearBackoff
  (onFail : option (Error -> Z -> result unit)) (maxTries : option Z)
  : result T * Run :=
  retry linear_backoff onFail maxTries.
End Retry.
End Retry.

(** ** An executable runtime

    [Reference.js] runs the model on concrete logs.  It reads and
    writes the JSON the log is made of: objects, arrays, strings with the
    two-character escapes, integers, [true], [false] and [null]; a numeral
    with a fraction or an exponent and a [\u] escape are not read.  [==]
    compares operands of one primitive type and [null]/[undefined] with each
    other, without coercion between types. *)

Module Reference.

Definition dquote : ascii := "034"%char.

Definition is_space (c : ascii) : bool :=
  (Ascii.eqb c " " || Ascii.eqb c "009" || Ascii.eqb c "010" || Ascii.eqb c "013")%char.

Fixpoint skip_ws (s : string) : string :=
  match s with
  | String c rest => if is_space c then skip_ws rest else s
  | EmptyString => s
  end.

Definition digit_of (c : ascii) : option Z :=
  let n := Z.of_nat (nat_of_ascii c) in
  if (48 <=? n) && (n <=? 57) then Some (n - 48) else None.

(** The digits at the start of [s], read after the value [acc]. *)
Fixpoint read_digits (acc : Z) (s : string) : Z * string :=
  match s with
  | String c rest =>
      match digit_of c with
      | Some d => read_digits (10 * acc + d) rest
      | None => (acc, s)
      end
  | EmptyString => (acc, s)
  end.

Definition ends_numeral (s : string) : bool :=
  match s with
  | String c _ =>
      negb (Ascii.eqb c "." || Ascii.eqb c "e" || Ascii.eqb c "E")%char
  | EmptyString => true
  end.

(** An unsigned integer numeral without a leading zero. *)
Definition read_natural (s : string) : option (Z * string) :=
  match s with
  | String c rest =>
      match digit_of c with
      | Some 0 =>
          match rest with
          | String c' _ =>
              match digit_of c' with
              | Some _ => None
              | None => if ends_numeral rest then Some (0, rest) else None
              end
          | EmptyString => Some (0, rest)
          end
      | Some d =>
          let '(n, rest') := read_digits d rest in
          if ends_numeral rest' then Some (n, rest') else None
      | None => None
      end
  | EmptyString => None
  end.

(** The characters of a string literal after its opening quote. *)
Fixpoint read_string (s : string) : option (string * string) :=
  match s with
  | EmptyString => None
  | String c rest =>
      if Ascii.eqb c dquote then Some ("", rest)
      else if Ascii.eqb c "\"%char then
        match rest with
        | String e rest' =>
            let unescaped :=
              if Ascii.eqb e dquote then Some dquote
              else if Ascii.eqb e "\"%char then Some "\"%char
              else if Ascii.eqb e "/"%char then Some "/"%char
              else if Ascii.eqb e "n"%char then Some "010"%char
              else if Ascii.eqb e "r"%char then Some "013"%char
              else if Ascii.eqb e "t"%char then Some "009"%char
              else if Ascii.eqb e "b"%char then Some "008"%char
              else if Ascii.eqb e "f"%char then Some "012"%char
              else None in
            match unescaped, read_string rest' with
            | Some u, Some (body, after) => Some (String u body, after)
            | _, _ => None
            end
        | EmptyString => None
        end
      else if (nat_of_ascii c <? 32)%nat then None
      else
        match read_string rest with
        | Some (body, after) => Some (String c body, after)
        | None => None
        end
  end.

(** A value at the start of [s] and what follows it. *)
Fixpoint read_value (fuel : nat) (s : string) : option (JSON * string) :=
  match fuel with
  | O => None
  | S fuel' =>
      let s := skip_ws s in
      if starts_with "null" s then Some (JNull, String.substring 4 (String.length s) s)
      else if starts_with "true" s then
        Some (JBool true, String.substring 4 (String.length s) s)
      else if starts_with "false" s then
        Some (JBool false, String.substring 5 (String.length s) s)
      else
        match s with
        | String c rest =>
            if Ascii.eqb c dquote then
              match read_string rest with
              | Some (body, after) => Some (JStr body, after)
              | None => None
              end
            else if Ascii.eqb c "-"%char then
              match read_natural rest with
              | Some (n, after) => Some (JNum (- n), after)
              | None => None
              end
            else if Ascii.eqb c "["%char then
              match skip_ws rest with
              | String "]"%char after => Some (JArr [], after)
              | _ =>
                  match read_elements fuel' rest with
                  | Some (xs, after) => Some (JArr xs, after)
                  | None => None
                  end
              end
            else if Ascii.eqb c "{"%char then
              match skip_ws rest with
              | String "}"%char after => Some (JObj [], after)
              | _ =>
                  match read_members fuel' rest with
                  | Some (fs, after) => Some (JObj fs, after)
                  | None => None
                  end
              end
            else
              match read_natural s with
              | Some (n, after) => Some (JNum n, after)
              | None => None
              end
        | EmptyString => None
        end
  end

(** The elements of an array after [[] or [,], up to and with []]. *)
with read_elements (fuel : nat) (s : string) : option (list JSON * string) :=
  match fuel with
  | O => None
  | S fuel' =>
      match read_value fuel' s with
      | Some (x, after) =>
          match skip_ws after with
          | String "]"%char after' => Some ([x], after')
          | String ","%char after' =>
              match read_elements fuel' after' with
              | Some (xs, rest) => Some (x :: xs, rest)
              | None => None
              end
          | _ => None
          end
      | None => None
      end
  end

(** The members of an object after [{] or [,], up to and with [}]. *)
with read_members (fuel : nat) (s : string) : option (list (string * JSON) * string) :=
  match fuel with
  | O => None
  | S fuel' =>
      match skip_ws s with
      | String q rest =>
          if negb (Ascii.eqb q dquote) then None else
          match read_string rest with
          | Some (key, after) =>
              match skip_ws after with
              | String ":"%char after' =>
                  match read_value fuel' after' with
                  | Some (x, after'') =>
                      match skip_ws after'' with
                      | String "}"%char rest' => Some ([(key, x)], rest')
                      | String ","%char rest' =>
                          match read_members fuel' rest' with
                          | Some (fs, rest'') => Some ((key, x) :: fs, rest'')
                          | None => None
                          end
                      | _ => None
                      end
                  | None => None
                  end
              | _ => None
              end
          | None => None
          end
      | _ => None
      end
  end.

Definition parse (s : string) : option JSON :=
  match read_value (S (String.length s)) s with
  | Some (j, after) =>
      match skip_ws after with
      | EmptyString => Some j
      | _ => None
      end
  | None => None
  end.
(** [JSON.stringify] of a string. *)
Fixpoint quoted (s : string) : string :=
  match s with
  | EmptyString => String dquote ""
  | String c rest =>
      if Ascii.eqb c dquote then String "\" (String dquote (quoted rest))
      else if Ascii.eqb c "\"%char then String "\" (String "\" (quoted rest))
      else if Ascii.eqb c "010"%char then String "\" (String "n" (quoted rest))
      else if Ascii.eqb c "013"%char then String "\" (String "r" (quoted rest))
      else if Ascii.eqb c "009"%char then String "\" (String "t" (quoted rest))
      else String c (quoted rest)
  end.

Fixpoint stringify (j : JSON) : string :=
  match j with
  | JNull => "null"
  | JBool true => "true"
  | JBool false => "false"
  | JNum n => pretty n
  | JStr s => String dquote (quoted s)
  | JArr xs =>
      "[" +:+ (fix items (l : list JSON) : string :=
                 match l with
                 | [] => "]"
                 | [x] => stringify x +:+ "]"
                 | x :: l' => stringify x +:+ "," +:+ items l'
                 end) xs
  | JObj fs =>
      "{" +:+ (fix members (l : list (string * JSON)) : string :=
                 match l with
                 | [] => "}"
                 | [(k, x)] => String dquote (quoted k) +:+ ":" +:+ stringify x +:+ "}"
                 | (k, x) :: l' =>
                     String dquote (quoted k) +:+ ":" +:+ stringify x +:+ "," +:+ members l'
                 end) fs
  end.

(** [v == w] without coercion between types. *)
Definition eq_same_type (v w : value) : bool :=
  match v, w with
  | (None | Some JNull), (None | Some JNull) => true
  | _, _ => strictEq v w
  end.

(** [String(v)]; an array joins its elements, an object is
    [[object Object]]. *)
Fixpoint String_of (j : JSON) : string :=
  match j with
  | JNull => "null"
  | JBool true => "true"
  | JBool false => "false"
  | JNum n => pretty n
  | JStr s => s
  | JArr xs =>
      (fix items (l : list JSON) : string :=
         match l with
         | [] => ""
         | [x] => match x with JNull => "" | _ => String_of x end
         | x :: l' => match x with JNull => "" | _ => String_of x end +:+ "," +:+ items l'
         end) xs
  | JObj _ => "[object Object]"
  end.

Definition to_string (v : value) : string :=
  match v with
  | Some j => String_of j
  | None => "undefined"
  end.

(** The title of a recording without one: from [uri] or from [argv[0]],
    taken as they are. *)
Definition default_title (m : gmap string value) : value :=
  match get m "uri" with
  | Some (JStr host) =>
      if String.eqb host "" then None else str ("Replay of " +:+ host)
  | _ =>
      match get m "argv" with
      | Some (JArr (JStr a :: _)) => str ("Replay of " +:+ a)
      | _ => None
      end
  end.

#[export] Instance js : JSRuntime := {|
  JSON_parse := parse;
  JSON_stringify := stringify;
  looseEq := eq_same_type;
  ToString := to_string;
  path_join := fun dir name => dir +:+ "/" +:+ name;
  generateDefaultTitle := default_title;
  looseEq_str := fun _ _ => eq_refl;
  ToString_str := fun _ => eq_refl
|}.

(** [getDirectory] reads [opts.directory], with a fixed default; a jsonata
    expression keeps every entry. *)
#[export] Instance helpers : Helpers := {|
  getDirectory := fun dir =>
    match or_else dir None with
    | Some d => d
    | None => "/home/user/.replay"
    end;
  jsonata_filter := fun _ recordings => Ok (List.map (fun _ => true) recordings)
|}.

(** A service that accepts every call: the connection is made, an upload
    is given the remote id [R1], and time stands at [t]. *)
Definition accepting (t : Z) : Environment := {|
  respond := fun _ c =>
    match c with
    | InitConnection _ _ => Ok (Some (JBool true))
    | BeginRecordingUpload _ _ _ =>
        Ok (Some (JObj [("recordingId", JStr "R1"); ("uploadLink", JStr "link")]))
    | BuildRecordingMetadata _ => Ok (Some (JObj []))
    | UploadSourcemap _ _ _ => Ok (str "S1")
    | ReadToken _ => Ok (str "token")
    | _ => Ok None
    end;
  Date_now := fun _ => t;
  RECORD_REPLAY_SERVER := None;
  REPLAY_SERVER := None
|}.

End Reference.

(** * The vocabulary of the properties *)

(** The statuses a recording may show later, given the one it shows now:
    [unusable] and [crashUploaded] stay, [crashed] stays or becomes
    [crashUploaded]. *)
Definition may_follow (now later : Status) : Prop :=
  match now with
  | unusable => later = unusable
  | crashUploaded => later = crashUploaded
  | crashed => later = crashed \/ later = crashUploaded
  | _ => True
  end.

(** The entry at a position keeps its [id], and its status only moves as
    [may_follow] allows. *)
Definition same_recording (r r' : RecordingEntry) : Prop :=
  id r' = id r /\ may_follow (status r) (status r').

(** The order [unknown < startedWrite < onDisk < startedUpload < uploaded];
    the other statuses are outside it. *)
Definition chain_rank (s : Status) : option nat :=
  match s with
  | unknown => Some 0%nat
  | startedWrite => Some 1%nat
  | onDisk => Some 2%nat
  | startedUpload => Some 3%nat
  | uploaded => Some 4%nat
  | _ => None
  end.

(** [later] does not come before [earlier] in the order. *)
Definition chain_leb (earlier later : Status) : bool :=
  match chain_rank earlier, chain_rank later with
  | Some m, Some n => (m <=? n)%nat
  | _, _ => true
  end.

(** Neither a dash nor a line terminator. *)
Definition plain_char (c : ascii) : bool :=
  negb (is_dash c) && negb (is_line_terminator c).

Fixpoint plain (s : string) : bool :=
  match s with
  | EmptyString => true
  | String c rest => plain_char c && plain rest
  end.

(** A log event as the driver and [addRecordingEvent] write it. *)
Definition event_line `{RT : JSRuntime} (kind rid : string) (tags : list (string * JSON))
  : string :=
  JSON_stringify (JObj ([("kind", JStr kind); ("id", JStr rid)] ++ tags)).

(** [recordings.find(r => r.id == id)] and the update of the entry found. *)
Definition on_id `{RT : JSRuntime} (rs : list RecordingEntry) (obj : JSON)
  (f : RecordingEntry -> RecordingEntry) : list RecordingEntry :=
  update_first (fun r => looseEq (id r) (prop obj "id")) f rs.

(** The lines of the log of [dir] on a disk. *)
Definition log_lines `{RT : JSRuntime} (dir : string) (d : gmap string string)
  : list string :=
  match d !! getRecordingsFile dir with
  | Some contents => split_lines contents
  | None => []
  end.

(** [stays P m]: whatever [m] returns or throws, the world it leaves is
    related by [P] to the one it started in. *)
Definition stays (P : World -> World -> Prop) {A} (m : M A) : Prop :=
  forall w, P w (snd (m w)).

(** Nothing is called and no file is written: files can only go. *)
Definition only_deletes (w w' : World) : Prop :=
  history w' = history w /\
  forall file, disk w' !! file = None \/ disk w' !! file = disk w !! file.

(** The statuses [listAllRecordings] keeps without [all]. *)
Definition uploadable (r : RecordingEntry) : bool :=
  existsb (Status_eqb (status r)) [onDisk; startedWrite; crashed].

(** The file a value names for [maybeRemoveAssetFile]. *)
Definition unlinked (asset : value) (d : gmap string string) : gmap string string :=
  match asset with
  | Some (JStr file) => if String.eqb file "" then d else delete file d
  | _ => d
  end.

(** The disk after the [forEach] of [removeRecordingAssets]: the asset
    files of the recording that no other recording uses are unlinked. *)
Definition cleaned (used mine : list value) (d : gmap string string)
  : gmap string string :=
  fold_left
    (fun d file => if negb (existsb (strictEq file) used) then unlinked file d else d)
    mine d.

(** The calls that move a recording's bytes or open its upload. *)
Definition is_transfer (c : Call) : bool :=
  match c with
  | BeginRecordingUpload _ _ _ | UploadRecording _ _ _ | EndRecordingUpload _
  | SetRecordingMetadata _ _ | UploadSourcemap _ _ _ | UploadOriginalSource _ _ _ _ => true
  | _ => false
  end.

Definition is_reportCrash (c : Call) : bool :=
  match c with
  | ReportCrash _ => true
  | _ => false
  end.


Fixpoint returned {B} (outcomes : list (result B)) : list B :=
  match outcomes with
  | [] => []
  | Ok b :: rest => b :: returned rest
  | Throw _ :: rest => returned rest
  end.



(** The jitter made of the [k]-th number of [Math.random]. *)
Definition jitter_of (random : nat -> Q) (k : nat) : Double.number :=
  Double.mul (Double.Finite (random k)) (Double.Finite 100).

(** [Math.random] returns doubles from 0 up to, but not including, 1. *)
Definition random_in_range (random : nat -> Q) : Prop :=
  forall k, Double.representable (random k) /\ (0 <= random k < 1)%Q.

(** The delays before the retries 1 to [m]: retry [n] waits
    [2 ** n * 100] and the jitter of the [n]-th random number. *)
Definition backoff_delays (random : nat -> Q) (m : nat) : list Double.number :=
  List.map
    (fun n =>
       Double.add (Double.mul (Double.pow2 (Z.of_nat n + 1)) (Double.Finite 100))
         (jitter_of random n))
    (seq 0 m).

(** The invocations [1] to [k - 1] threw. *)
Definition all_threw {T : Type} (asyncFunction : nat -> result T) (k : nat) : Prop :=
  forall j, (1 <= j < k)%nat -> exists e, asyncFunction j = Throw e.

(** The status the events of a kind set, for the kinds that set one. *)
Definition status_of_kind (kind : string) : option Status :=
  if String.eqb kind "writeStarted" then Some startedWrite
  else if String.eqb kind "writeFinished" then Some onDisk
  else if String.eqb kind "uploadStarted" then Some startedUpload
  else if String.eqb kind "uploadFinished" then Some uploaded
  else if String.eqb kind "recordingUnusable" then Some unusable
  else if String.eqb kind "crashed" then Some crashed
  else if String.eqb kind "crashUploaded" then Some crashUploaded
  else None.

(** The status a recording shows after an event that names the status
    [named], given the one it shows [now]. *)
Definition status_after (now named : Status) : Status :=
  match now with
  | unusable => unusable
  | crashUploaded => crashUploaded
  | crashed => match named with crashUploaded => crashUploaded | _ => crashed end
  | _ => named
  end.

(** [recordings.find(r => r.id == v)] finds the entry at position [i]: it
    is the first whose id is [==] to [v]. *)
Definition found_at `{RT : JSRuntime} (recordings : list RecordingEntry) (v : value)
  (i : nat) : Prop :=
  (exists r, recordings !! i = Some r /\ looseEq (id r) v = true) /\
  forall j r, (j < i)%nat -> recordings !! j = Some r -> looseEq (id r) v = false.

(** The default read leaves the recording out: its unusable reason
    includes [No interesting content]. *)
Definition hidden (r : RecordingEntry) : bool :=
  match noInterestingContent (unusableReason r) with
  | Ok b => b
  | Throw _ => false
  end.

(** What [readRecordings] returns of the entries its loop has built. *)
Definition listed (includeHidden : bool) (recordings : list RecordingEntry)
  : result (list RecordingEntry) :=
  if includeHidden then Ok recordings
  else filter_result
         (fun r => bind_result (noInterestingContent (unusableReason r))
                     (fun b => Ok (negb b)))
         recordings.

(** * Logs and worlds the properties are run on *)

(** A log in which the write of recording [A] is reported finished before
    it is reported started. *)
Definition rewinding_log : list string :=
  [ event_line (RT := Reference.js) "createRecording" "A"
      [("timestamp", JNum 1); ("buildId", JStr "2023-chromium-x")];
    event_line (RT := Reference.js) "writeFinished" "A" [("timestamp", JNum 2)];
    event_line (RT := Reference.js) "writeStarted" "A"
      [("timestamp", JNum 3); ("path", JStr "/tmp/a")] ].

(** A recording that crashed, as the fold holds it. *)
Definition crashed_recording : RecordingEntry :=
  {| id := str "A"; createTime := Some (JNum 1); buildId := str "2023-chromium-x";
     runtime := "chromium"; metadata := ∅; sourcemaps := []; status := crashed;
     path := None; server := None; recordingId := None;
     crashData := None; unusableReason := None |}.

(** Events that reach a recording after its crash. *)
Definition after_crash_log : list string :=
  [ event_line (RT := Reference.js) "writeStarted" "A" [("path", JStr "/tmp/a")];
    event_line (RT := Reference.js) "uploadFinished" "A" [];
    event_line (RT := Reference.js) "crashUploaded" "A" [("server", JStr "wss://s")];
    event_line (RT := Reference.js) "recordingUnusable" "A" [("reason", JStr "late")] ].

(** A log with a truncated line in the middle. *)
Definition torn_log_before : list string :=
  [ event_line (RT := Reference.js) "createRecording" "A"
      [("timestamp", JNum 1); ("buildId", JStr "2023-chromium-x")] ].

Definition torn_log_after : list string :=
  [ event_line (RT := Reference.js) "writeStarted" "A" [("path", JStr "/tmp/a")] ].

(** A log with a recording [A] that never loaded anything of interest, and
    a recording [B]. *)
Definition hidden_log : list string :=
  [ event_line (RT := Reference.js) "createRecording" "A"
      [("timestamp", JNum 1); ("buildId", JStr "2023-chromium-x")];
    event_line (RT := Reference.js) "recordingUnusable" "A"
      [("reason", JStr "No interesting content in recording")];
    event_line (RT := Reference.js) "createRecording" "B"
      [("timestamp", JNum 2); ("buildId", JStr "2023-chromium-x")] ].

(** The log of the scenario, as text. *)
Definition scenario_events : list JSON :=
  [ JObj [("kind", JStr "createRecording"); ("id", JStr "A"); ("timestamp", JNum 1);
          ("buildId", JStr "2023-chromium-x")];
    JObj [("kind", JStr "writeStarted"); ("id", JStr "A"); ("timestamp", JNum 2);
          ("path", JStr "/tmp/a")];
    JObj [("kind", JStr "writeFinished"); ("id", JStr "A"); ("timestamp", JNum 3)];
    JObj [("kind", JStr "uploadStarted"); ("id", JStr "A"); ("timestamp", JNum 4);
          ("server", JStr "wss://dispatch.replay.io"); ("recordingId", JStr "R1")];
    JObj [("kind", JStr "uploadFinished"); ("id", JStr "A"); ("timestamp", JNum 5)] ].

Definition scenario_log : list string :=
  List.map Reference.stringify scenario_events.

(** A disk with the log of one recording [B] and a line that is no JSON. *)
Definition littered_log : list string :=
  [ event_line (RT := Reference.js) "createRecording" "B"
      [("timestamp", JNum 1); ("buildId", JStr "2023-chromium-x")];
    "not json" ].

Definition littered_world : World :=
  {| disk := {[ "/r/recordings.log" := join_lines littered_log +:+ String "010"%char "" ]};
     history := []; pools := [] |}.

(** The log of recordings [A] and [B], both written to disk, each with a
    source map at [/tmp/sm.map]; [extra] are the lines that follow. *)
Definition shared_log (extra : list string) : list string :=
  [ event_line (RT := Reference.js) "createRecording" "A"
      [("timestamp", JNum 1); ("buildId", JStr "2023-chromium-x")];
    event_line (RT := Reference.js) "writeStarted" "A" [("path", JStr "/tmp/a")];
    event_line (RT := Reference.js) "writeFinished" "A" [];
    event_line (RT := Reference.js) "sourcemapAdded" "s1"
      [("recordingId", JStr "A"); ("path", JStr "/tmp/sm.map")];
    event_line (RT := Reference.js) "createRecording" "B"
      [("timestamp", JNum 2); ("buildId", JStr "2023-chromium-x")];
    event_line (RT := Reference.js) "writeStarted" "B" [("path", JStr "/tmp/b")];
    event_line (RT := Reference.js) "writeFinished" "B" [];
    event_line (RT := Reference.js) "sourcemapAdded" "s2"
      [("recordingId", JStr "B"); ("path", JStr "/tmp/sm.map")] ]
  ++ extra.

(** A disk with that log under [/r] and the files it names. *)
Definition shared_world (extra : list string) : World :=
  {| disk :=
       <["/r/recordings.log" := join_lines (shared_log extra) +:+ String "010"%char ""]>
       (<["/tmp/a" := "recording A"]>
       (<["/tmp/b" := "recording B"]>
       (<["/tmp/sm.map" := "{}"]>
       (<["/tmp/sm.lookup" := "lookup"]> ∅))));
     history := []; pools := [] |}.

(** The recordings the registry reads from a world. *)
Definition registry_of (w : World) : list RecordingEntry :=
  match readRecordingsOf (RT := Reference.js)
          (log_lines (RT := Reference.js) "/r" (disk w)) false with
  | Ok recordings => recordings
  | Throw _ => []
  end.

Definition recording_A (w : World) : RecordingEntry :=
  nth 0 (registry_of w) crashed_recording.

Definition recording_B (w : World) : RecordingEntry :=
  nth 1 (registry_of w) crashed_recording.

(** The same, after a line that is no JSON was written to the log. *)
Definition both_on_disk : World := shared_world ["not json"].

(** A recording the registry holds as uploaded to [R1]. *)
Definition uploaded_recording : RecordingEntry :=
  {| id := str "A"; createTime := Some (JNum 1); buildId := str "2023-chromium-x";
     runtime := "chromium"; metadata := ∅; sourcemaps := []; status := uploaded;
     path := str "/tmp/a"; server := str "wss://dispatch.replay.io";
     recordingId := str "R1"; crashData := None; unusableReason := None |}.

(** A crashed recording that holds two entries of crash data. *)
Definition crashed_with_two_reports : RecordingEntry :=
  {| id := str "A"; createTime := Some (JNum 1); buildId := str "2023-chromium-x";
     runtime := "chromium"; metadata := ∅; sourcemaps := []; status := crashed;
     path := None; server := None; recordingId := None;
     crashData := Some [Some (JObj [("kind", JStr "stack")]);
                        Some (JObj [("kind", JStr "registers")])];
     unusableReason := None |}.

(** A batch of the two recordings of [shared_world], with batch size 30. *)
Definition batch_of_thirty : Options :=
  {| directory := Some "/r"; opt_server := None; apiKey := str "key"; all := false;
     filter := NoFilter; includeCrashes := false; batchSize := Some 30 |}.

(** The upload of [B] began and did not finish: its status is
    [startedUpload] and its source map is still to be sent. *)
Definition upload_interrupted : World :=
  shared_world
    [ event_line (RT := Reference.js) "uploadStarted" "B"
        [("server", JStr "wss://dispatch.replay.io"); ("recordingId", JStr "R9")] ].

(** [removeRecordingAssets] for recording [A] of a world. *)
Definition clean_A (w : World) : result unit * World :=
  removeRecordingAssets (RT := Reference.js) (HP := Reference.helpers)
    (recording_A w) (directory_only "/r") w.

(** [removeRecording(id)] in a world. *)
Definition remove_from_r (rid : string) (w : World) : result bool * World :=
  removeRecording (RT := Reference.js) (HP := Reference.helpers) rid
    (directory_only "/r") w.

(** An upload that fails twice and then succeeds. *)
Definition third_time_lucky (k : nat) : result nat :=
  if (k <? 3)%nat then Throw (Rejection (str "ECONNRESET")) else Ok k.

(** * The vocabulary of further properties *)

(** A line that [readRecordings] takes for a [createRecording] event. *)
Definition creates `{RT : JSRuntime} (line : string) : bool :=
  match JSON_parse line with
  | Some obj =>
      match prop obj "kind" with
      | Some (JStr kind) => String.eqb kind "createRecording"
      | _ => false
      end
  | None => false
  end.

(** The [id] a line gives. *)
Definition created_id `{RT : JSRuntime} (line : string) : value :=
  match JSON_parse line with
  | Some obj => prop obj "id"
  | None => None
  end.

(** No character of [s] is a newline. *)
Fixpoint no_newline (s : string) : bool :=
  match s with
  | EmptyString => true
  | String c rest => negb (Ascii.eqb c "010"%char) && no_newline rest
  end.

(** How many dashes [s] holds. *)
Fixpoint dashes (s : string) : nat :=
  match s with
  | EmptyString => 0%nat
  | String c rest => ((if is_dash c then 1 else 0) + dashes rest)%nat
  end.

(** The asset files of a recording; none when listing them throws. *)
Definition assets_of (r : RecordingEntry) : list value :=
  match getRecordingAssetFiles r with
  | Ok files => files
  | Throw _ => []
  end.

(** The asset files [removeRecordingAssets] finds in use when it cleans
    [r]: those of the recordings of the registry [read] that
    [listAllRecordings] lists and the filter lets through. *)
Definition used_by_others (read : list RecordingEntry) (r : RecordingEntry) : list value :=
  match flatMap_assets
          (List.filter (otherLocalRecording r) (List.filter uploadable read)) with
  | Ok files => files
  | Throw _ => []
  end.

(** Cleaning [r] deletes [file]: [r] names it and no other recording does. *)
Definition gives_up (read : list RecordingEntry) (file : string) (r : RecordingEntry)
  : bool :=
  existsb (strictEq (str file)) (assets_of r)
  && negb (existsb (strictEq (str file)) (used_by_others read r)).

(** The delays before the retries 1 to [m] of a backoff that waits
    [delay n] and a jitter before retry [n]. *)
Definition retry_delays (delay : Z -> Double.number) (random : nat -> Q) (m : nat)
  : list Double.number :=
  List.map (fun n => Double.add (delay (Z.of_nat n + 1)%Z) (jitter_of random n)) (seq 0 m).

(** What [onFail] was told, against the attempts that failed: each failure
    with its error and the number of its attempt. *)
Definition told_of {T : Type} (asyncFunction : nat -> result T)
  (reported : list (Error * Z)) (attempts : list nat) : Prop :=
  Forall2 (fun (told : Error * Z) (j : nat) =>
             snd told = Z.of_nat j /\ asyncFunction j = Throw (fst told))
    reported attempts.

(** The state of the loop of [retry] after [k] failed attempts and the [k]
    waits that followed them. *)
Definition after_failures {T : Type} (asyncFunction : nat -> result T)
  (delay : Z -> Double.number) (random : nat -> Q) (told : bool) (k : nat) (st : Retry.Run)
  : Prop :=
  Retry.invocations st = k /\ Retry.draws st = k /\
  Retry.waits st = retry_delays delay random k /\
  told_of asyncFunction (Retry.reported st) (if told then seq 1 k else []).

(** A run of [retry] under the cap [n]: it invoked the function [k] times,
    [1 <= k <= n]; every invocation before the last threw; the last one
    returned, and the run returns its value, or it threw at the cap, and the
    run throws its error; before retry [j] it waited [delay j] and a jitter;
    and [onFail], when there is one, was told every failure. *)
Definition capped_run {T : Type} (asyncFunction : nat -> result T)
  (delay : Z -> Double.number) (random : nat -> Q) (told : bool) (n : nat)
  (run : result T * Retry.Run) : Prop :=
  let k := Retry.invocations (snd run) in
  (1 <= k <= n)%nat /\
  (forall j, (1 <= j < k)%nat -> exists e, asyncFunction j = Throw e) /\
  match asyncFunction k with
  | Ok v => fst run = Ok v
  | Throw e => k = n /\ fst run = Throw e
  end /\
  Retry.waits (snd run) = retry_delays delay random (k - 1) /\
  told_of asyncFunction (Retry.reported (snd run))
    (if told
     then seq 1 (match asyncFunction k with Ok _ => k - 1 | Throw _ => k end)
     else []).

(** The two backoffs of [retry.ts], by the delay without its jitter. *)
Definition exponential_delay (iteration : Z) : Double.number :=
  Double.mul (Double.pow2 iteration) (Double.Finite 100).
Definition linear_delay (iteration : Z) : Double.number := Double.Finite 100.

(** All the time a run waited, when every wait was finite. *)
Definition total_wait (st : Retry.Run) : option Q :=
  fold_right
    (fun d total =>
       match d, total with
       | Double.Finite q, Some t => Some (q + t)%Q
       | _, _ => None
       end)
    (Some 0%Q) (Retry.waits st).

(** The calls that send a recording's bytes, a source map or an original
    source. *)
Definition moves_bytes (c : Call) : bool :=
  match c with
  | UploadRecording _ _ _ | UploadSourcemap _ _ _ | UploadOriginalSource _ _ _ _ => true
  | _ => false
  end.

(** The disk is as it was and nothing more was sent. *)
Definition untouched (w w' : World) : Prop :=
  disk w' = disk w /\
  List.filter moves_bytes (history w') = List.filter moves_bytes (history w).

(** A service that cannot be reached: [initConnection] resolves to [false]. *)
Definition unreachable (t : Z) : Environment := {|
  respond := fun _ c =>
    match c with
    | InitConnection _ _ => Ok (Some (JBool false))
    | _ => Ok None
    end;
  Date_now := fun _ => t;
  RECORD_REPLAY_SERVER := None;
  REPLAY_SERVER := None
|}.

(** The event [addRecordingEvent] writes at time [t]. *)
Definition log_event (kind : string) (rid : value) (t : Z) (tags : list (string * JSON))
  : JSON :=
  JObj ([("kind", JStr kind)] ++ tag "id" rid ++ [("timestamp", JNum t)] ++ tags).



(** ** [auth.ts]: the saved token *)

(** No character of [s] is a line terminator. *)
Fixpoint one_line (s : string) : bool :=
  match s with
  | EmptyString => true
  | String c rest => negb (is_line_terminator c) && one_line rest
  end.

(** [.{0,2}$] at the start of [s]: at most two characters, none of them a
    line terminator, and then the end of the text. *)
Definition short_tail (s : string) : bool :=
  (String.length s <=? 2)%nat && one_line s.

(** [maskToken(token)]: [token.replace(/.(?!.{0,2}$)/g, "*")].  A character
    is replaced when [.] matches it and the lookahead fails after it. *)
Fixpoint maskToken (token : string) : string :=
  match token with
  | EmptyString => ""
  | String c rest =>
      String (if negb (is_line_terminator c) && negb (short_tail rest) then "*"%char else c)
        (maskToken rest)
  end.

(** [n] asterisks. *)
Fixpoint stars (n : nat) : string :=
  match n with
  | O => ""
  | S n' => String "*" (stars n')
  end.

(** [s.split(sep)] for a separator of one character: never empty. *)
Fixpoint split_at (sep : ascii) (s : string) : list string :=
  match s with
  | EmptyString => [""]
  | String c rest =>
      if Ascii.eqb c sep then "" :: split_at sep rest
      else match split_at sep rest with
           | [] => [String c ""]
           | l :: ls => String c l :: ls
           end
  end.

(** What [auth.ts] asks of the runtime beyond [JSRuntime]. *)
Class AuthRuntime : Type := {
  (** [new TextDecoder().decode(new Buffer(s, "base64"))]; neither throws. *)
  base64_text : string -> string;
  (** [Number(v)] for a value that is not a number; [None] is [NaN]. *)
  ToNumber : JSON -> option Z
}.

(** [exp != null && now - exp * 1000 > 0]. *)
Definition expired_at `{AR : AuthRuntime} (t : Z) (exp : value) : bool :=
  match exp with
  | None | Some JNull => false
  | Some (JNum n) => 0 <? t - n * 1000
  | Some j =>
      match ToNumber j with
      | Some n => 0 <? t - n * 1000
      | None => false
      end
  end.

Section Auth.
Context `{RT : JSRuntime} `{HP : Helpers} `{AR : AuthRuntime} (env : Environment).

(** [tokenInfo(token)]: the payload of [{ payload }], [None] for [null].
    The payload is the second of the parts [token.split(".", 3)] gives;
    [typeof payload] is [object] for an object, an array and [null]. *)
Definition tokenInfo (token : string) : option JSON :=
  match take 3 (split_at "." token) !! 1%nat with
  | None => None
  | Some encPayload =>
      match JSON_parse (base64_text encPayload) with
      | None => None
      | Some payload =>
          match payload with
          | JNull | JArr _ | JObj _ => Some payload
          | _ => None
          end
      end
  end.

(** [userInfo?.payload?.exp]. *)
Definition token_exp (token : string) : value :=
  match tokenInfo token with
  | Some payload => prop payload "exp"
  | None => None
  end.

(** [hasTokenExpired(token)]. *)
Definition hasTokenExpired (token : string) : M bool :=
  t ← now env; mret (expired_at t (token_exp token)).

(** [getTokenPath(options)]: [path.join(directory, "profile", "token")],
    joined one part after the other. *)
Definition getTokenPath (dir : option string) : string :=
  path_join (path_join (getDirectory dir) "profile") "token".

(** [readToken(options)]: whatever is thrown is caught, and the result is
    [undefined] then.  The awaited [readFile] and [writeFile] of
    [fs/promises] read and write as their synchronous namesakes do. *)
Definition readToken (dir : option string) : M value :=
  try_catch
    (let tokenPath := getTokenPath dir in
     token ← readFileSync tokenPath;
     expired ← hasTokenExpired token;
     if (expired : bool) then _ ← writeFileSync tokenPath ""; mret undefined
     else mret (str token))
    (fun _ => mret undefined).
End Auth.

(** ** [removeFromDisk.ts] of the [replayio] package *)

Module Replayio.

(** The [path] of an original source, of a source map and of a recording
    are three fields here. *)
Record OriginalSource : Type := { source_path : string }.

Record SourceMap : Type := {
  sourceMap_path : string;
  originalSources : list OriginalSource
}.

(** A [LocalRecording], with [metadata.sourceMaps] as [sourceMaps]. *)
Record LocalRecording : Type := {
  id : string;
  path : option string;
  sourceMaps : list SourceMap
}.

Inductive RECORDING_LOG_KIND : Type :=
| originalSourceAdded
| sourcemapAdded
| otherKind (name : string).

Record LogEntry : Type := {
  kind : RECORDING_LOG_KIND;
  entry_id : option string;
  recordingId : option string
}.

(** What [usageMap[k]] holds once [k] has been counted: a number, or what
    is no number ([NaN], and for [__proto__] the prototype, which the
    assignment of a number does not replace). *)
Inductive Usage : Type :=
| Times (n : nat)
| NoNumber.

(** The keys an object literal inherits from [Object.prototype]. *)
Definition inherited (k : string) : bool :=
  existsb (String.eqb k)
    ["constructor"; "__defineGetter__"; "__defineSetter__"; "hasOwnProperty";
     "__lookupGetter__"; "__lookupSetter__"; "isPrototypeOf";
     "propertyIsEnumerable"; "toString"; "valueOf"; "__proto__"; "toLocaleString"].

(** [usageMap[k] ??= 0; usageMap[k]++].  What an inherited key holds is not
    nullish, so it is not set to 0, and its increment is [NaN]. *)
Definition use (usageMap : gmap string Usage) (k : string) : gmap string Usage :=
  match usageMap !! k with
  | Some (Times n) => <[k := Times (S n)]> usageMap
  | Some NoNumber => usageMap
  | None => if inherited k then <[k := NoNumber]> usageMap else <[k := Times 1]> usageMap
  end.

(** [getAssetsUsageMap(recordings)]. *)
Definition getAssetsUsageMap (recordings : list LocalRecording) : gmap string Usage :=
  fold_left (fun usageMap recording =>
    fold_left (fun usageMap sourceMap =>
      fold_left (fun usageMap originalSource => use usageMap (source_path originalSource))
        (originalSources sourceMap)
        (use usageMap (sourceMap_path sourceMap)))
      (sourceMaps recording) usageMap)
    recordings ∅.

(** [assetsUsageMap[k] === 1]. *)
Definition used_once (assetsUsageMap : gmap string Usage) (k : string) : bool :=
  match assetsUsageMap !! k with
  | Some (Times 1) => true
  | _ => false
  end.

(** [removeSync(file)] of [fs-extra], for a file: no error without it. *)
Definition removeSync (file : string) : M unit :=
  d ← get_disk; put_disk (delete file d).

(** [/(recording|sourcemap|original)-/.test(fileName)]. *)
Definition is_asset_name (fileName : string) : bool :=
  includes "recording-" fileName || includes "sourcemap-" fileName
  || includes "original-" fileName.

(** [v !== id] for an optional text [v]. *)
Definition differs (v : option string) (id : string) : bool :=
  match v with
  | Some s => negb (String.eqb s id)
  | None => true
  end.

(** The filter of the log entries. *)
Definition keeps (id : string) (entry : LogEntry) : bool :=
  match kind entry with
  | originalSourceAdded | sourcemapAdded => differs (recordingId entry) id
  | otherKind _ => differs (entry_id entry) id
  end.

Section RemoveFromDisk.
Context `{RT : JSRuntime}.
(** [./config], [./getRecordings] and [./readRecordingLog], and
    [JSON.stringify] of a log entry. *)
Context (recordingLogPath recordingsPath : string).
Context (getRecordings : M (list LocalRecording)).
Context (readRecordingLog : M (list LogEntry)).
Context (readdirSync : string -> M (list string)).
Context (stringify : LogEntry -> string).

(** [removeFromDisk(id)]. *)
Definition removeFromDisk (id : option string) : M unit :=
  match id with
  | Some (String _ _ as id) =>
      recordings ← getRecordings;
      match List.find (fun recording => starts_with id (Replayio.id recording)) recordings with
      | Some recording =>
          let assetsUsageMap := getAssetsUsageMap recordings in
          _ ← forEach (fun sourceMap =>
                 _ ← (if used_once assetsUsageMap (sourceMap_path sourceMap) then
                        _ ← removeSync (sourceMap_path sourceMap);
                        removeSync (replace_map_suffix (sourceMap_path sourceMap))
                      else skip);
                 forEach (fun source =>
                            if used_once assetsUsageMap (source_path source)
                            then removeSync (source_path source) else skip)
                   (originalSources sourceMap))
               (sourceMaps recording);
          _ ← match path recording with
              | Some (String _ _ as file) => removeSync file
              | _ => skip
              end;
          log ← readRecordingLog;
          writeFileSync recordingLogPath
            (join_lines (List.map stringify (List.filter (keeps id) log)))
      | None => skip
      end
  | _ =>
      files ← readdirSync recordingsPath;
      _ ← forEach (fun fileName =>
                     if is_asset_name fileName
                     then removeSync (path_join recordingsPath fileName) else skip)
            files;
      removeSync recordingLogPath
  end.
End RemoveFromDisk.

End Replayio.

(** The asset paths the recordings name, one for each time they name it. *)
Definition asset_paths (recordings : list Replayio.LocalRecording) : list string :=
  flat_map (fun recording =>
    flat_map (fun sourceMap =>
      Replayio.sourceMap_path sourceMap
      :: List.map Replayio.source_path (Replayio.originalSources sourceMap))
      (Replayio.sourceMaps recording))
    recordings.

(** How many times [k] is in [l]. *)
Definition times_in (k : string) (l : list string) : nat :=
  List.length (List.filter (String.eqb k) l).

(** Nothing is called, and a file is changed only if [gone] holds of it. *)
Definition spares (gone : string -> Prop) (w w' : World) : Prop :=
  history w' = history w /\
  forall file, ~ gone file -> disk w' !! file = disk w !! file.

(** Two recordings that name the same source map, and their files. *)
Definition shared_sourceMap : Replayio.SourceMap :=
  {| Replayio.sourceMap_path := "/r/sourcemap-1.map";
     Replayio.originalSources := [{| Replayio.source_path := "/r/original-1" |}] |}.

Definition sharing_A : Replayio.LocalRecording :=
  {| Replayio.id := "A-1"; Replayio.path := Some "/r/recording-A";
     Replayio.sourceMaps := [shared_sourceMap] |}.

Definition sharing_B : Replayio.LocalRecording :=
  {| Replayio.id := "B-1"; Replayio.path := Some "/r/recording-B";
     Replayio.sourceMaps :=
       [shared_sourceMap;
        {| Replayio.sourceMap_path := "/r/sourcemap-2.map";
           Replayio.originalSources := [] |}] |}.

Definition sharing_recordings : list Replayio.LocalRecording := [sharing_A; sharing_B].

Definition sharing_world : World :=
  {| disk := {[ "/r/recording-A" := "a"; "/r/recording-B" := "b";
                "/r/sourcemap-1.map" := "m1"; "/r/sourcemap-1.lookup" := "l1";
                "/r/original-1" := "o1";
                "/r/sourcemap-2.map" := "m2"; "/r/sourcemap-2.lookup" := "l2";
                "/r/recordings.log" := "" ]};
     history := []; pools := [] |}.

(** ** [main.ts]: processing and viewing *)

(** [try { body } finally { last }]: [last] runs whatever [body] did, and
    what [last] throws replaces the outcome of [body]. *)
Definition try_finally {A} (body : M A) (last : M unit) : M A := fun w =>
  match body w with
  | (r, w') =>
      match last w' with
      | (Ok _, w'') => (r, w'')
      | (Throw e, w'') => (Throw e, w'')
      end
  end.

Section Viewing.
Context `{RT : JSRuntime} `{HP : Helpers} `{AR : AuthRuntime} (env : Environment).
(** [client.connectionWaitForProcessed], [spawn] of [child_process] and
    [openExecutable] of [./utils]. *)
Context (connectionWaitForProcessed : value -> M value).
Context (spawn : string -> list string -> M unit).
Context (openExecutable : M string).

(** [processUploadedRecording(recordingId, opts)].  [Some b] is what the
    [try] block returns, [None] when it runs to its end. *)
Definition processUploadedRecording (recordingId : value) (opts : Options) : M bool :=
  let srv := getServer env opts in
  key ← (if negb (truthy (apiKey opts)) then readToken env (directory opts)
         else mret (apiKey opts));
  connected ← call env (InitConnection srv key);
  if negb (truthy connected) then mret false
  else
    returned ← try_finally
                 (error ← connectionWaitForProcessed recordingId;
                  mret (if truthy error then Some false else None))
                 (_ ← call env CloseConnection; skip);
    mret (match returned with
          | Some b => b
          | None => true
          end).

(** [processRecording(id, opts)]. *)
Definition processRecording (rid : string) (opts : Options) : M value :=
  recordingId ← uploadRecording env rid opts;
  if negb (truthy recordingId) then mret (Some JNull)
  else
    succeeded ← processUploadedRecording recordingId opts;
    mret (if (succeeded : bool) then recordingId else Some JNull).

(** The end of [doViewRecording]: the page of the recording is opened. *)
Definition openRecording (recordingId server : value) (viewServer : option string)
  : M bool :=
  let devtools :=
    match viewServer with
    | Some s => s
    | None => "https://app.replay.io"
    end in
  let dispatch :=
    if negb (looseEq server (str "wss://dispatch.replay.io"))
    then "&dispatch=" +:+ ToString server else "" in
  executable ← openExecutable;
  _ ← spawn executable [devtools +:+ "?id=" +:+ ToString recordingId +:+ dispatch];
  mret true.

(** [doViewRecording(dir, server, recording, verbose, apiKey, agent,
    viewServer)]. *)
Definition doViewRecording (dir srv : string) (recording : RecordingEntry)
  (key : value) (viewServer : option string) : M bool :=
  if Status_eqb (status recording) crashUploaded then mret true
  else if Status_eqb (status recording) uploaded then
    openRecording (recordingId recording) (server recording) viewServer
  else
    recordingId ← doUploadRecording env dir srv recording key true;
    if negb (truthy recordingId) then mret false
    else if Status_eqb (status recording) crashed then mret true
    else openRecording recordingId (str srv) viewServer.

(** [viewRecording(id, opts)]: no [viewServer] is passed on. *)
Definition viewRecording (rid : string) (opts : Options) : M bool :=
  let srv := getServer env opts in
  let dir := getDirectory (directory opts) in
  recordings ← readRecordings dir false;
  match List.find (fun r => looseEq (id r) (str rid)) recordings with
  | None => mret false
  | Some recording => doViewRecording dir srv recording (apiKey opts) None
  end.

(** [viewLatestRecording(opts)], with [opts.viewServer] beside [opts]. *)
Definition viewLatestRecording (opts : Options) (viewServer : option string) : M bool :=
  let srv := getServer env opts in
  let dir := getDirectory (directory opts) in
  recordings ← readRecordings dir false;
  match List.last (List.map Some recordings) None with
  | None => mret false
  | Some recording => doViewRecording dir srv recording (apiKey opts) viewServer
  end.
End Viewing.

(** A runtime for tokens whose payload is written in clear. *)
Definition clear_tokens : AuthRuntime :=
  {| base64_text := fun s => s; ToNumber := fun _ => None |}.

(** A wait for the processing that is cut off. *)
Definition processing_cut_off (recordingId : value) : M value :=
  throw (Rejection (str "socket closed")).

(** ** [ReplayReporter] of [test-utils]: the summary of a run *)

Module Reporter.

(** The fields of a [Test] the summary reads; a duration is a number, for
    which [t.approximateDuration || 0] is the number itself. *)
Record Test : Type := {
  id : Z;
  attempt : Z;
  approximateDuration : Z;
  result : string
}.

Record ResultCounts : Type := {
  failed : Z;
  passed : Z;
  skipped : Z;
  timedOut : Z;
  unknown : Z
}.

(** [getResultFromResultCounts(resultCounts)]. *)
Definition getResultFromResultCounts (resultCounts : ResultCounts) : string :=
  if 0 <? failed resultCounts then "failed"
  else if 0 <? timedOut resultCounts then "timedOut"
  else if 0 <? passed resultCounts then "passed"
  else if 0 <? skipped resultCounts then "skipped"
  else "unknown".

(** [testsById]: the keys with their values, in the order in which the
    keys were first set. *)
Definition lookup (k : Z) (testsById : list (Z * Test)) : option Test :=
  option_map snd (List.find (fun e => fst e =? k) testsById).

(** [testsById[k] = test]: a key that is there keeps its place. *)
Fixpoint set (k : Z) (test : Test) (testsById : list (Z * Test)) : list (Z * Test) :=
  match testsById with
  | [] => [(k, test)]
  | (k', old) :: rest =>
      if k' =? k then (k, test) :: rest else (k', old) :: set k test rest
  end.

(** A key that is an array index. *)
Definition is_index (k : Z) : bool := (0 <=? k) && (k <? 4294967295).

Fixpoint insert_by_key (e : Z * Test) (sorted : list (Z * Test)) : list (Z * Test) :=
  match sorted with
  | [] => [e]
  | e' :: rest => if fst e <? fst e' then e :: sorted else e' :: insert_by_key e rest
  end.

(** [Object.values(testsById)]: the values of the keys that are array
    indices in ascending order, then those of the other keys in the order
    in which they were set. *)
Definition Object_values (testsById : list (Z * Test)) : list Test :=
  List.map snd
    (fold_right insert_by_key [] (List.filter (fun e => is_index (fst e)) testsById)
     ++ List.filter (fun e => negb (is_index (fst e))) testsById).

(** The [switch] on [t.result]. *)
Definition count (resultCounts : ResultCounts) (result : string) : ResultCounts :=
  let '{| failed := f; passed := p; skipped := s; timedOut := t; unknown := u |} :=
    resultCounts in
  if String.eqb result "failed" then
    {| failed := f + 1; passed := p; skipped := s; timedOut := t; unknown := u |}
  else if String.eqb result "passed" then
    {| failed := f; passed := p + 1; skipped := s; timedOut := t; unknown := u |}
  else if String.eqb result "skipped" then
    {| failed := f; passed := p; skipped := s + 1; timedOut := t; unknown := u |}
  else if String.eqb result "timedOut" then
    {| failed := f; passed := p; skipped := s; timedOut := t + 1; unknown := u |}
  else
    {| failed := f; passed := p; skipped := s; timedOut := t; unknown := u + 1 |}.

(** The first [forEach] of [summarizeResults]. *)
Definition keep_latest (testsById : list (Z * Test)) (test : Test) : list (Z * Test) :=
  match lookup (id test) testsById with
  | None => set (id test) test testsById
  | Some old =>
      if attempt old <? attempt test then set (id test) test testsById else testsById
  end.

(** [summarizeResults(tests)]: [{ approximateDuration, resultCounts }]. *)
Definition summarizeResults (tests : list Test) : Z * ResultCounts :=
  let testsById := fold_left keep_latest tests [] in
  fold_left
    (fun '(duration, resultCounts) t =>
       (duration + approximateDuration t, count resultCounts (result t)))
    (Object_values testsById)
    (0, {| failed := 0; passed := 0; skipped := 0; timedOut := 0; unknown := 0 |}).

End Reporter.

(** [t] is the attempt of its test that the summary counts: the first one
    in [tests] with the greatest attempt number among those of its id. *)
Definition last_attempt (tests : list Reporter.Test) (t : Reporter.Test) : Prop :=
  exists before after,
    tests = before ++ t :: after /\
    (forall u, In u before -> Reporter.id u = Reporter.id t ->
       Reporter.attempt u < Reporter.attempt t) /\
    (forall u, In u after -> Reporter.id u = Reporter.id t ->
       Reporter.attempt u <= Reporter.attempt t).

(** Some counted attempt has the result [r]. *)
Definition some_last_attempt (tests : list Reporter.Test) (r : string) : Prop :=
  exists t, last_attempt tests t /\ Reporter.result t = r.

(** * Properties of the registry fold *)

Section RegistryFacts.
Context `{RT : JSRuntime}.

Lemma foldLines_app (l1 l2 : list string) (rs : list RecordingEntry) :
  foldLines (l1 ++ l2) rs = bind_result (foldLines l1 rs) (foldLines l2).
Proof.
  revert rs. induction l1 as [|line l1 IH]; intros rs; simpl; [reflexivity|].
  destruct (processLine rs line) as [rs'|e]; simpl; [apply IH|reflexivity].
Qed.

(** A line that parses to an object with a [kind] goes through the
    [switch]. *)
Lemma processLine_kind (rs : list RecordingEntry) (line : string) (obj : JSON) (k : JSON) :
  JSON_parse line = Some obj -> prop obj "kind" = Some k ->
  processLine rs line = Ok (applyKind rs obj).
Proof.
  intros Hp Hk. unfold processLine. rewrite Hp.
  destruct obj; try reflexivity. discriminate Hk.
Qed.

(** What [updateStatus] does, status by status. *)
Lemma updateStatus_status (r : RecordingEntry) (s : Status) :
  status (updateStatus r s) =
  match status r with
  | unusable => unusable
  | crashUploaded => crashUploaded
  | crashed => match s with crashUploaded => crashUploaded | _ => crashed end
  | _ => s
  end.
Proof. unfold updateStatus. destruct (status r) eqn:E, s; simpl; rewrite ?E; reflexivity. Qed.

End RegistryFacts.

Lemma may_follow_refl (s : Status) : may_follow s s.
Proof. destruct s; simpl; auto. Qed.

Lemma may_follow_trans (a b c : Status) :
  may_follow a b -> may_follow b c -> may_follow a c.
Proof. destruct a; simpl; auto; intros H; [subst b| destruct H; subst b | subst b]; simpl; auto. Qed.

Lemma same_recording_refl (r : RecordingEntry) : same_recording r r.
Proof. split; [reflexivity|apply may_follow_refl]. Qed.

Lemma same_recording_fields (r r' : RecordingEntry) :
  id r' = id r -> status r' = status r -> same_recording r r'.
Proof. intros H1 H2. split; [assumption|rewrite H2; apply may_follow_refl]. Qed.

Lemma same_recording_trans (a b c : RecordingEntry) :
  same_recording a b -> same_recording b c -> same_recording a c.
Proof.
  intros [H1 H2] [H3 H4]. split; [congruence|eapply may_follow_trans; eassumption].
Qed.

Lemma same_recording_updateStatus (r : RecordingEntry) (s : Status) :
  same_recording r (updateStatus r s).
Proof.
  split.
  - unfold updateStatus. destruct (_ || _); reflexivity.
  - unfold updateStatus. destruct (status r) eqn:E, s; simpl; rewrite ?E; simpl; auto.
Qed.

Lemma update_first_lookup {A} (P : A -> A -> Prop) (p : A -> bool) (f : A -> A)
  (l : list A) (i : nat) (x : A) :
  (forall a, P a a) -> (forall a, P a (f a)) ->
  l !! i = Some x -> exists y, update_first p f l !! i = Some y /\ P x y.
Proof.
  intros Hrefl Hf. revert i. induction l as [|a l IH]; intros i Hi; [discriminate|].
  simpl. destruct (p a).
  - destruct i as [|i]; simpl in *.
    + injection Hi as ->. eauto.
    + eauto.
  - destruct i as [|i]; simpl in *.
    + injection Hi as ->. eauto.
    + apply IH, Hi.
Qed.

Section Monotonicity.
Context `{RT : JSRuntime}.

Lemma same_recording_addMetadata (md : value) (r : RecordingEntry) :
  same_recording r (addMetadata md r).
Proof. unfold addMetadata. destruct (truthy _); apply same_recording_fields; reflexivity. Qed.

Lemma same_recording_push_crashData (d : value) (r : RecordingEntry) :
  same_recording r (push_crashData d r).
Proof.
  unfold push_crashData. destruct (crashData r); apply same_recording_fields; reflexivity.
Qed.

(** The [switch] never removes or reorders an entry, and changes the
    status of one only through [updateStatus]. *)
Lemma applyKind_lookup (rs : list RecordingEntry) (obj : JSON) (i : nat)
  (r : RecordingEntry) :
  rs !! i = Some r ->
  exists r', applyKind rs obj !! i = Some r' /\ same_recording r r'.
Proof.
  intros Hi. unfold applyKind.
  assert (Hkeep : exists r', rs !! i = Some r' /\ same_recording r r')
    by (exists r; split; [assumption|apply same_recording_refl]).
  assert (Hst : forall (f : RecordingEntry -> RecordingEntry) s a,
             (forall x, id (f x) = id x) -> (forall x, status (f x) = status x) ->
             same_recording a (f (updateStatus a s))).
  { intros f s a Hid Hs. destruct (same_recording_updateStatus a s) as [H1 H2].
    split; [rewrite Hid; exact H1|rewrite Hs; exact H2]. }
  destruct (prop obj "kind") as [[| | |kind| |]|]; try exact Hkeep.
  repeat match goal with
         | |- context [if String.eqb kind ?k then _ else _] =>
             destruct (String.eqb kind k)
         end;
    try exact Hkeep;
    try (apply (update_first_lookup same_recording); auto using same_recording_refl,
           same_recording_updateStatus, same_recording_addMetadata,
           same_recording_push_crashData;
         intros a;
         first [ apply (Hst (set_path _)); reflexivity
               | apply (Hst (set_upload _ _)); reflexivity
               | apply (Hst (set_unusableReason _)); reflexivity
               | apply same_recording_fields; reflexivity ]).
  exists r. split; [|apply same_recording_refl].
  rewrite lookup_app_l; [assumption|]. eapply lookup_lt_Some; eassumption.
Qed.

Lemma processLine_lookup (rs rs' : list RecordingEntry) (line : string) (i : nat)
  (r : RecordingEntry) :
  processLine rs line = Ok rs' -> rs !! i = Some r ->
  exists r', rs' !! i = Some r' /\ same_recording r r'.
Proof.
  unfold processLine. intros H Hi.
  destruct (JSON_parse line) as [obj|].
  - destruct obj; try discriminate H; injection H as <-; apply applyKind_lookup, Hi.
  - injection H as <-. exists r. split; [assumption|apply same_recording_refl].
Qed.

Lemma foldLines_lookup (lines : list string) (rs rs' : list RecordingEntry) (i : nat)
  (r : RecordingEntry) :
  foldLines lines rs = Ok rs' -> rs !! i = Some r ->
  exists r', rs' !! i = Some r' /\ same_recording r r'.
Proof.
  revert rs r. induction lines as [|line lines IH]; intros rs r H Hi; simpl in H.
  - injection H as <-. exists r. split; [assumption|apply same_recording_refl].
  - destruct (processLine rs line) as [rs1|e] eqn:E; simpl in H; [|discriminate].
    destruct (processLine_lookup _ _ _ _ _ E Hi) as (r1 & H1 & S1).
    destruct (IH _ _ H H1) as (r' & H' & S').
    exists r'. split; [assumption|eapply same_recording_trans; eassumption].
Qed.
End Monotonicity.

(** C1, as stated, fails: on [rewinding_log] the only recording shows
    [onDisk] after two events and [startedWrite] after the third, which is a
    step down in the order. *)
Lemma status_can_step_down :
  exists r r',
    foldLines (RT := Reference.js) (take 2 rewinding_log) [] = Ok [r] /\
    foldLines (RT := Reference.js) rewinding_log [] = Ok [r'] /\
    id r' = id r /\
    status r = onDisk /\ status r' = startedWrite /\
    chain_leb (status r) (status r') = false.
Proof. vm_compute. do 2 eexists. repeat split; reflexivity. Qed.

Lemma update_first_found {A} (p : A -> bool) (f : A -> A) (l : list A) (i : nat) (x : A) :
  l !! i = Some x -> p x = true ->
  (forall j y, (j < i)%nat -> l !! j = Some y -> p y = false) ->
  update_first p f l !! i = Some (f x).
Proof.
  revert i. induction l as [|a l IH]; intros i Hi Hp Hfirst; [discriminate|].
  destruct i as [|i]; cbn [update_first].
  - injection Hi as ->. rewrite Hp. reflexivity.
  - rewrite (Hfirst 0%nat a) by (lia || reflexivity). cbn.
    apply IH; [exact Hi|exact Hp|]. intros j y Hj Hy. apply (Hfirst (S j) y); [lia|exact Hy].
Qed.

(** A status event applied to a registry: the entry [find] finds shows the
    status the event names, unless the status it had is one that stays. *)
Lemma applyKind_status `{RT : JSRuntime} (rs : list RecordingEntry) (obj : JSON)
  (kind : string) (named : Status) (i : nat) (r : RecordingEntry) :
  prop obj "kind" = str kind -> status_of_kind kind = Some named ->
  rs !! i = Some r -> found_at rs (prop obj "id") i ->
  exists r', applyKind rs obj !! i = Some r' /\
             status r' = status_after (status r) named.
Proof.
  intros Hkind Hnamed Hi [[r0 [Hr0 Hp]] Hfirst].
  rewrite Hi in Hr0. injection Hr0 as <-.
  assert (Hupd : forall f : RecordingEntry -> RecordingEntry,
             (forall x, status (f x) = status (updateStatus x named)) ->
             exists r',
               update_first (fun r => looseEq (id r) (prop obj "id")) f rs !! i = Some r' /\
               status r' = status_after (status r) named).
  { intros f Hf. exists (f r). split.
    - apply update_first_found; assumption.
    - rewrite Hf. apply updateStatus_status. }
  unfold status_of_kind in Hnamed. unfold applyKind. rewrite Hkind.
  repeat match type of Hnamed with
         | (if String.eqb kind ?k then _ else _) = _ =>
             destruct (String.eqb_spec kind k) as [->|_];
             [injection Hnamed as <-; cbn; apply Hupd; intros x; reflexivity|]
         end.
  discriminate Hnamed.
Qed.

(** C1 (amended): along the fold a recording keeps its place and its id;
    once its status is [unusable] or [crashUploaded] no later line changes
    it, and once it is [crashed] a later line can only turn it into
    [crashUploaded].  Among the other statuses no order is kept: when the
    next line is a status event and the recording is the one its [id]
    finds, the recording shows the status the kind of the event names,
    whatever the one it showed; from [crashed] only a [crashUploaded] event
    moves it. *)
Theorem status_absorbing `{RT : JSRuntime} (lines : list string)
  (rs rs' : list RecordingEntry) (i : nat) (r : RecordingEntry) :
  foldLines lines rs = Ok rs' -> rs !! i = Some r ->
  exists r',
    rs' !! i = Some r' /\ id r' = id r /\
    (status r = unusable -> status r' = unusable) /\
    (status r = crashUploaded -> status r' = crashUploaded) /\
    (status r = crashed -> status r' = crashed \/ status r' = crashUploaded) /\
    (forall line obj kind named,
       JSON_parse line = Some obj -> prop obj "kind" = str kind ->
       status_of_kind kind = Some named ->
       found_at rs' (prop obj "id") i ->
       exists rs'' r'',
         foldLines (lines ++ [line]) rs = Ok rs'' /\ rs'' !! i = Some r'' /\
         id r'' = id r /\
         status r'' = status_after (status r') named).
Proof.
  intros H Hi. destruct (foldLines_lookup _ _ _ _ _ H Hi) as (r' & H' & Hid & Hs).
  exists r'. repeat split; try assumption.
  - intros E. rewrite E in Hs. exact Hs.
  - intros E. rewrite E in Hs. exact Hs.
  - intros E. rewrite E in Hs. exact Hs.
  - intros line obj kind named Hparse Hkind Hnamed Hfound.
    destruct (applyKind_status rs' obj kind named i r' Hkind Hnamed H' Hfound)
      as (r'' & Hr'' & Hst).
    exists (applyKind rs' obj), r''. split; [|split; [exact Hr''|split; [|exact Hst]]].
    + rewrite foldLines_app, H. cbn [bind_result foldLines].
      rewrite (processLine_kind rs' line obj (JStr kind) Hparse Hkind). reflexivity.
    + destruct (applyKind_lookup rs' obj i r' H') as (r1 & Hr1 & Hid1 & _).
      rewrite Hr'' in Hr1. injection Hr1 as <-. congruence.
Qed.

Lemma status_absorbing_witness :
  exists rs' r',
    foldLines (RT := Reference.js) after_crash_log [crashed_recording] = Ok rs' /\
    rs' !! 0%nat = Some r' /\ id r' = str "A" /\
    (status r' = crashed \/ status r' = crashUploaded).
Proof.
  destruct (foldLines (RT := Reference.js) after_crash_log [crashed_recording])
    as [rs'|e] eqn:E; [|vm_compute in E; discriminate E].
  destruct (status_absorbing (RT := Reference.js) after_crash_log [crashed_recording]
              rs' 0%nat crashed_recording E eq_refl)
    as (r' & H1 & H2 & _ & _ & H3 & _).
  exists rs', r'. repeat split; [assumption|assumption|apply H3; reflexivity].
Defined.

(** C6: a line that [JSON.parse] rejects leaves the fold where it is, so a
    log reads the same with the line and without it, and the line never
    makes the read throw. *)
Theorem invalid_line_is_skipped `{RT : JSRuntime} (before after : list string)
  (bad : string) (includeHidden : bool) :
  JSON_parse bad = None ->
  (forall rs, processLine rs bad = Ok rs) /\
  readRecordingsOf (before ++ bad :: after) includeHidden
  = readRecordingsOf (before ++ after) includeHidden.
Proof.
  intros Hbad.
  assert (Hskip : forall rs, processLine rs bad = Ok rs)
    by (intros rs; unfold processLine; rewrite Hbad; reflexivity).
  split; [exact Hskip|].
  unfold readRecordingsOf. rewrite !foldLines_app.
  destruct (foldLines before []) as [rs|e]; simpl; [|reflexivity].
  rewrite Hskip. reflexivity.
Qed.

Lemma invalid_line_is_skipped_witness :
  JSON_parse (JSRuntime := Reference.js) "{ kind: " = None /\
  readRecordingsOf (RT := Reference.js) (torn_log_before ++ "{ kind: " :: torn_log_after) false
  = readRecordingsOf (RT := Reference.js) (torn_log_before ++ torn_log_after) false.
Proof.
  split; [reflexivity|].
  apply (invalid_line_is_skipped (RT := Reference.js) torn_log_before torn_log_after
           "{ kind: " false).
  reflexivity.
Defined.

(** ** The transition table, kind by kind *)

Section Table.
Context `{RT : JSRuntime}.
Implicit Types (rs : list RecordingEntry) (obj : JSON).

Lemma applyKind_createRecording rs obj :
  prop obj "kind" = str "createRecording" ->
  applyKind rs obj = rs ++ [createRecording_entry obj].
Proof. intros H. unfold applyKind. rewrite H. reflexivity. Qed.

Lemma applyKind_writeStarted rs obj :
  prop obj "kind" = str "writeStarted" ->
  applyKind rs obj
  = on_id rs obj (fun r => set_path (prop obj "path") (updateStatus r startedWrite)).
Proof. intros H. unfold applyKind. rewrite H. reflexivity. Qed.

Lemma applyKind_writeFinished rs obj :
  prop obj "kind" = str "writeFinished" ->
  applyKind rs obj = on_id rs obj (fun r => updateStatus r onDisk).
Proof. intros H. unfold applyKind. rewrite H. reflexivity. Qed.

Lemma applyKind_uploadStarted rs obj :
  prop obj "kind" = str "uploadStarted" ->
  applyKind rs obj
  = on_id rs obj (fun r => set_upload (prop obj "server") (prop obj "recordingId")
                             (updateStatus r startedUpload)).
Proof. intros H. unfold applyKind. rewrite H. reflexivity. Qed.

Lemma applyKind_uploadFinished rs obj :
  prop obj "kind" = str "uploadFinished" ->
  applyKind rs obj = on_id rs obj (fun r => updateStatus r uploaded).
Proof. intros H. unfold applyKind. rewrite H. reflexivity. Qed.

Lemma on_id_singleton (r : RecordingEntry) obj f (A : string) :
  id r = str A -> prop obj "id" = str A -> on_id [r] obj f = [f r].
Proof.
  intros H1 H2. unfold on_id. cbn [update_first]. rewrite H1, H2, looseEq_str, String.eqb_refl.
  reflexivity.
Qed.

Lemma getBuildRuntime_chromium : getBuildRuntime (str "2023-chromium-x") = "chromium".
Proof. unfold getBuildRuntime. rewrite ToString_str. reflexivity. Qed.
End Table.

Lemma capture_group_plain (b rest : string) :
  plain b = true -> capture_group (b +:+ String "-" rest) = Some b.
Proof.
  induction b as [|c b IH]; simpl; [reflexivity|].
  unfold plain_char. intros H. apply andb_true_iff in H as [Hc Hb].
  apply andb_true_iff in Hc as [Hd Ht].
  apply negb_true_iff in Hd, Ht. rewrite Hd, Ht, (IH Hb). reflexivity.
Qed.

Lemma match_here_plain (a rest : string) (g : string) :
  plain a = true -> capture_group rest = Some g ->
  match_here (a +:+ String "-" rest) = Some g.
Proof.
  intros Ha Hg. induction a as [|c a IH]; simpl.
  - rewrite Hg. reflexivity.
  - simpl in Ha. unfold plain_char in Ha. apply andb_true_iff in Ha as [Hc Ha].
    apply andb_true_iff in Hc as [Hd Ht].
    apply negb_true_iff in Hd, Ht. rewrite Hd, Ht. apply IH, Ha.
Qed.

(** When no dash and no line terminator comes before the first dash or
    between the first and the second, the pattern captures the text
    between the two. *)
Lemma regexp_exec_between_dashes (a b c : string) :
  plain a = true -> plain b = true ->
  regexp_exec (a +:+ String "-" (b +:+ String "-" c)) = Some b.
Proof.
  intros Ha Hb.
  assert (H : match_here (a +:+ String "-" (b +:+ String "-" c)) = Some b)
    by (apply match_here_plain; [assumption|apply capture_group_plain, Hb]).
  destruct a; simpl in *; rewrite H; reflexivity.
Qed.

(** C7: the five events of one upload, read from any five lines that parse
    to them, give one recording: [uploaded], remote id [R1], runtime
    [chromium]; the runtime of a build id is the text between its first and
    its second dash. *)
Theorem upload_scenario `{RT : JSRuntime} (A srv : string) (l1 l2 l3 l4 l5 : string)
  (o1 o2 o3 o4 o5 : JSON) :
  JSON_parse l1 = Some o1 -> JSON_parse l2 = Some o2 -> JSON_parse l3 = Some o3 ->
  JSON_parse l4 = Some o4 -> JSON_parse l5 = Some o5 ->
  prop o1 "kind" = str "createRecording" -> prop o1 "id" = str A ->
  prop o1 "buildId" = str "2023-chromium-x" ->
  prop o2 "kind" = str "writeStarted" -> prop o2 "id" = str A ->
  prop o2 "path" = str "/tmp/a" ->
  prop o3 "kind" = str "writeFinished" -> prop o3 "id" = str A ->
  prop o4 "kind" = str "uploadStarted" -> prop o4 "id" = str A ->
  prop o4 "server" = str srv -> prop o4 "recordingId" = str "R1" ->
  prop o5 "kind" = str "uploadFinished" -> prop o5 "id" = str A ->
  (exists r,
     readRecordingsOf [l1; l2; l3; l4; l5] false = Ok [r] /\
     id r = str A /\ status r = uploaded /\ recordingId r = str "R1" /\
     runtime r = "chromium" /\ path r = str "/tmp/a" /\ server r = str srv) /\
  (forall a b c, plain a = true -> plain b = true ->
     getBuildRuntime (str (a +:+ String "-" (b +:+ String "-" c))) = b).
Proof.
  intros P1 P2 P3 P4 P5 K1 I1 B1 K2 I2 W2 K3 I3 K4 I4 S4 R4 K5 I5.
  split;
    [|intros a b c Ha Hb; unfold getBuildRuntime;
      rewrite ToString_str, regexp_exec_between_dashes by assumption; reflexivity].
  unfold readRecordingsOf, foldLines.
  rewrite (processLine_kind _ _ _ _ P1 K1). cbn [bind_result].
  rewrite (applyKind_createRecording _ _ K1). cbn [app].
  rewrite (processLine_kind _ _ _ _ P2 K2). cbn [bind_result].
  rewrite (applyKind_writeStarted _ _ K2), (on_id_singleton _ _ _ A) by assumption.
  rewrite (processLine_kind _ _ _ _ P3 K3). cbn [bind_result].
  rewrite (applyKind_writeFinished _ _ K3), (on_id_singleton _ _ _ A) by assumption.
  rewrite (processLine_kind _ _ _ _ P4 K4). cbn [bind_result].
  rewrite (applyKind_uploadStarted _ _ K4), (on_id_singleton _ _ _ A) by assumption.
  rewrite (processLine_kind _ _ _ _ P5 K5). cbn [bind_result].
  rewrite (applyKind_uploadFinished _ _ K5), (on_id_singleton _ _ _ A) by assumption.
  eexists. split; [reflexivity|].
  cbn. rewrite ?B1, ?W2, ?S4, ?R4, ?getBuildRuntime_chromium. repeat split; auto.
Qed.

Lemma upload_scenario_witness :
  exists r,
    readRecordingsOf (RT := Reference.js) scenario_log false = Ok [r] /\
    id r = str "A" /\ status r = uploaded /\ recordingId r = str "R1" /\
    runtime r = "chromium" /\ path r = str "/tmp/a" /\
    server r = str "wss://dispatch.replay.io".
Proof.
  refine (proj1 (upload_scenario (RT := Reference.js) "A" "wss://dispatch.replay.io"
            _ _ _ _ _
            (nth 0 scenario_events JNull) (nth 1 scenario_events JNull)
            (nth 2 scenario_events JNull) (nth 3 scenario_events JNull)
            (nth 4 scenario_events JNull)
            _ _ _ _ _ _ _ _ _ _ _ _ _ _ _ _ _ _ _));
    reflexivity.
Defined.

(** * Reading from disk *)

Section Reading.
Context `{RT : JSRuntime}.

Lemma readRecordingFile_spec (dir : string) (w : World) :
  readRecordingFile dir w = (Ok (log_lines dir (disk w)), w).
Proof.
  unfold readRecordingFile, log_lines, existsSync, readFileSync, get_disk.
  unfold mbind, M_bind, mret, M_ret.
  destruct (disk w !! getRecordingsFile dir) as [contents|] eqn:E.
  - rewrite bool_decide_eq_true_2 by eauto. simpl. rewrite E. reflexivity.
  - rewrite bool_decide_eq_false_2 by (intros [x Hx]; discriminate). reflexivity.
Qed.

Lemma readRecordings_spec (dir : string) (includeHidden : bool) (w : World) :
  readRecordings dir includeHidden w
  = (readRecordingsOf (log_lines dir (disk w)) includeHidden, w).
Proof.
  unfold readRecordings. unfold mbind, M_bind at 1.
  rewrite readRecordingFile_spec. reflexivity.
Qed.

Lemma writeRecordingFile_spec (dir : string) (lines : list string) (w : World) :
  writeRecordingFile dir lines w
  = (Ok tt, {| disk := <[getRecordingsFile dir :=
                           join_lines lines +:+ String "010"%char ""]> (disk w);
               history := history w; pools := pools w |}).
Proof. reflexivity. Qed.
End Reading.

(** C9: the reconstruction is a function of the lines of the log alone:
    reading leaves disk and call history as they were, and a second read
    gives the recordings (or the error) of the first. *)
Theorem fold_is_deterministic `{RT : JSRuntime} (dir : string) (includeHidden : bool)
  (w : World) :
  snd (readRecordings dir includeHidden w) = w /\
  fst (readRecordings dir includeHidden (snd (readRecordings dir includeHidden w)))
  = fst (readRecordings dir includeHidden w) /\
  fst (readRecordings dir includeHidden w)
  = readRecordingsOf (log_lines dir (disk w)) includeHidden.
Proof. rewrite !readRecordings_spec. simpl. rewrite ?readRecordings_spec. auto. Qed.

(** * What a computation leaves of the world *)

Section Stays.
Context (P : World -> World -> Prop).
Context (P_refl : forall w, P w w) (P_trans : forall a b c, P a b -> P b c -> P a c).

Lemma stays_ret {A} (a : A) : stays P (mret a : M A).
Proof. intros w. apply P_refl. Qed.

Lemma stays_throw {A} (e : Error) : stays P (throw e : M A).
Proof. intros w. apply P_refl. Qed.

Lemma stays_lift {A} (r : result A) : stays P (lift r).
Proof. intros w. apply P_refl. Qed.

Lemma stays_skip : stays P skip.
Proof. intros w. apply P_refl. Qed.

Lemma stays_get_disk : stays P get_disk.
Proof. intros w. apply P_refl. Qed.

Lemma stays_bind {A B} (m : M A) (k : A -> M B) :
  stays P m -> (forall a, stays P (k a)) -> stays P (m ≫= k).
Proof.
  intros Hm Hk w. unfold mbind, M_bind. specialize (Hm w).
  destruct (m w) as [[a|e] w']; simpl in *; [|exact Hm].
  eapply P_trans; [exact Hm|apply Hk].
Qed.

Lemma stays_try_catch {A} (m : M A) (h : Error -> M A) :
  stays P m -> (forall e, stays P (h e)) -> stays P (try_catch m h).
Proof.
  intros Hm Hh w. unfold try_catch. specialize (Hm w).
  destruct (m w) as [[a|e] w']; simpl in *; [exact Hm|].
  eapply P_trans; [exact Hm|apply Hh].
Qed.

Lemma stays_forEach {A} (f : A -> M unit) (items : list A) :
  (forall x, stays P (f x)) -> stays P (forEach f items).
Proof.
  intros Hf. induction items as [|x items IH]; simpl.
  - apply stays_ret.
  - apply stays_bind; [apply Hf|intros _; exact IH].
Qed.

Lemma stays_existsSync (file : string) : stays P (existsSync file).
Proof. apply stays_bind; [apply stays_get_disk|intros d; apply stays_ret]. Qed.

Lemma stays_readRecordings `{RT : JSRuntime} (dir : string) (h : bool) :
  stays P (readRecordings dir h).
Proof. intros w. rewrite readRecordings_spec. apply P_refl. Qed.

Lemma stays_listAllRecordings `{RT : JSRuntime} `{HP : Helpers} (opts : Options) :
  stays P (listAllRecordings opts).
Proof.
  unfold listAllRecordings. apply stays_bind; [apply stays_readRecordings|intros rs].
  destruct (all opts); (apply stays_bind; [apply stays_lift|intros; apply stays_ret]).
Qed.
End Stays.

Lemma only_deletes_refl (w : World) : only_deletes w w.
Proof. split; auto. Qed.

Lemma only_deletes_trans (a b c : World) :
  only_deletes a b -> only_deletes b c -> only_deletes a c.
Proof.
  intros [H1 H2] [H3 H4]. split; [congruence|]. intros file.
  destruct (H4 file) as [E|E]; [left; exact E|].
  destruct (H2 file) as [E'|E']; [left|right]; congruence.
Qed.

Section CleanupFacts.
Context `{RT : JSRuntime} `{HP : Helpers}.

Lemma unlinkSync_only_deletes (file : string) : stays only_deletes (unlinkSync file).
Proof.
  intros w. unfold unlinkSync, get_disk, put_disk, throw, mbind, M_bind. simpl.
  destruct (disk w !! file) eqn:E; simpl; [|apply only_deletes_refl].
  split; [reflexivity|]. intros f. simpl.
  destruct (decide (file = f)) as [->|Hne].
  - left. apply lookup_delete_eq.
  - right. apply lookup_delete_ne, Hne.
Qed.

Lemma maybeRemoveAssetFile_only_deletes (asset : value) :
  stays only_deletes (maybeRemoveAssetFile asset).
Proof.
  unfold maybeRemoveAssetFile.
  destruct (truthy asset); [|apply stays_skip, only_deletes_refl].
  destruct asset as [[]|]; try apply stays_skip, only_deletes_refl.
  apply stays_try_catch.
  - apply only_deletes_trans.
  - apply stays_bind.
    + apply only_deletes_trans.
    + apply stays_existsSync; [apply only_deletes_refl|apply only_deletes_trans].
    + intros []; [apply unlinkSync_only_deletes|apply stays_skip, only_deletes_refl].
  - intros e. apply stays_skip, only_deletes_refl.
Qed.

(** Cleaning the assets of a recording calls nobody and writes nothing. *)
Lemma removeRecordingAssets_only_deletes (recording : RecordingEntry) (opts : Options) :
  stays only_deletes (removeRecordingAssets recording opts).
Proof.
  unfold removeRecordingAssets.
  apply stays_bind; [apply only_deletes_trans| |intros localRecordings].
  { apply stays_listAllRecordings; [apply only_deletes_refl|apply only_deletes_trans]. }
  apply stays_bind; [apply only_deletes_trans| |intros others].
  { apply stays_lift, only_deletes_refl. }
  apply stays_bind; [apply only_deletes_trans| |intros assetFiles].
  { apply stays_lift, only_deletes_refl. }
  apply stays_forEach; [apply only_deletes_refl|apply only_deletes_trans|].
  intros file.
  destruct (negb _); [apply maybeRemoveAssetFile_only_deletes|].
  apply stays_skip, only_deletes_refl.
Qed.

(** A read that succeeds met no line that parses to [null]. *)
Lemma foldLines_no_null (lines : list string) (rs rs' : list RecordingEntry) (line : string) :
  foldLines lines rs = Ok rs' -> In line lines -> JSON_parse line <> Some JNull.
Proof.
  revert rs. induction lines as [|l lines IH]; intros rs H Hin; [destruct Hin|].
  simpl in H. destruct (processLine rs l) as [rs1|e] eqn:E; simpl in H; [|discriminate].
  destruct Hin as [->|Hin]; [|eapply IH; eassumption].
  unfold processLine in E. intros Hnull. rewrite Hnull in E. discriminate.
Qed.

Lemma readRecordingsOf_no_null (lines : list string) (h : bool) (rs : list RecordingEntry)
  (line : string) :
  readRecordingsOf lines h = Ok rs -> In line lines -> JSON_parse line <> Some JNull.
Proof.
  unfold readRecordingsOf. intros H.
  destruct (foldLines lines []) as [rs0|e] eqn:E; [|discriminate].
  eapply foldLines_no_null; eassumption.
Qed.

(** After files were only deleted, the log holds its old lines or none. *)
Lemma log_lines_only_deletes (dir : string) (w w' : World) :
  only_deletes w w' ->
  log_lines dir (disk w') = log_lines dir (disk w) \/ log_lines dir (disk w') = [].
Proof.
  intros [_ H]. unfold log_lines. destruct (H (getRecordingsFile dir)) as [E|E]; rewrite E; auto.
Qed.
End CleanupFacts.

(** * Removing a recording *)

(** C10, as stated, fails for an id the registry does not list:
    [removeRecording] returns [false] and rewrites nothing, so the log still
    holds its line that is no JSON. *)
Lemma unknown_id_rewrites_nothing :
  removeRecording (RT := Reference.js) (HP := Reference.helpers) "A"
    (directory_only "/r") littered_world
  = (Ok false, littered_world) /\
  In "not json" (log_lines (RT := Reference.js) "/r" (disk littered_world)) /\
  keepLine (RT := Reference.js) "A" "not json" = false.
Proof. vm_compute. split; [reflexivity|]. split; [|reflexivity]. right. left. reflexivity. Qed.

(** ** Two recordings that share a source map *)


(** * Uploading *)

Section MonadFacts.
Context (env : Environment).

Lemma bind_ok {A B} (m : M A) (k : A -> M B) (w w' : World) (a : A) :
  m w = (Ok a, w') -> (m ≫= k) w = k a w'.
Proof. intros H. unfold mbind, M_bind. rewrite H. reflexivity. Qed.

Lemma call_spec (c : Call) (w : World) :
  call env c w
  = (respond env (history w) c, {| disk := disk w; history := history w ++ [c];
                                   pools := pools w |}).
Proof. reflexivity. Qed.

(** Mapping calls over [items] with every rejection caught: each item is
    called, in order, whatever the answers. *)
Lemma settle_calls {A} (mk : A -> Call) (items : list A) (w : World) :
  exists bs es,
    pMap_settle (fun x => call env (mk x)) items w
    = (Ok (bs, es), {| disk := disk w; history := history w ++ List.map mk items;
                       pools := pools w |}) /\
    ((forall x h, exists v, respond env h (mk x) = Ok v) -> es = []).
Proof.
  revert w. induction items as [|x items IH]; intros w.
  - exists [], []. simpl. rewrite app_nil_r. destruct w. split; reflexivity.
  - destruct (IH {| disk := disk w; history := history w ++ [mk x]; pools := pools w |})
      as (bs & es & Hrun & Hok).
    simpl in Hrun. rewrite <- app_assoc in Hrun. simpl in Hrun.
    destruct (respond env (history w) (mk x)) as [v|e] eqn:E.
    + exists (v :: bs), es. split.
      * simpl. unfold mbind at 1, M_bind at 1, try_catch.
        unfold mbind at 1, M_bind at 1. rewrite call_spec, E. simpl.
        unfold mbind at 1, M_bind at 1. rewrite Hrun. reflexivity.
      * exact Hok.
    + exists bs, (e :: es). split.
      * simpl. unfold mbind at 1, M_bind at 1, try_catch.
        unfold mbind at 1, M_bind at 1. rewrite call_spec, E. simpl.
        unfold mbind at 1, M_bind at 1. rewrite Hrun. reflexivity.
      * intros Hall. destruct (Hall x (history w)) as [v Hv]. congruence.
Qed.
End MonadFacts.

Section UploadFacts.
Context `{RT : JSRuntime} `{HP : Helpers} (env : Environment).

Lemma addRecordingEvent_spec (dir kind : string) (rid : value)
  (tags : list (string * JSON)) (w : World) :
  addRecordingEvent env dir kind rid tags w
  = (Ok tt,
     {| disk :=
          <[getRecordingsFile dir :=
              join_lines
                (log_lines dir (disk w)
                 ++ [JSON_stringify
                       (JObj ([("kind", JStr kind)] ++ tag "id" rid
                              ++ [("timestamp", JNum (Date_now env (history w)))]
                              ++ tags))])
              +:+ String "010"%char ""]> (disk w);
        history := history w; pools := pools w |}).
Proof.
  unfold addRecordingEvent, now. unfold mbind at 1, M_bind at 1.
  unfold mbind at 1, M_bind at 1. rewrite readRecordingFile_spec.
  rewrite writeRecordingFile_spec. reflexivity.
Qed.

(** A crashed recording is never skipped. *)
Lemma uploadSkipReason_crashed (recording : RecordingEntry) :
  status recording = crashed -> uploadSkipReason recording = None.
Proof. intros H. unfold uploadSkipReason. rewrite H. simpl. rewrite andb_false_r. reflexivity. Qed.

Lemma apiKey_or_token_history (dir : string) (key : value) (w : World) :
  disk (snd (apiKey_or_token env dir key w)) = disk w /\
  List.filter is_transfer (history (snd (apiKey_or_token env dir key w)))
  = List.filter is_transfer (history w) /\
  List.filter is_reportCrash (history (snd (apiKey_or_token env dir key w)))
  = List.filter is_reportCrash (history w).
Proof.
  unfold apiKey_or_token. destruct (negb (truthy key)); simpl; [|auto].
  rewrite !List.filter_app. simpl. rewrite !app_nil_r. auto.
Qed.
End UploadFacts.

(** C4: for a recording whose status is [uploaded], the upload returns
    its remote id at once: nothing is called and the disk, the log with
    it, is left as it was.  (A recording marked [uploaded] that holds no
    remote id is refused with [null], equally without a call or a write.) *)
Theorem uploaded_short_circuit `{RT : JSRuntime} `{HP : Helpers} (env : Environment)
  (dir srv : string) (recording : RecordingEntry) (key : value) (removeAssets : bool)
  (w : World) :
  status recording = uploaded ->
  doUploadRecording env dir srv recording key removeAssets w
  = (Ok (if truthy (recordingId recording) then recordingId recording else Some JNull), w).
Proof.
  intros Hs. unfold doUploadRecording. rewrite Hs. simpl.
  destruct (truthy (recordingId recording)); [reflexivity|].
  unfold uploadSkipReason. rewrite Hs. reflexivity.
Qed.

Lemma uploaded_short_circuit_witness :
  doUploadRecording (RT := Reference.js) (HP := Reference.helpers) (Reference.accepting 9)
    "/r" "wss://dispatch.replay.io" uploaded_recording None true (shared_world [])
  = (Ok (str "R1"), shared_world []).
Proof.
  apply (uploaded_short_circuit (RT := Reference.js) (HP := Reference.helpers)
           (Reference.accepting 9) "/r" "wss://dispatch.replay.io" uploaded_recording
           None true (shared_world [])).
  reflexivity.
Defined.

Section CrashUpload.
Context `{RT : JSRuntime} `{HP : Helpers} (env : Environment).

(** What [doUploadCrash] leaves once connected, when every report and the
    closing of the connection resolve: the reports of the crash data and of
    the marker, in this order, then one [crashUploaded] line in the log. *)
Lemma doUploadCrash_connected (dir srv : string) (recording : RecordingEntry)
  (key : value) (w : World) (c : value) :
  respond env (history w) (InitConnection srv key) = Ok c -> truthy c = true ->
  (forall d h, exists v, respond env h (ReportCrash d) = Ok v) ->
  (forall h, exists v, respond env h CloseConnection = Ok v) ->
  let reports :=
    List.map ReportCrash
      (match crashData recording with Some l => l | None => [] end
       ++ [recordingMetadata_marker recording]) in
  doUploadCrash env dir srv recording key w
  = (Ok undefined,
     {| disk :=
          <[getRecordingsFile dir :=
              join_lines
                (log_lines dir (disk w)
                 ++ [JSON_stringify
                       (JObj ([("kind", JStr "crashUploaded")] ++ tag "id" (id recording)
                              ++ [("timestamp",
                                   JNum (Date_now env
                                           (history w ++ InitConnection srv key :: reports)))]
                              ++ [("server", JStr srv)]))])
              +:+ String "010"%char ""]> (disk w);
        history := history w ++ InitConnection srv key :: reports ++ [CloseConnection];
        pools := pools w |}).
Proof.
  intros Hc Ht Hreports Hclose reports.
  unfold doUploadCrash. unfold mbind at 1, M_bind at 1. rewrite call_spec, Hc, Ht.
  cbn [negb].
  destruct (settle_calls env ReportCrash
              (match crashData recording with Some l => l | None => [] end
               ++ [recordingMetadata_marker recording])
              {| disk := disk w; history := history w ++ [InitConnection srv key];
                 pools := pools w |})
    as (bs & es & Hrun & Hes).
  specialize (Hes Hreports). subst es.
  unfold mbind at 1, M_bind at 1. unfold Promise_all_map.
  unfold mbind at 1, M_bind at 1. rewrite Hrun. cbn [mret M_ret].
  unfold mbind at 1, M_bind at 1. rewrite addRecordingEvent_spec.
  unfold mbind at 1, M_bind at 1. rewrite call_spec.
  cbn [history disk]. fold reports.
  destruct (Hclose ((history w ++ [InitConnection srv key]) ++ reports)) as [v Hv].
  rewrite Hv. cbn [mret M_ret]. rewrite <- !app_assoc. reflexivity.
Qed.
(** Without a connection nothing is reported and the log is not touched. *)
Lemma doUploadCrash_not_connected (dir srv : string) (recording : RecordingEntry)
  (key : value) (w : World) (c : value) :
  respond env (history w) (InitConnection srv key) = Ok c -> truthy c = false ->
  doUploadCrash env dir srv recording key w
  = (Ok (Some JNull),
     {| disk := disk w; history := history w ++ [InitConnection srv key]; pools := pools w |}).
Proof.
  intros Hc Ht. unfold doUploadCrash. unfold mbind at 1, M_bind at 1.
  rewrite call_spec, Hc, Ht. reflexivity.
Qed.
End CrashUpload.

(** C3, as stated, fails: uploading [crashed_with_two_reports] to a
    service that accepts every call reports three crash entries, the two it
    holds and the [recordingMetadata] marker, not two. *)
Lemma crash_upload_reports_thrice :
  exists w',
    doUploadRecording (RT := Reference.js) (HP := Reference.helpers) (Reference.accepting 9)
      "/r" "wss://dispatch.replay.io" crashed_with_two_reports (str "key") false
      {| disk := ∅; history := []; pools := [] |}
    = (Ok (str "A"), w') /\
    List.filter is_reportCrash (history w')
    = [ ReportCrash (Some (JObj [("kind", JStr "stack")]));
        ReportCrash (Some (JObj [("kind", JStr "registers")]));
        ReportCrash (Some (JObj [("kind", JStr "recordingMetadata");
                                 ("recordingId", JStr "A")])) ] /\
    length (List.filter is_reportCrash (history w')) <> 2%nat.
Proof.
  vm_compute. eexists. split; [reflexivity|]. split; [reflexivity|]. discriminate.
Qed.

(** C3 (amended): for a recording with status [crashed] that holds two
    entries of crash data, once the connection is made and when every
    report and the closing resolve, the upload calls [reportCrash] three
    times, for the two entries and then for the [recordingMetadata] marker
    naming the recording, then appends one [crashUploaded] line to the log
    and closes the connection; it calls nothing that opens an upload or
    moves bytes, and writes no other line: whatever else it does to the disk
    is the removal of asset files. *)
Theorem crash_upload `{RT : JSRuntime} `{HP : Helpers} (env : Environment)
  (dir srv : string) (recording : RecordingEntry) (key key' : value)
  (removeAssets : bool) (d1 d2 : value) (w w0 : World) (c : value) :
  status recording = crashed ->
  crashData recording = Some [d1; d2] ->
  apiKey_or_token env dir key w = (Ok key', w0) ->
  respond env (history w0) (InitConnection srv key') = Ok c -> truthy c = true ->
  (forall d h, exists v, respond env h (ReportCrash d) = Ok v) ->
  (forall h, exists v, respond env h CloseConnection = Ok v) ->
  let reports :=
    [ReportCrash d1; ReportCrash d2; ReportCrash (recordingMetadata_marker recording)] in
  let event :=
    JObj ([("kind", JStr "crashUploaded")] ++ tag "id" (id recording)
          ++ [("timestamp",
               JNum (Date_now env (history w0 ++ InitConnection srv key' :: reports)))]
          ++ [("server", JStr srv)]) in
  let w1 :=
    {| disk := <[getRecordingsFile dir :=
                   join_lines (log_lines dir (disk w0) ++ [JSON_stringify event])
                   +:+ String "010"%char ""]> (disk w0);
       history := history w0 ++ InitConnection srv key' :: reports ++ [CloseConnection];
       pools := pools w0 |} in
  let w' := snd (doUploadRecording env dir srv recording key removeAssets w) in
  only_deletes w1 w' /\
  (removeAssets = false ->
   doUploadRecording env dir srv recording key removeAssets w = (Ok (id recording), w1)) /\
  List.filter is_reportCrash (history w')
  = List.filter is_reportCrash (history w) ++ reports /\
  List.filter is_transfer (history w') = List.filter is_transfer (history w).
Proof.
  intros Hs Hd Hkey Hc Ht Hreports Hclose reports event w1 w'.
  pose proof (doUploadCrash_connected env dir srv recording key' w0 c Hc Ht Hreports Hclose)
    as Hcrash.
  rewrite Hd in Hcrash. cbn [app List.map] in Hcrash.
  fold reports in Hcrash. fold event in Hcrash. fold w1 in Hcrash.
  assert (Hrun : doUploadRecording env dir srv recording key removeAssets w
                 = (_ ← (if removeAssets
                         then removeRecordingAssets recording (directory_only dir)
                         else skip);
                    mret (id recording)) w1).
  { unfold doUploadRecording. rewrite Hs. cbn [Status_eqb andb].
    rewrite (uploadSkipReason_crashed _ Hs).
    rewrite (bind_ok _ _ _ _ _ Hkey). cbn [Status_eqb].
    unfold uploadCrashReport. rewrite (bind_ok _ _ _ _ _ Hcrash). reflexivity. }
  assert (Hdel : only_deletes w1 w').
  { subst w'. rewrite Hrun. destruct removeAssets.
    - pose proof (removeRecordingAssets_only_deletes recording (directory_only dir) w1) as H.
      unfold mbind, M_bind.
      destruct (removeRecordingAssets recording (directory_only dir) w1) as [[[]|e] w2];
        exact H.
    - apply only_deletes_refl. }
  pose proof (apiKey_or_token_history env dir key w) as (_ & Htr & Hrc).
  rewrite Hkey in Htr, Hrc. cbn [snd] in Htr, Hrc.
  destruct Hdel as [Hh Hdisk].
  split; [split; assumption|].
  split; [intros ->; rewrite Hrun; reflexivity|].
  rewrite Hh. subst w1. cbn [history].
  rewrite !List.filter_app, Htr, Hrc. cbn. rewrite !app_nil_r. split; reflexivity.
Qed.

Lemma crash_upload_witness :
  doUploadRecording (RT := Reference.js) (HP := Reference.helpers) (Reference.accepting 9)
    "/r" "wss://dispatch.replay.io" crashed_with_two_reports (str "key") false
    {| disk := ∅; history := []; pools := [] |}
  = (Ok (str "A"),
     {| disk :=
          {[ "/r/recordings.log" :=
               join_lines
                 [Reference.stringify
                    (JObj [("kind", JStr "crashUploaded"); ("id", JStr "A");
                           ("timestamp", JNum 9);
                           ("server", JStr "wss://dispatch.replay.io")])]
               +:+ String "010"%char "" ]};
        history :=
          [ InitConnection "wss://dispatch.replay.io" (str "key");
            ReportCrash (Some (JObj [("kind", JStr "stack")]));
            ReportCrash (Some (JObj [("kind", JStr "registers")]));
            ReportCrash (Some (JObj [("kind", JStr "recordingMetadata");
                                     ("recordingId", JStr "A")]));
            CloseConnection ]; pools := [] |}).
Proof.
  destruct (crash_upload (RT := Reference.js) (HP := Reference.helpers)
              (Reference.accepting 9) "/r" "wss://dispatch.replay.io"
              crashed_with_two_reports (str "key") (str "key") false
              (Some (JObj [("kind", JStr "stack")]))
              (Some (JObj [("kind", JStr "registers")]))
              {| disk := ∅; history := []; pools := [] |}
              {| disk := ∅; history := []; pools := [] |}
              (Some (JBool true))
              eq_refl eq_refl eq_refl eq_refl eq_refl
              (fun d h => ex_intro _ None eq_refl)
              (fun h => ex_intro _ None eq_refl))
    as (_ & H & _).
  rewrite (H eq_refl). vm_compute. reflexivity.
Defined.

(** * Batch upload *)




Section Batch.
Context `{RT : JSRuntime} `{HP : Helpers} (env : Environment).

End Batch.

(** * Cleaning shared assets *)

(** ** What cleaning deletes *)

Section CleanupSpec.
Context `{RT : JSRuntime} `{HP : Helpers}.

Lemma select_indexed_map {A} (p : A -> bool) (l : list A) (i : nat) :
  List.map snd (select_indexed i (List.map p l) l) = List.filter p l.
Proof.
  revert i. induction l as [|x l IH]; intros i; simpl; [reflexivity|].
  destruct (p x); simpl; rewrite IH; reflexivity.
Qed.

Lemma filterRecordings_fn (rs : list RecordingEntry) (p : RecordingEntry -> bool) :
  filterRecordings rs (FilterFn p) false = Ok (List.filter p rs).
Proof.
  unfold filterRecordings. simpl. rewrite app_nil_r, select_indexed_map. reflexivity.
Qed.

Lemma flatMap_assets_listRecording (rs : list RecordingEntry) :
  flatMap_assets (List.map listRecording rs) = flatMap_assets rs.
Proof. induction rs as [|r rs IH]; simpl; [reflexivity|]. rewrite IH. reflexivity. Qed.

Lemma maybeRemoveAssetFile_spec (asset : value) (w : World) :
  maybeRemoveAssetFile asset w
  = (Ok tt, {| disk := unlinked asset (disk w); history := history w; pools := pools w |}).
Proof.
  unfold maybeRemoveAssetFile, unlinked.
  destruct asset as [[| | |file| |]|]; simpl; try (destruct w; reflexivity).
  - destruct b; destruct w; reflexivity.
  - destruct (negb (n =? 0)); destruct w; reflexivity.
  - destruct (String.eqb file ""); simpl; [destruct w; reflexivity|].
    unfold try_catch, existsSync, unlinkSync, get_disk, put_disk, mbind, M_bind, mret, M_ret,
      skip.
    simpl. destruct (disk w !! file) as [contents|] eqn:E.
    + rewrite bool_decide_eq_true_2 by eauto. rewrite E. reflexivity.
    + rewrite bool_decide_eq_false_2 by (intros [x Hx]; discriminate).
      rewrite delete_id by assumption. destruct w; reflexivity.
Qed.
End CleanupSpec.

Section CleanupDeletes.
Context `{RT : JSRuntime} `{HP : Helpers}.

Lemma forEach_cleaned (used mine : list value) (w : World) :
  forEach
    (fun file =>
       if negb (existsb (strictEq file) used) then maybeRemoveAssetFile file else skip)
    mine w
  = (Ok tt, {| disk := cleaned used mine (disk w); history := history w; pools := pools w |}).
Proof.
  revert w. induction mine as [|file mine IH]; intros w; simpl.
  - destruct w; reflexivity.
  - unfold mbind, M_bind.
    destruct (negb (existsb (strictEq file) used)).
    + rewrite maybeRemoveAssetFile_spec, IH. reflexivity.
    + unfold skip, mret, M_ret. rewrite IH. reflexivity.
Qed.

Lemma strictEq_str (file : string) (v : value) :
  strictEq (str file) v = true <-> v = str file.
Proof.
  unfold str. destruct v as [[| | |s| |]|]; simpl; split; try discriminate.
  - intros H. apply String.eqb_eq in H. congruence.
  - intros H. injection H as ->. apply String.eqb_refl.
Qed.

Lemma unlinked_lookup (v : value) (d : gmap string string) (file : string) :
  unlinked v d !! file
  = if negb (String.eqb file "") && strictEq (str file) v then None else d !! file.
Proof.
  destruct (strictEq (str file) v) eqn:E.
  - apply strictEq_str in E. subst v. unfold unlinked, str.
    destruct (String.eqb file ""); simpl; [reflexivity|]. apply lookup_delete_eq.
  - rewrite andb_false_r. unfold unlinked.
    destruct v as [[| | |s| |]|]; try reflexivity.
    destruct (String.eqb s ""); [reflexivity|].
    apply lookup_delete_ne. intros ->.
    assert (strictEq (str file) (str file) = true) by (apply strictEq_str; reflexivity).
    unfold str in *. congruence.
Qed.

Lemma cleaned_lookup (used mine : list value) (d : gmap string string) (file : string) :
  cleaned used mine d !! file
  = if negb (String.eqb file "")
       && existsb (strictEq (str file)) mine
       && negb (existsb (strictEq (str file)) used)
    then None else d !! file.
Proof.
  revert d. induction mine as [|v mine IH]; intros d.
  - simpl. rewrite andb_false_r. reflexivity.
  - unfold cleaned in *. cbn [fold_left existsb]. rewrite IH. clear IH.
    destruct (strictEq (str file) v) eqn:E.
    + apply strictEq_str in E. subst v.
      destruct (existsb (strictEq (str file)) used) eqn:U; cbn [negb orb andb].
      * rewrite !andb_false_r. reflexivity.
      * rewrite unlinked_lookup.
        assert (strictEq (str file) (str file) = true) as -> by (apply strictEq_str; reflexivity).
        destruct (negb (String.eqb file "")), (existsb (strictEq (str file)) mine);
          reflexivity.
    + cbn [orb].
      destruct (negb (existsb (strictEq v) used)); [|reflexivity].
      rewrite unlinked_lookup, E, andb_false_r. reflexivity.
Qed.

(** X14: what [removeRecordingAssets] deletes: a file goes exactly when the
    recording names it among its asset files and no recording that
    [listAllRecordings] lists (status [onDisk], [startedWrite] or [crashed])
    under another id names it. *)
Theorem removeRecordingAssets_deletes (recording : RecordingEntry) (opts : Options)
  (w : World) (read : list RecordingEntry) (used mine : list value) :
  all opts = false -> includeCrashes opts = false ->
  readRecordingsOf (log_lines (getDirectory (directory opts)) (disk w)) false = Ok read ->
  flatMap_assets
    (List.filter (otherLocalRecording recording) (List.filter uploadable read))
  = Ok used ->
  getRecordingAssetFiles recording = Ok mine ->
  exists w',
    removeRecordingAssets recording opts w = (Ok tt, w') /\
    history w' = history w /\
    forall file,
      disk w' !! file
      = if negb (String.eqb file "")
           && existsb (strictEq (str file)) mine
           && negb (existsb (strictEq (str file)) used)
        then None else disk w !! file.
Proof.
  intros Hall Hcr Hread Hused Hmine.
  exists {| disk := cleaned used mine (disk w); history := history w; pools := pools w |}.
  split; [|split; [reflexivity|intros file; apply cleaned_lookup]].
  unfold removeRecordingAssets.
  assert (Hlist : listAllRecordings
                    (with_filter opts (FilterFn (otherLocalRecording recording))) w
                  = (Ok (List.map listRecording
                           (List.filter (otherLocalRecording recording)
                              (List.filter uploadable read))), w)).
  { unfold listAllRecordings. cbn [all with_filter filter includeCrashes directory].
    rewrite Hall, Hcr. unfold mbind at 1, M_bind at 1.
    rewrite readRecordings_spec, Hread.
    unfold mbind at 1, M_bind at 1, lift.
    fold (uploadable). 
    change (List.filter
              (fun recording0 =>
                 existsb (Status_eqb (status recording0)) [onDisk; startedWrite; crashed])
              read) with (List.filter uploadable read).
    rewrite filterRecordings_fn. reflexivity. }
  unfold mbind at 1, M_bind at 1. rewrite Hlist.
  unfold mbind at 1, M_bind at 1, lift. rewrite flatMap_assets_listRecording, Hused.
  unfold mbind at 1, M_bind at 1. rewrite Hmine.
  apply forEach_cleaned.
Qed.
End CleanupDeletes.

(** C2, on the code: [A] and [B] share the source map [/tmp/sm.map], [B]
    is neither [uploaded] nor [crashUploaded] and can still be uploaded, and
    yet cleaning the assets of [A] deletes the shared file and its lookup
    file.  [listAllRecordings] hands [removeRecordingAssets] only the
    recordings whose status is [onDisk], [startedWrite] or [crashed], so the
    filter on [uploaded] and [crashUploaded] never sees [B]. *)
Theorem shared_sourcemap_deleted_during_upload :
  status (recording_A upload_interrupted) = onDisk /\
  status (recording_B upload_interrupted) = startedUpload /\
  uploadSkipReason (recording_B upload_interrupted) = None /\
  otherLocalRecording (recording_A upload_interrupted) (recording_B upload_interrupted)
  = true /\
  getRecordingAssetFiles (recording_B upload_interrupted)
  = Ok [str "/tmp/b"; str "/tmp/sm.map"; str "/tmp/sm.lookup"] /\
  fst (clean_A upload_interrupted) = Ok tt /\
  disk upload_interrupted !! "/tmp/sm.map" = Some "{}" /\
  disk (snd (clean_A upload_interrupted)) !! "/tmp/sm.map" = None /\
  disk (snd (clean_A upload_interrupted)) !! "/tmp/sm.lookup" = None /\
  disk (snd (clean_A upload_interrupted)) !! "/tmp/b" = Some "recording B".
Proof. vm_compute. repeat split; reflexivity. Qed.

(** The path that does count the other recording: while [B] is [onDisk],
    cleaning [A] removes the data file of [A] and keeps the shared source
    map and its lookup file. *)
Example shared_sourcemap_kept_while_on_disk :
  status (recording_B (shared_world [])) = onDisk /\
  fst (clean_A (shared_world [])) = Ok tt /\
  disk (snd (clean_A (shared_world []))) !! "/tmp/a" = None /\
  disk (snd (clean_A (shared_world []))) !! "/tmp/sm.map" = Some "{}" /\
  disk (snd (clean_A (shared_world []))) !! "/tmp/sm.lookup" = Some "lookup".
Proof. vm_compute. repeat split; reflexivity. Qed.

(** Removing [A] and then [B] removes the shared source map with the
    second. *)
Example removing_both_removes_shared_sourcemap :
  fst (remove_from_r "A" (shared_world [])) = Ok true /\
  disk (snd (remove_from_r "A" (shared_world []))) !! "/tmp/sm.map" = Some "{}" /\
  fst (remove_from_r "B" (snd (remove_from_r "A" (shared_world [])))) = Ok true /\
  disk (snd (remove_from_r "B" (snd (remove_from_r "A" (shared_world [])))))
    !! "/tmp/sm.map" = None /\
  disk (snd (remove_from_r "B" (snd (remove_from_r "A" (shared_world [])))))
    !! "/tmp/sm.lookup" = None.
Proof. vm_compute. repeat split; reflexivity. Qed.

(** * Rounding to doubles *)

Section DoubleFacts.
Import Double.

Lemma rne_floor (x : Q) : Qfloor x <= rne x <= Qfloor x + 1.
Proof. unfold rne. destruct (_ ?= _)%Q; [destruct (Z.even _)| |]; lia. Qed.

Lemma rne_ge (x : Q) (n : Z) : (inject_Z n <= x)%Q -> n <= rne x.
Proof.
  intros H. apply Qfloor_resp_le in H. rewrite Qfloor_Z in H.
  pose proof (rne_floor x). lia.
Qed.

Lemma rne_le (x : Q) (n : Z) : (x <= inject_Z n)%Q -> rne x <= n.
Proof.
  intros H. pose proof (Qfloor_resp_le _ _ H) as Hf. rewrite Qfloor_Z in Hf.
  destruct (Z.eq_dec (Qfloor x) n) as [E|E]; [|pose proof (rne_floor x); lia].
  unfold rne. rewrite E.
  assert (Hc : (x - inject_Z n ?= 1 # 2)%Q = Lt)
    by (apply (proj1 (Qlt_alt _ _)); lra).
  rewrite Hc. lia.
Qed.

Lemma rne_below_half (x : Q) (n : Z) : (x < inject_Z n - (1 # 2))%Q -> rne x <= n - 1.
Proof.
  intros H.
  assert (Hf : Qfloor x <= n).
  { rewrite <- (Qfloor_Z n). apply Qfloor_resp_le. lra. }
  destruct (Z.eq_dec (Qfloor x) n) as [E|E].
  { pose proof (Qfloor_le x) as Hle. rewrite E in Hle. lra. }
  destruct (Z.eq_dec (Qfloor x) (n - 1)) as [E'|E']; [|pose proof (rne_floor x); lia].
  unfold rne. rewrite E'.
  assert (Hc : (x - inject_Z (n - 1) ?= 1 # 2)%Q = Lt).
  { apply (proj1 (Qlt_alt _ _)). unfold Z.sub. rewrite inject_Z_plus.
    change (inject_Z (- (1))) with (- (1))%Q. lra. }
  rewrite Hc. lia.
Qed.

Lemma rne_comp (x y : Q) : (x == y)%Q -> rne x = rne y.
Proof.
  intros H. unfold rne. rewrite (Qfloor_comp _ _ H).
  assert (Hc : (x - inject_Z (Qfloor y) ?= 1 # 2)%Q = (y - inject_Z (Qfloor y) ?= 1 # 2)%Q)
    by (apply Qcompare_comp; [rewrite H|]; reflexivity).
  rewrite Hc. reflexivity.
Qed.

Lemma exponent_ge (x : Q) : emin <= exponent x.
Proof. unfold exponent. lia. Qed.

Lemma exponent_le (x : Q) (c : Z) :
  0 <= c -> (x * 2 ^ 1074 < inject_Z (2 ^ c))%Q -> exponent x <= Z.max (c - 1127) emin.
Proof.
  intros Hc H. unfold exponent.
  set (a := Qfloor (x * 2 ^ 1074)%Q).
  assert (Ha : a < 2 ^ c).
  { rewrite Zlt_Qlt. eapply Qle_lt_trans; [apply Qfloor_le|exact H]. }
  destruct (Z_lt_le_dec 0 a) as [Hpos|Hneg].
  - apply Z.log2_lt_pow2 in Ha; [lia|exact Hpos].
  - rewrite (Z.log2_nonpos a Hneg). unfold emin. lia.
Qed.

Lemma Qabs_nonneg (x : Q) : (0 <= x)%Q -> Qabs x = x.
Proof.
  destruct x as [n d]. unfold Qle, Qabs. simpl. intros H. f_equal. lia.
Qed.

Lemma negative_nonneg (x : Q) : (0 <= x)%Q -> negative x = false.
Proof. intros H. unfold negative. apply Qle_bool_iff in H. rewrite H. reflexivity. Qed.

Lemma pow2_pos (p : Z) : 0 <= p -> (0 < inject_Z (2 ^ p))%Q.
Proof.
  intros Hp. change 0%Q with (inject_Z 0). rewrite <- Zlt_Qlt.
  apply Z.pow_pos_nonneg; lia.
Qed.

Lemma Qpower2_neg (p : Z) : 0 <= p -> (2 ^ (- p) == / inject_Z (2 ^ p))%Q.
Proof. intros Hp. rewrite Qpower_opp, (Zpower_Qpower 2 p Hp). reflexivity. Qed.

(** A number of at least 0 and under [2 ** 53] is rounded on a grid of step
    [2 ** -p] that holds the integers. *)
Lemma round_on_grid (x : Q) (c : Z) :
  (0 <= x)%Q -> 0 <= c <= 1127 -> (x * 2 ^ 1074 < inject_Z (2 ^ c))%Q ->
  exists p q,
    Z.min (1127 - c) 1074 <= p <= 1074 /\ round x = Finite q /\
    (q * inject_Z (2 ^ p) == inject_Z (rne (x * inject_Z (2 ^ p))))%Q.
Proof.
  intros Hx Hc Hlt.
  pose proof (exponent_ge x) as Hge. pose proof (exponent_le x c (proj1 Hc) Hlt) as Hle.
  unfold emin in *.
  set (p := - exponent x).
  assert (Hp : Z.min (1127 - c) 1074 <= p <= 1074) by lia.
  assert (Hp0 : 0 <= p) by lia.
  set (P := inject_Z (2 ^ p)).
  assert (HP : (0 < P)%Q) by (apply pow2_pos, Hp0).
  assert (He : (2 ^ exponent x == / P)%Q).
  { replace (exponent x) with (- p) by lia. apply Qpower2_neg, Hp0. }
  set (m := rne (x * P)).
  assert (Hm : rne (x / 2 ^ exponent x) = m).
  { apply rne_comp. rewrite He. unfold Qdiv. rewrite Qinv_involutive. reflexivity. }
  assert (Hx53 : (x < inject_Z (2 ^ 53))%Q).
  { assert (H1127 : (inject_Z (2 ^ c) <= inject_Z (2 ^ 1127))%Q)
      by (rewrite <- Zle_Qle; apply Z.pow_le_mono_r; lia).
    assert (HK : (inject_Z (2 ^ 1127) == inject_Z (2 ^ 53) * 2 ^ 1074)%Q)
      by (vm_compute; reflexivity).
    assert (HK0 : (0 < 2 ^ 1074)%Q) by (vm_compute; reflexivity).
    apply (Qmult_lt_r _ _ _ HK0). rewrite <- HK. lra. }
  assert (Hm53 : m <= 2 ^ 53 * 2 ^ p).
  { apply rne_le. rewrite inject_Z_mult. fold P. apply Qmult_le_compat_r; lra. }
  exists p, (Qred (inject_Z m * 2 ^ exponent x)).
  split; [exact Hp|]. split.
  - unfold round. rewrite (Qabs_nonneg x Hx), (negative_nonneg x Hx), Hm.
    assert (Hsmall : Qle_bool (2 ^ emax) (inject_Z m * 2 ^ exponent x) = false).
    { apply not_true_is_false. intros Hb. apply Qle_bool_iff in Hb.
      rewrite He in Hb.
      assert (Hq : (inject_Z m <= inject_Z (2 ^ 53) * P)%Q).
      { unfold P. rewrite <- inject_Z_mult, <- Zle_Qle. exact Hm53. }
      assert (Hbig : (inject_Z (2 ^ 53) < 2 ^ emax)%Q) by (vm_compute; reflexivity).
      assert (Hd : (inject_Z m * / P <= inject_Z (2 ^ 53))%Q).
      { apply Qle_shift_div_r; [exact HP|exact Hq]. }
      lra. }
    rewrite Hsmall. reflexivity.
  - rewrite Qred_correct, He. fold P. fold m.
    rewrite <- Qmult_assoc, (Qmult_comm (/ P)), Qmult_inv_r, Qmult_1_r; [reflexivity|lra].
Qed.

(** Rounding keeps a number between the integers it lies between. *)
Lemma round_between (x : Q) (L U : Z) :
  0 <= L -> U < 2 ^ 53 -> (inject_Z L <= x <= inject_Z U)%Q ->
  exists q, round x = Finite q /\ (inject_Z L <= q <= inject_Z U)%Q.
Proof.
  intros HL HU [HLx HxU].
  assert (HL0 : (0 <= inject_Z L)%Q) by (change 0%Q with (inject_Z 0); rewrite <- Zle_Qle; lia).
  assert (HU53 : (inject_Z U < inject_Z (2 ^ 53))%Q) by (rewrite <- Zlt_Qlt; exact HU).
  destruct (round_on_grid x 1127) as (p & q & Hp & Hround & Hq); [lra|lia| |].
  { assert (HK : (inject_Z (2 ^ 1127) == inject_Z (2 ^ 53) * 2 ^ 1074)%Q)
      by (vm_compute; reflexivity).
    assert (HK0 : (0 < 2 ^ 1074)%Q) by (vm_compute; reflexivity).
    rewrite HK. apply Qmult_lt_r; [exact HK0|lra]. }
  assert (Hp0 : 0 <= p) by lia.
  pose proof (pow2_pos p Hp0) as HP. set (P := inject_Z (2 ^ p)) in *.
  assert (Hlo : L * 2 ^ p <= rne (x * P)).
  { apply rne_ge. rewrite inject_Z_mult. fold P. apply Qmult_le_compat_r; lra. }
  assert (Hhi : rne (x * P) <= U * 2 ^ p).
  { apply rne_le. rewrite inject_Z_mult. fold P. apply Qmult_le_compat_r; lra. }
  rewrite Zle_Qle, inject_Z_mult in Hlo, Hhi. fold P in Hlo, Hhi. rewrite <- Hq in Hlo, Hhi.
  exists q. split; [exact Hround|]. split.
  - apply (Qmult_le_r _ _ _ HP), Hlo.
  - apply (Qmult_le_r _ _ _ HP), Hhi.
Qed.

(** The doubles under 1 end at [1 - 2 ** -53]. *)
Lemma representable_below_one (r : Q) :
  representable r -> (r < 1)%Q -> (r <= 1 - / inject_Z (2 ^ 53))%Q.
Proof.
  intros (m & e & He & Hm & Hr) Hlt. unfold emin in He.
  assert (H53 : (0 < inject_Z (2 ^ 53))%Q) by (apply pow2_pos; lia).
  destruct (Z_le_gt_dec (-53) e) as [Hbig|Hsmall].
  - assert (Hint : (r * inject_Z (2 ^ 53) == inject_Z (m * 2 ^ (e + 53)))%Q).
    { rewrite Hr, inject_Z_mult, (Zpower_Qpower 2 (e + 53)) by lia.
      rewrite Qpower_plus by discriminate. rewrite (Zpower_Qpower 2 53) by lia.
      change (inject_Z 2) with 2%Q. ring. }
    assert (Hz : m * 2 ^ (e + 53) < 2 ^ 53).
    { rewrite Zlt_Qlt, <- Hint. rewrite <- (Qmult_1_l (inject_Z (2 ^ 53))) at 2.
      apply Qmult_lt_r; [exact H53|exact Hlt]. }
    assert (Hz' : m * 2 ^ (e + 53) <= 2 ^ 53 - 1) by lia.
    rewrite Zle_Qle, <- Hint in Hz'. unfold Z.sub in Hz'. rewrite inject_Z_plus in Hz'.
    change (inject_Z (- (1))) with (- (1))%Q in Hz'.
    apply (Qmult_le_r _ _ _ H53).
    assert (E : ((1 - / inject_Z (2 ^ 53)) * inject_Z (2 ^ 53)
                 == inject_Z (2 ^ 53) + - (1))%Q) by (field; lra).
    rewrite E. exact Hz'.
  - assert (Hp : 0 <= - e) by lia.
    assert (Hpow : (2 ^ e == / inject_Z (2 ^ (- e)))%Q).
    { rewrite <- (Qpower2_neg (- e) Hp). replace (- - e) with e by lia. reflexivity. }
    pose proof (pow2_pos (- e) Hp) as HP.
    assert (H54 : (inject_Z (2 ^ 54) <= inject_Z (2 ^ (- e)))%Q)
      by (rewrite <- Zle_Qle; apply Z.pow_le_mono_r; lia).
    assert (Hm' : (inject_Z m < inject_Z (2 ^ 53))%Q) by (rewrite <- Zlt_Qlt; lia).
    assert (Hhalf : (r * inject_Z (2 ^ (- e)) == inject_Z m)%Q).
    { rewrite Hr, Hpow. field. lra. }
    assert (Hc : (inject_Z (2 ^ 54) == 2 * inject_Z (2 ^ 53))%Q) by (vm_compute; reflexivity).
    assert (Hinv : (/ inject_Z (2 ^ 53) <= 1 # 2)%Q) by (vm_compute; discriminate).
    assert (Hr2 : (r <= 1 # 2)%Q).
    { apply (Qmult_le_r _ _ _ HP). rewrite Hhalf. lra. }
    lra.
Qed.

(** [Math.random() * 100] stays under 100 in doubles too. *)
Lemma jitter_below (r : Q) :
  representable r -> (0 <= r < 1)%Q ->
  exists j, mul (Finite r) (Finite 100) = Finite j /\ (0 <= j < 100)%Q.
Proof.
  intros Hrep [H0 H1]. pose proof (representable_below_one r Hrep H1) as Hgap.
  cbn [mul].
  destruct (round_on_grid (r * 100) 1081) as (p & q & Hp & Hround & Hq); [lra|lia| |].
  { assert (HK : (inject_Z (2 ^ 1081) == 128 * 2 ^ 1074)%Q) by (vm_compute; reflexivity).
    assert (HK0 : (0 < 2 ^ 1074)%Q) by (vm_compute; reflexivity).
    rewrite HK. apply Qmult_lt_r; [exact HK0|lra]. }
  assert (Hp0 : 0 <= p) by lia.
  pose proof (pow2_pos p Hp0) as HP.
  assert (H46 : (inject_Z (2 ^ 46) <= inject_Z (2 ^ p))%Q)
    by (rewrite <- Zle_Qle; apply Z.pow_le_mono_r; lia).
  set (P := inject_Z (2 ^ p)) in *.
  assert (Hlo : 0 <= rne (r * 100 * P)).
  { apply rne_ge. change (inject_Z 0) with 0%Q. apply Qmult_le_0_compat; lra. }
  assert (Hhi : rne (r * 100 * P) <= 100 * 2 ^ p - 1).
  { apply rne_below_half. rewrite inject_Z_mult. fold P. change (inject_Z 100) with 100%Q.
    assert (Hprod : (r * P <= (1 - / inject_Z (2 ^ 53)) * P)%Q)
      by (apply Qmult_le_compat_r; lra).
    assert (Hc : (/ inject_Z (2 ^ 53) * inject_Z (2 ^ 46) == 1 # 128)%Q)
      by (vm_compute; reflexivity).
    assert (Hinv : (0 < / inject_Z (2 ^ 53))%Q) by (vm_compute; reflexivity).
    assert (Hprod2 : (/ inject_Z (2 ^ 53) * inject_Z (2 ^ 46) <= / inject_Z (2 ^ 53) * P)%Q).
    { rewrite !(Qmult_comm (/ inject_Z (2 ^ 53))). apply Qmult_le_compat_r; lra. }
    rewrite Hc in Hprod2. nra. }
  rewrite Zle_Qle in Hlo, Hhi. rewrite <- Hq in Hlo, Hhi.
  unfold Z.sub in Hhi. rewrite inject_Z_plus, inject_Z_mult in Hhi. fold P in Hhi.
  change (inject_Z 0) with 0%Q in Hlo. change (inject_Z 100) with 100%Q in Hhi.
  change (inject_Z (- (1))) with (- (1))%Q in Hhi.
  exists q. split; [exact Hround|]. split.
  - apply (Qmult_le_r _ _ _ HP). lra.
  - apply (Qmult_lt_r _ _ _ HP). lra.
Qed.
End DoubleFacts.

(** Doubles the rounding is known on. *)
Example round_examples :
  Double.round (1 # 10) = Double.Finite (3602879701896397 # 36028797018963968) /\
  Double.round (1 # 3) = Double.Finite (6004799503160661 # 18014398509481984) /\
  Double.round (9007199254740993 # 1) = Double.Finite (9007199254740992 # 1) /\
  Double.round (9007199254740995 # 1) = Double.Finite (9007199254740996 # 1) /\
  Double.pow2 1024 = Double.Infinity false /\
  Double.pow2 (-1075) = Double.Finite 0 /\
  Double.add (Double.Finite 200)
    (Double.mul (Double.Finite (9007199254740991 # 9007199254740992)) (Double.Finite 100))
  = Double.Finite 300.
Proof. vm_compute. repeat split; reflexivity. Qed.

(** * Retrying *)

Section RetryFacts.
Context {T : Type} (asyncFunction : nat -> result T).

(** One turn of the loop of [retry]. *)
Lemma retry_loop_turn (backOffStrategy : Z -> Retry.Run -> Double.number * Retry.Run)
  (onFail : option (Error -> Z -> result unit)) (maxAttempts currentAttempt : Z)
  (st : Retry.Run) :
  Retry.retry_loop asyncFunction backOffStrategy onFail maxAttempts currentAttempt st
  = if Z_le_dec currentAttempt maxAttempts then
      match asyncFunction (S (Retry.invocations st)) with
      | Ok v => (Ok v, Retry.invoked st)
      | Throw error =>
          match Retry.notify onFail error (currentAttempt + 1) (Retry.invoked st) with
          | (Throw e, st1) => (Throw e, st1)
          | (Ok _, st1) =>
              if Z.eq_dec (currentAttempt + 1) maxAttempts then (Throw error, st1)
              else
                Retry.retry_loop asyncFunction backOffStrategy onFail maxAttempts
                  (currentAttempt + 1)
                  (Retry.waited (fst (backOffStrategy (currentAttempt + 1) st1))
                     (snd (backOffStrategy (currentAttempt + 1) st1)))
          end
      end
    else (Throw ShouldBeUnreachable, st).
Proof.
  simp retry_loop.
  destruct (Z_le_dec currentAttempt maxAttempts); simpl; [|reflexivity].
  destruct (asyncFunction (S (Retry.invocations st))); simpl; [reflexivity|].
  destruct (Retry.notify onFail e (currentAttempt + 1) (Retry.invoked st)) as [[[]|e'] st1];
    simpl; [|reflexivity].
  destruct (Z.eq_dec (currentAttempt + 1) maxAttempts); reflexivity.
Qed.
End RetryFacts.

Section RetryDefault.
Context {T : Type} (asyncFunction : nat -> result T) (random : nat -> Q).
Context (onFail : option (Error -> Z -> result unit)).
Context (onFail_returns : forall f e n, onFail = Some f -> f e n = Ok tt).

Local Abbreviation run := (Retry.retryWithExponentialBackoff asyncFunction random onFail None).

(** The run at the default cap, by the first invocation that succeeds. *)
Lemma retry_default_cases :
  (exists k v, (1 <= k <= 5)%nat /\ asyncFunction k = Ok v /\ all_threw asyncFunction k /\
               fst run = Ok v /\ Retry.invocations (snd run) = k /\
               Retry.waits (snd run) = backoff_delays random (k - 1)) \/
  (exists e, all_threw asyncFunction 6 /\ asyncFunction 5%nat = Throw e /\
             fst run = Throw e /\ Retry.invocations (snd run) = 5%nat /\
             Retry.waits (snd run) = backoff_delays random 4).
Proof.
  assert (Hn : forall e n st,
             Retry.notify onFail e n st
             = (Ok tt, {| Retry.invocations := Retry.invocations st;
                          Retry.draws := Retry.draws st;
                          Retry.waits := Retry.waits st;
                          Retry.reported :=
                            match onFail with
                            | Some _ => Retry.reported st ++ [(e, n)]
                            | None => Retry.reported st
                            end |})).
  { intros e n st. unfold Retry.notify. destruct onFail as [f|] eqn:E.
    - rewrite (onFail_returns f e n eq_refl). reflexivity.
    - destruct st; reflexivity. }
  unfold Retry.retryWithExponentialBackoff, Retry.retry, all_threw.
  rewrite retry_loop_turn. destruct (Z_le_dec 0 5); [|lia].
  cbn [Retry.invocations Retry.start].
  destruct (asyncFunction 1%nat) as [v1|e1] eqn:F1.
  { left. exists 1%nat, v1. repeat split; try reflexivity; try assumption; try lia.
    all: intros j Hj; lia. }
  rewrite Hn. destruct (Z.eq_dec (0 + 1) 5); [lia|].
  rewrite retry_loop_turn. destruct (Z_le_dec (0 + 1) 5); [|lia].
  cbn [Retry.invocations Retry.waited Retry.exponential_backoff Retry.jitter Retry.drawn
       Retry.invoked Retry.start Retry.draws Retry.waits fst snd].
  destruct (asyncFunction 2%nat) as [v2|e2] eqn:F2.
  { left. exists 2%nat, v2. repeat split; try reflexivity; try assumption; try lia.
    all: intros j Hj; assert (j = 1%nat) as -> by lia. eauto. }
  rewrite Hn. destruct (Z.eq_dec (0 + 1 + 1) 5); [lia|].
  rewrite retry_loop_turn. destruct (Z_le_dec (0 + 1 + 1) 5); [|lia].
  cbn [Retry.invocations Retry.waited Retry.exponential_backoff Retry.jitter Retry.drawn
       Retry.invoked Retry.start Retry.draws Retry.waits fst snd].
  destruct (asyncFunction 3%nat) as [v3|e3] eqn:F3.
  { left. exists 3%nat, v3. repeat split; try reflexivity; try assumption; try lia.
    all: intros j Hj; assert (j = 1 \/ j = 2)%nat as [-> | ->] by lia; eauto. }
  rewrite Hn. destruct (Z.eq_dec (0 + 1 + 1 + 1) 5); [lia|].
  rewrite retry_loop_turn. destruct (Z_le_dec (0 + 1 + 1 + 1) 5); [|lia].
  cbn [Retry.invocations Retry.waited Retry.exponential_backoff Retry.jitter Retry.drawn
       Retry.invoked Retry.start Retry.draws Retry.waits fst snd].
  destruct (asyncFunction 4%nat) as [v4|e4] eqn:F4.
  { left. exists 4%nat, v4. repeat split; try reflexivity; try assumption; try lia.
    all: intros j Hj; assert (j = 1 \/ j = 2 \/ j = 3)%nat as [-> | [-> | ->]] by lia; eauto. }
  rewrite Hn. destruct (Z.eq_dec (0 + 1 + 1 + 1 + 1) 5); [lia|].
  rewrite retry_loop_turn. destruct (Z_le_dec (0 + 1 + 1 + 1 + 1) 5); [|lia].
  cbn [Retry.invocations Retry.waited Retry.exponential_backoff Retry.jitter Retry.drawn
       Retry.invoked Retry.start Retry.draws Retry.waits fst snd].
  destruct (asyncFunction 5%nat) as [v5|e5] eqn:F5.
  { left. exists 5%nat, v5. repeat split; try reflexivity; try assumption; try lia.
    all: intros j Hj;
    assert (j = 1 \/ j = 2 \/ j = 3 \/ j = 4)%nat as [-> | [-> | [-> | ->]]] by lia; eauto. }
  rewrite Hn. destruct (Z.eq_dec (0 + 1 + 1 + 1 + 1 + 1) 5); [|lia].
  right. exists e5. repeat split; try reflexivity.
  all: intros j Hj;
  assert (j = 1 \/ j = 2 \/ j = 3 \/ j = 4 \/ j = 5)%nat
    as [-> | [-> | [-> | [-> | ->]]]] by lia; eauto.
Qed.
End RetryDefault.

(** The step [2 ** n * 100] of the retries 1 to 4 is exact. *)
Lemma exponential_step (n : nat) :
  (1 <= n <= 4)%nat ->
  Double.mul (Double.pow2 (Z.of_nat n)) (Double.Finite 100)
  = Double.Finite (inject_Z (2 ^ Z.of_nat n * 100)).
Proof.
  intros Hn. assert (n = 1 \/ n = 2 \/ n = 3 \/ n = 4)%nat as [-> | [-> | [-> | ->]]] by lia;
    vm_compute; reflexivity.
Qed.

(** A sum of a whole delay and a jitter lies between the delay and the
    delay plus 100. *)
Lemma delay_with_jitter (L : Z) (j : Q) :
  0 <= L -> L + 100 < 2 ^ 53 -> (0 <= j < 100)%Q ->
  exists q, Double.add (Double.Finite (inject_Z L)) (Double.Finite j) = Double.Finite q /\
            (inject_Z L <= q <= inject_Z L + 100)%Q.
Proof.
  intros HL HU [Hj0 Hj100]. cbn [Double.add].
  destruct (round_between (inject_Z L + j) L (L + 100) HL HU) as (q & Hq & Hlo & Hhi).
  { rewrite inject_Z_plus. change (inject_Z 100) with 100%Q. split; lra. }
  rewrite inject_Z_plus in Hhi. change (inject_Z 100) with 100%Q in Hhi.
  exists q. split; [exact Hq|]. split; [exact Hlo|exact Hhi].
Qed.

Lemma Forall2_seq_map {B} (R : nat -> B -> Prop) (f : nat -> B) (m : nat) :
  forall s, (forall n, (s <= n < s + m)%nat -> R (S n) (f n)) ->
            Forall2 R (seq (S s) m) (List.map f (seq s m)).
Proof.
  induction m as [|m IH]; intros s H; simpl; constructor.
  - apply H. lia.
  - apply IH. intros n Hn. apply H. lia.
Qed.

(** The delay before retry [n + 1], one of the retries 1 to 4. *)
Lemma backoff_delay_shape (random : nat -> Q) (n : nat) :
  random_in_range random -> (n <= 3)%nat ->
  let d := Double.add (Double.mul (Double.pow2 (Z.of_nat n + 1)) (Double.Finite 100))
             (jitter_of random n) in
  exists j q,
    Double.mul (Double.Finite (random n)) (Double.Finite 100) = Double.Finite j /\
    (0 <= j < 100)%Q /\
    d = Double.add (Double.Finite (inject_Z (2 ^ Z.of_nat (S n) * 100))) (Double.Finite j) /\
    d = Double.Finite q /\
    (inject_Z (2 ^ Z.of_nat (S n) * 100) <= q
     <= inject_Z (2 ^ Z.of_nat (S n) * 100) + 100)%Q.
Proof.
  intros Hr Hn d. subst d.
  destruct (Hr n) as [Hrep Hrange].
  destruct (jitter_below (random n) Hrep Hrange) as (j & Hj & Hjr).
  replace (Z.of_nat n + 1) with (Z.of_nat (S n)) by lia.
  rewrite (exponential_step (S n)) by lia. unfold jitter_of. rewrite Hj.
  destruct (delay_with_jitter (2 ^ Z.of_nat (S n) * 100) j) as (q & Hq & Hqr);
    [lia| |exact Hjr|].
  { assert (n = 0 \/ n = 1 \/ n = 2 \/ n = 3)%nat as [-> | [-> | [-> | ->]]] by lia;
      vm_compute; reflexivity. }
  exists j, q. repeat split; try assumption; try apply Hjr; try apply Hqr.
Qed.

(** The delays before the retries 1 to [m], [m] up to 4: each is the
    floating-point sum of the exact step [2 ** n * 100] of its retry and of
    the jitter made of the random number drawn for it, a jitter from 0 up
    to, but not including, 100. *)
Lemma backoff_delays_shape (random : nat -> Q) (m : nat) :
  random_in_range random -> (m <= 4)%nat ->
  Forall2
    (fun (n : nat) (d : Double.number) =>
       exists j q,
         Double.mul (Double.Finite (random (n - 1)%nat)) (Double.Finite 100)
         = Double.Finite j /\
         (0 <= j < 100)%Q /\
         d = Double.add (Double.Finite (inject_Z (2 ^ Z.of_nat n * 100))) (Double.Finite j) /\
         d = Double.Finite q /\
         (inject_Z (2 ^ Z.of_nat n * 100) <= q <= inject_Z (2 ^ Z.of_nat n * 100) + 100)%Q)
    (seq 1 m) (backoff_delays random m).
Proof.
  intros Hr Hm. unfold backoff_delays. apply Forall2_seq_map. intros n Hn.
  replace (S n - 1)%nat with n by lia. apply backoff_delay_shape; [exact Hr|lia].
Qed.

(** C8: when [onFail], if there is one, returns, [retryWithExponentialBackoff]
    at its default cap invokes the async function at most 5 times; it
    returns what the first invocation that succeeds returns; when the fifth
    invocation throws too it throws that fifth error after exactly 5
    invocations; and before retry [n] it waits [2 ** n * 100] plus a jitter
    under 100: the jitter is the product of 100 and of the random number
    drawn for the retry, the sum is the floating-point one, between
    [2 ** n * 100] and [2 ** n * 100 + 100]. *)
Theorem retry_default_cap {T : Type} (asyncFunction : nat -> result T)
  (random : nat -> Q) (onFail : option (Error -> Z -> result unit)) :
  random_in_range random ->
  (forall f e n, onFail = Some f -> f e n = Ok tt) ->
  let run := Retry.retryWithExponentialBackoff asyncFunction random onFail None in
  (Retry.invocations (snd run) <= 5)%nat /\
  (forall k v, (1 <= k <= 5)%nat -> asyncFunction k = Ok v ->
               (forall j, (1 <= j < k)%nat -> exists e, asyncFunction j = Throw e) ->
               fst run = Ok v /\ Retry.invocations (snd run) = k) /\
  (forall e, (forall j, (1 <= j <= 5)%nat -> exists e', asyncFunction j = Throw e') ->
             asyncFunction 5%nat = Throw e ->
             fst run = Throw e /\ Retry.invocations (snd run) = 5%nat) /\
  Forall2
    (fun (n : nat) (d : Double.number) =>
       exists j q,
         Double.mul (Double.Finite (random (n - 1)%nat)) (Double.Finite 100)
         = Double.Finite j /\
         (0 <= j < 100)%Q /\
         d = Double.add (Double.Finite (inject_Z (2 ^ Z.of_nat n * 100))) (Double.Finite j) /\
         d = Double.Finite q /\
         (inject_Z (2 ^ Z.of_nat n * 100) <= q <= inject_Z (2 ^ Z.of_nat n * 100) + 100)%Q)
    (seq 1 (Retry.invocations (snd run) - 1)) (Retry.waits (snd run)).
Proof.
  intros Hr Hf run.
  destruct (retry_default_cases asyncFunction random onFail Hf)
    as [(k0 & v0 & Hk0 & Hv0 & Hthrew & Hres & Hinv & Hwaits)
       |(e0 & Hthrew & He0 & Hres & Hinv & Hwaits)];
    fold run in Hres, Hinv, Hwaits.
  - split; [lia|]. split; [|split].
    + intros k v Hk Hv Hbefore. destruct (Nat.lt_trichotomy k k0) as [Hlt|[->|Hgt]].
      * destruct (Hthrew k ltac:(lia)) as [e He]. congruence.
      * split; congruence.
      * destruct (Hbefore k0 ltac:(lia)) as [e He]. congruence.
    + intros e Hall He. destruct (Hall k0 ltac:(lia)) as [e' He']. congruence.
    + rewrite Hwaits, Hinv. apply backoff_delays_shape; [exact Hr|lia].
  - split; [lia|]. split; [|split].
    + intros k v Hk Hv Hbefore. destruct (Hthrew k ltac:(lia)) as [e' He']. congruence.
    + intros e Hall He. split; congruence.
    + rewrite Hwaits, Hinv. apply backoff_delays_shape; [exact Hr|lia].
Qed.

Lemma half_in_range : random_in_range (fun _ => 1 # 2).
Proof.
  intros k. split; [|split; lra]. exists 1, (-1).
  split; [unfold Double.emin; lia|]. split; reflexivity.
Qed.

Lemma retry_default_cap_witness :
  fst (Retry.retryWithExponentialBackoff third_time_lucky (fun _ => 1 # 2) None None)
  = Ok 3%nat /\
  Retry.invocations
    (snd (Retry.retryWithExponentialBackoff third_time_lucky (fun _ => 1 # 2) None None))
  = 3%nat /\
  Retry.waits
    (snd (Retry.retryWithExponentialBackoff third_time_lucky (fun _ => 1 # 2) None None))
  = [Double.Finite 250; Double.Finite 450].
Proof.
  destruct (retry_default_cap third_time_lucky (fun _ => 1 # 2) None) as (_ & H & _ & Hw).
  - intros k. split; [|split; lra]. exists 1, (-1).
    split; [unfold Double.emin; lia|]. split; reflexivity.
  - intros f e n Hf. discriminate Hf.
  - destruct (H 3%nat 3%nat) as [Hres Hinv]; [lia|reflexivity| |].
    { intros j Hj. assert (j = 1 \/ j = 2)%nat as [-> | ->] by lia; eexists; reflexivity. }
    split; [exact Hres|]. split; [exact Hinv|].
    rewrite Hinv in Hw. cbn [seq Nat.sub] in Hw.
    remember (Retry.waits
                (snd (Retry.retryWithExponentialBackoff third_time_lucky (fun _ => 1 # 2)
                        None None))) as ws eqn:Hws.
    clear Hws H Hres Hinv.
    inversion Hw as [|n1 d1 ns1 ds1 (j1 & q1 & Hj1 & _ & Hd1 & _) Hw1 E1 E2]; subst.
    inversion Hw1 as [|n2 d2 ns2 ds2 (j2 & q2 & Hj2 & _ & Hd2 & _) Hw2 E3 E4]; subst.
    inversion Hw2; subst.
    vm_compute in Hj1. injection Hj1 as <-. vm_compute in Hj2. injection Hj2 as <-.
    vm_compute. reflexivity.
Defined.

(** The retrying at the default cap ends when [onFail] throws: the run
    below throws what [onFail] threw after one invocation, though the third
    invocation would have returned. *)
Lemma throwing_onFail_ends_the_retry :
  let onFail := Some (fun (_ : Error) (_ : Z) => Throw (TypeError "onFail")) in
  let run :=
    Retry.retryWithExponentialBackoff third_time_lucky (fun _ => 1 # 2) onFail None in
  random_in_range (fun _ => 1 # 2) /\
  third_time_lucky 3%nat = Ok 3%nat /\
  (forall j, (1 <= j < 3)%nat -> exists e, third_time_lucky j = Throw e) /\
  fst run = Throw (TypeError "onFail") /\
  Retry.invocations (snd run) = 1%nat.
Proof.
  intros onFail run. split; [apply half_in_range|]. split; [reflexivity|]. split.
  { intros j Hj. assert (j = 1 \/ j = 2)%nat as [-> | ->] by lia; eexists; reflexivity. }
  subst run. unfold Retry.retryWithExponentialBackoff, Retry.retry.
  rewrite retry_loop_turn. split; reflexivity.
Qed.

(** * Further properties of the registry fold *)

Lemma update_first_map {A B} (g : A -> B) (p : A -> bool) (f : A -> A) (l : list A) :
  (forall x, g (f x) = g x) -> List.map g (update_first p f l) = List.map g l.
Proof.
  intros Hg. induction l as [|x l IH]; simpl; [reflexivity|].
  destruct (p x); simpl; [rewrite Hg|rewrite IH]; reflexivity.
Qed.

Lemma update_first_none {A} (p : A -> bool) (f : A -> A) (l : list A) :
  (forall x, In x l -> p x = false) -> update_first p f l = l.
Proof.
  induction l as [|x l IH]; intros H; simpl; [reflexivity|].
  rewrite (H x (or_introl eq_refl)), IH; [reflexivity|].
  intros y Hy. apply H. right. exact Hy.
Qed.

Section RegistryIds.
Context `{RT : JSRuntime}.

Lemma id_addMetadata (md : value) (r : RecordingEntry) : id (addMetadata md r) = id r.
Proof. unfold addMetadata. destruct (truthy _); reflexivity. Qed.

Lemma id_push_crashData (d : value) (r : RecordingEntry) : id (push_crashData d r) = id r.
Proof. unfold push_crashData. destruct (crashData r); reflexivity. Qed.

Lemma id_updateStatus (r : RecordingEntry) (s : Status) : id (updateStatus r s) = id r.
Proof. unfold updateStatus. destruct (_ || _); reflexivity. Qed.

(** The ids of the registry after one event. *)
Lemma applyKind_ids (rs : list RecordingEntry) (obj : JSON) :
  List.map id (applyKind rs obj)
  = List.map id rs
    ++ match prop obj "kind" with
       | Some (JStr kind) =>
           if String.eqb kind "createRecording" then [prop obj "id"] else []
       | _ => []
       end.
Proof.
  unfold applyKind.
  destruct (prop obj "kind") as [[| | |kind| |]|]; try (rewrite app_nil_r; reflexivity).
  destruct (String.eqb kind "createRecording").
  { rewrite map_app. reflexivity. }
  rewrite app_nil_r.
  repeat match goal with
         | |- context [if String.eqb kind ?k then _ else _] =>
             destruct (String.eqb kind k)
         end;
    try reflexivity;
    apply update_first_map; intros x;
    rewrite ?id_addMetadata, ?id_push_crashData; cbn [id set_path set_upload
      set_unusableReason set_sourcemaps]; rewrite ?id_updateStatus; reflexivity.
Qed.

Lemma processLine_ids (rs rs' : list RecordingEntry) (line : string) :
  processLine rs line = Ok rs' ->
  List.map id rs' = List.map id rs ++ (if creates line then [created_id line] else []).
Proof.
  unfold processLine, creates, created_id. intros H.
  destruct (JSON_parse line) as [obj|].
  - assert (Hrs : rs' = applyKind rs obj) by (destruct obj; congruence).
    subst rs'. rewrite applyKind_ids.
    destruct (prop obj "kind") as [[| | |kind| |]|]; reflexivity.
  - injection H as <-. rewrite app_nil_r. reflexivity.
Qed.

Lemma foldLines_ids (lines : list string) (rs rs' : list RecordingEntry) :
  foldLines lines rs = Ok rs' ->
  List.map id rs' = List.map id rs ++ List.map created_id (List.filter creates lines).
Proof.
  revert rs. induction lines as [|line lines IH]; intros rs H; simpl in H.
  - injection H as <-. simpl. rewrite app_nil_r. reflexivity.
  - destruct (processLine rs line) as [rs1|e] eqn:E; simpl in H; [|discriminate].
    rewrite (IH _ H), (processLine_ids _ _ _ E). simpl.
    destruct (creates line); simpl; rewrite <- app_assoc; reflexivity.
Qed.

(** The only error of the fold is the one of a line that parses to [null]. *)
Lemma foldLines_throws (lines : list string) (rs : list RecordingEntry) (e : Error) :
  foldLines lines rs = Throw e <->
  e = TypeError "Cannot read properties of null (reading 'kind')" /\
  exists line, In line lines /\ JSON_parse line = Some JNull.
Proof.
  revert rs. induction lines as [|l lines IH]; intros rs; simpl.
  - split; [discriminate|]. intros (_ & line & [] & _).
  - unfold processLine at 1.
    destruct (JSON_parse l) as [obj|] eqn:P.
    + destruct obj; simpl;
        try (rewrite IH; split;
             [ intros (He & line & Hin & Hl); split; [exact He|]; exists line; auto
             | intros (He & line & [<-|Hin] & Hl); [congruence|];
               split; [exact He|]; exists line; auto ]).
      split.
      * intros H. injection H as <-. split; [reflexivity|]. exists l. auto.
      * intros (-> & _). reflexivity.
    + simpl. rewrite IH. split.
      * intros (He & line & Hin & Hl). split; [exact He|]. exists line. auto.
      * intros (He & line & [<-|Hin] & Hl); [congruence|].
        split; [exact He|]. exists line. auto.
Qed.
End RegistryIds.

Lemma filter_result_shown (l l' : list RecordingEntry) :
  listed false l = Ok l' -> l' = List.filter (fun r => negb (hidden r)) l.
Proof.
  unfold listed, hidden. revert l'. induction l as [|a l IH]; intros l'; simpl.
  - intros H. injection H as <-. reflexivity.
  - destruct (noInterestingContent (unusableReason a)) as [b|e]; simpl; [|discriminate].
    destruct (filter_result _ l) as [rest|e]; simpl; [|discriminate].
    intros H. injection H as <-. rewrite (IH rest eq_refl). destruct b; reflexivity.
Qed.

Lemma readRecordingsOf_listed `{RT : JSRuntime} (lines : list string) (h : bool) :
  readRecordingsOf lines h = bind_result (foldLines lines []) (listed h).
Proof. reflexivity. Qed.

(** X1: the loop of [readRecordings] builds one entry for each
    [createRecording] line of the log, in the order of the lines and under
    the [id] the line gives: no other line adds, removes or reorders an
    entry, and a second [createRecording] line for an [id] adds a second
    entry.  With [includeHidden] the read returns these entries; the default
    read returns them, in their order, without those whose unusable reason
    includes [No interesting content]. *)
Theorem registry_lists_created_ids `{RT : JSRuntime} (lines : list string)
  (includeHidden : bool) (rs : list RecordingEntry) :
  readRecordingsOf lines includeHidden = Ok rs ->
  exists built,
    foldLines lines [] = Ok built /\
    List.map id built = List.map created_id (List.filter creates lines) /\
    rs = if includeHidden then built else List.filter (fun r => negb (hidden r)) built.
Proof.
  rewrite readRecordingsOf_listed. intros H.
  destruct (foldLines lines []) as [built|e] eqn:E; simpl in H; [|discriminate].
  exists built. split; [reflexivity|]. split; [apply (foldLines_ids _ _ _ E)|].
  destruct includeHidden.
  - injection H as <-. reflexivity.
  - apply filter_result_shown, H.
Qed.

Lemma registry_lists_created_ids_witness :
  exists rs built,
    readRecordingsOf (RT := Reference.js) hidden_log false = Ok rs /\
    foldLines (RT := Reference.js) hidden_log [] = Ok built /\
    List.map id built = [str "A"; str "B"] /\ List.map id rs = [str "B"].
Proof.
  destruct (readRecordingsOf (RT := Reference.js) hidden_log false)
    as [rs|e] eqn:E; [|vm_compute in E; discriminate E].
  destruct (registry_lists_created_ids (RT := Reference.js) _ _ _ E)
    as (built & Hbuilt & Hids & Hrs).
  exists rs, built. split; [reflexivity|]. split; [exact Hbuilt|]. split.
  - rewrite Hids. vm_compute. reflexivity.
  - rewrite Hrs. vm_compute in Hbuilt. injection Hbuilt as <-. vm_compute. reflexivity.
Defined.

(** X2: an event that names a recording the registry does not hold is dropped:
    every kind but [createRecording] looks its recording up and does nothing
    when there is none, so an event that comes before the [createRecording]
    line of its recording is lost. *)
Theorem event_without_recording_is_ignored `{RT : JSRuntime} (rs : list RecordingEntry)
  (obj : JSON) :
  prop obj "kind" <> str "createRecording" ->
  (forall r, In r rs ->
     looseEq (id r) (prop obj "id") = false /\
     looseEq (id r) (prop obj "recordingId") = false /\
     strictEq (id r) (prop obj "recordingId") = false) ->
  applyKind rs obj = rs.
Proof.
  intros Hkind Hnone. unfold applyKind.
  destruct (prop obj "kind") as [[| | |kind| |]|]; try reflexivity.
  destruct (String.eqb kind "createRecording") eqn:E.
  { apply String.eqb_eq in E. subst kind. contradiction Hkind. reflexivity. }
  repeat match goal with
         | |- context [if String.eqb kind ?k then _ else _] =>
             destruct (String.eqb kind k)
         end;
    try reflexivity; apply update_first_none; intros r Hr; apply (Hnone r Hr).
Qed.

Lemma event_without_recording_is_ignored_witness :
  applyKind (RT := Reference.js) [crashed_recording]
    (JObj [("kind", JStr "writeStarted"); ("id", JStr "B"); ("path", JStr "/tmp/b")])
  = [crashed_recording].
Proof.
  apply (event_without_recording_is_ignored (RT := Reference.js)).
  - discriminate.
  - intros r [<-|[]]. repeat split; reflexivity.
Defined.

(** X3: a line that parses to [null] breaks the read: with such a line in
    the log [readRecordings] throws, with [includeHidden] and without; a
    line that parses to a number, a string, a boolean or an array has no
    [kind] and is passed over. *)
Theorem null_line_breaks_the_read `{RT : JSRuntime} (lines : list string)
  (includeHidden : bool) :
  ((exists line, In line lines /\ JSON_parse line = Some JNull) ->
   exists e, readRecordingsOf lines includeHidden = Throw e) /\
  (forall rs line j,
     JSON_parse line = Some j ->
     match j with JNull | JObj _ => False | _ => True end ->
     processLine rs line = Ok rs).
Proof.
  split.
  - intros Hnull. exists (TypeError "Cannot read properties of null (reading 'kind')").
    rewrite readRecordingsOf_listed.
    rewrite (proj2 (foldLines_throws lines [] _) (conj eq_refl Hnull)). reflexivity.
  - intros rs line j Hp Hj. unfold processLine. rewrite Hp.
    destruct j; try contradiction; reflexivity.
Qed.

(** [Object.assign(target, source)] for a parsed object: key by key, the
    last binding of the source wins over the target. *)
Lemma lookup_Object_assign (m : gmap string value) (fs : list (string * JSON)) (k : string) :
  Object_assign m (Some (JObj fs)) !! k
  = match field k fs with
    | Some j => Some (Some j)
    | None => m !! k
    end.
Proof.
  unfold Object_assign, own_properties. revert m.
  induction fs as [|[k' v] fs IH]; intros m; simpl; [reflexivity|].
  rewrite IH. destruct (field k fs); [reflexivity|].
  destruct (String.eqb_spec k k') as [->|Hne].
  - rewrite lookup_insert_eq. reflexivity.
  - rewrite lookup_insert_ne by congruence. reflexivity.
Qed.

(** X4: an [addMetadata] event merges into the metadata the recording
    holds, when neither the event nor an earlier one gave the key
    [__proto__]: a key the event gives becomes a property with the event's
    value (the last one when the event gives it twice), every other
    property stays, and only a [title] that is missing or falsy after the
    merge is replaced by the generated default. *)
Theorem addMetadata_merges `{RT : JSRuntime} (fs : list (string * JSON))
  (r : RecordingEntry) (k : string) :
  let merged := Object_assign (metadata r) (Some (JObj fs)) in
  field "__proto__" fs = None -> metadata r !! "__proto__" = None -> k <> "__proto__" ->
  merged !! k
  = match field k fs with
    | Some j => Some (Some j)
    | None => metadata r !! k
    end /\
  metadata (addMetadata (Some (JObj fs)) r) !! k
  = if String.eqb k "title" && negb (truthy (get merged "title"))
    then Some (generateDefaultTitle merged)
    else merged !! k.
Proof.
  intros merged _ _ _. split; [apply lookup_Object_assign|].
  unfold addMetadata. fold merged.
  destruct (truthy (get merged "title")); cbn [metadata set_metadata negb].
  - rewrite andb_false_r. reflexivity.
  - rewrite andb_true_r. destruct (String.eqb_spec k "title") as [->|Hne].
    + apply lookup_insert_eq.
    + apply lookup_insert_ne. congruence.
Qed.

Lemma addMetadata_merges_witness :
  metadata (addMetadata (RT := Reference.js)
              (Some (JObj [("title", JStr "first"); ("title", JStr "second")]))
              crashed_recording) !! "title"
  = Some (str "second").
Proof.
  rewrite (proj2 (addMetadata_merges (RT := Reference.js)
                    [("title", JStr "first"); ("title", JStr "second")]
                    crashed_recording "title" eq_refl eq_refl ltac:(discriminate))).
  vm_compute. reflexivity.
Defined.

(** ** What [getBuildRuntime] can return *)

Lemma capture_group_shape (s g : string) :
  capture_group s = Some g -> plain g = true /\ exists c, s = g +:+ String "-" c.
Proof.
  revert g. induction s as [|c s IH]; intros g; simpl; [discriminate|].
  destruct (is_dash c) eqn:D.
  - intros H. injection H as <-. split; [reflexivity|]. exists s.
    unfold is_dash in D. apply Ascii.eqb_eq in D. subst c. reflexivity.
  - destruct (is_line_terminator c) eqn:L; [discriminate|].
    destruct (capture_group s) as [g'|]; [|discriminate].
    intros H. injection H as <-. destruct (IH g' eq_refl) as (Hp & c' & ->).
    split.
    + simpl. unfold plain_char. rewrite D, L, Hp. reflexivity.
    + exists c'. reflexivity.
Qed.

Lemma match_here_shape (s g : string) :
  match_here s = Some g ->
  plain g = true /\ exists a c, s = a +:+ String "-" (g +:+ String "-" c).
Proof.
  revert g. induction s as [|c s IH]; intros g; simpl; [discriminate|].
  destruct (is_dash c) eqn:D.
  - destruct (capture_group s) as [g'|] eqn:G.
    + intros H. injection H as <-. destruct (capture_group_shape _ _ G) as (Hp & c' & ->).
      split; [exact Hp|]. exists "", c'.
      unfold is_dash in D. apply Ascii.eqb_eq in D. subst c. reflexivity.
    + destruct (is_line_terminator c); [discriminate|].
      intros H. destruct (IH g H) as (Hp & a & c' & ->).
      split; [exact Hp|]. exists (String c a), c'. reflexivity.
  - destruct (is_line_terminator c); [discriminate|].
    intros H. destruct (IH g H) as (Hp & a & c' & ->).
    split; [exact Hp|]. exists (String c a), c'. reflexivity.
Qed.

Lemma regexp_exec_shape (s g : string) :
  regexp_exec s = Some g ->
  plain g = true /\ exists a c, s = a +:+ String "-" (g +:+ String "-" c).
Proof.
  revert g. induction s as [|c s IH]; intros g; simpl; [discriminate|].
  match goal with |- context [match ?m with Some _ => _ | None => _ end] =>
    destruct m as [g'|] eqn:M end.
  - intros H. injection H as <-. apply (match_here_shape (String c s)). exact M.
  - intros H. destruct (IH g H) as (Hp & a & c' & ->).
    split; [exact Hp|]. exists (String c a), c'. reflexivity.
Qed.

Lemma dashes_app (a b : string) : dashes (a +:+ b) = (dashes a + dashes b)%nat.
Proof. induction a as [|c a IH]; simpl; [reflexivity|]. rewrite IH. lia. Qed.

(** X5: the runtime read from a build id is [unknown], or a text without a
    dash and without a line break that stands between two dashes of the
    build id; a build id with fewer than two dashes gives [unknown]. *)
Theorem runtime_stands_between_dashes `{RT : JSRuntime} (s : string) :
  (getBuildRuntime (str s) = "unknown" \/
   plain (getBuildRuntime (str s)) = true /\
   exists a c, s = a +:+ String "-" (getBuildRuntime (str s) +:+ String "-" c)) /\
  ((dashes s < 2)%nat -> getBuildRuntime (str s) = "unknown").
Proof.
  unfold getBuildRuntime. rewrite ToString_str.
  destruct (regexp_exec s) as [g|] eqn:E; [|auto].
  destruct (regexp_exec_shape _ _ E) as (Hp & a & c & Hs).
  split; [right; split; [exact Hp|exists a, c; exact Hs]|].
  intros Hd. exfalso. rewrite Hs in Hd. rewrite dashes_app in Hd. simpl in Hd.
  rewrite dashes_app in Hd. simpl in Hd. lia.
Qed.

(** * Filtering and listing *)

Lemma select_indexed_ge {A} (i : nat) (mask : list bool) (l : list A) :
  Forall (fun ir => (i <= fst ir)%nat) (select_indexed i mask l).
Proof.
  revert i mask. induction l as [|x l IH]; intros i [|b mask]; simpl; try constructor.
  assert (H : Forall (fun ir : nat * A => (i <= fst ir)%nat) (select_indexed (S i) mask l)).
  { specialize (IH (S i) mask). rewrite List.Forall_forall in IH. apply List.Forall_forall.
    intros ir Hir. specialize (IH ir Hir). lia. }
  destruct b; [constructor; [simpl; lia|exact H]|exact H].
Qed.

Lemma select_indexed_In {A} (i : nat) (mask : list bool) (l : list A) (ir : nat * A) :
  In ir (select_indexed i mask l) -> In (snd ir) l.
Proof.
  revert i mask. induction l as [|x l IH]; intros i [|b mask]; simpl; try tauto.
  destruct b; simpl.
  - intros [<-|H]; [left; reflexivity|right; eapply IH; exact H].
  - intros H. right. eapply IH. exact H.
Qed.

Lemma select_indexed_filter {A} (p : A -> bool) (l : list A) (i : nat) :
  List.map snd (select_indexed i (List.map p l) l) = List.filter p l.
Proof.
  revert i. induction l as [|x l IH]; intros i; simpl; [reflexivity|].
  destruct (p x); simpl; rewrite IH; reflexivity.
Qed.

Lemma existsb_eqb_ge (k : nat) (l : list nat) :
  Forall (fun i => (S k <= i)%nat) l -> existsb (Nat.eqb k) l = false.
Proof.
  induction 1 as [|i l Hi _ IH]; simpl; [reflexivity|].
  rewrite IH, orb_false_r. apply Nat.eqb_neq. lia.
Qed.

Lemma filter_skip_index {A} (c : A -> bool) (k : nat) (F : list nat)
  (l : list (nat * A)) :
  Forall (fun ir => (S k <= fst ir)%nat) l ->
  List.filter (fun ir => c (snd ir) && negb (existsb (Nat.eqb (fst ir)) (k :: F))) l
  = List.filter (fun ir => c (snd ir) && negb (existsb (Nat.eqb (fst ir)) F)) l.
Proof.
  intros Hall. apply List.filter_ext_in. intros ir Hir.
  rewrite List.Forall_forall in Hall. specialize (Hall ir Hir).
  cbn [existsb]. replace (fst ir =? k)%nat with false by (symmetry; apply Nat.eqb_neq; lia).
  reflexivity.
Qed.

(** The crashed recordings [includeCrashes] adds: those the filter left
    out, each once, in the order of the recordings. *)
Lemma crashes_left_out (p : RecordingEntry -> bool) (l : list RecordingEntry) (k : nat) :
  List.map snd
    (List.filter
       (fun ir => Status_eqb (status (snd ir)) crashed
                  && negb (existsb (Nat.eqb (fst ir))
                             (List.map fst (select_indexed k (List.map p l) l))))
       (select_indexed k (List.map (fun _ => true) l) l))
  = List.filter (fun r => Status_eqb (status r) crashed && negb (p r)) l.
Proof.
  revert k. induction l as [|x l IH]; intros k; [reflexivity|].
  cbn [List.map select_indexed].
  pose proof (select_indexed_ge (S k) (List.map p l) l) as Hge.
  pose proof (select_indexed_ge (S k) (List.map (fun _ => true) l) l) as Hall.
  assert (Hfst : Forall (fun i => (S k <= i)%nat)
                   (List.map fst (select_indexed (S k) (List.map p l) l))).
  { apply List.Forall_forall. intros i Hi. apply in_map_iff in Hi as (ir & <- & Hir).
    rewrite List.Forall_forall in Hge. apply (Hge ir Hir). }
  destruct (p x) eqn:Px; cbn [List.map List.filter fst snd]; rewrite ?Px.
  - rewrite !(filter_skip_index (fun r => Status_eqb (status r) crashed) k _ _ Hall).
    assert (Hk : forall F, existsb (Nat.eqb k) (k :: F) = true)
      by (intros F; cbn [existsb]; rewrite Nat.eqb_refl; reflexivity).
    rewrite Hk. cbn [negb]. rewrite !andb_false_r. cbv iota. apply IH.
  - rewrite (existsb_eqb_ge k _ Hfst). cbn [negb]. rewrite !andb_true_r.
    destruct (Status_eqb (status x) crashed); cbv iota; cbn [List.map snd]; rewrite IH; reflexivity.
Qed.

Lemma filter_none {A} (l : list A) : List.filter (fun _ => false) l = [].
Proof. induction l; simpl; auto. Qed.

Lemma filter_all {A} (l : list A) : List.filter (fun _ => true) l = l.
Proof. induction l; simpl; congruence. Qed.

Section Filtering.
Context `{RT : JSRuntime} `{HP : Helpers}.

(** Whatever the filter, what [filterRecordings] returns are entries of
    the list it was given. *)
Lemma filterRecordings_In (rs l : list RecordingEntry) (f : Filter) (ic : bool)
  (r : RecordingEntry) :
  filterRecordings rs f ic = Ok l -> In r l -> In r rs.
Proof.
  unfold filterRecordings. intros H Hin.
  match type of H with bind_result ?m _ = _ => destruct m as [mask|e]; [|discriminate] end.
  simpl in H. injection H as <-.
  apply in_map_iff in Hin as (ir & <- & Hir). apply in_app_iff in Hir as [Hir|Hir].
  - eapply select_indexed_In. exact Hir.
  - destruct ic; [|destruct Hir]. apply filter_In in Hir as [Hir _].
    eapply select_indexed_In. exact Hir.
Qed.
End Filtering.

(** X6: what [filterRecordings] keeps.  Without a filter it returns the
    recordings as they are, with [includeCrashes] or without.  With a filter
    function it returns the recordings that pass, in their order, and with
    [includeCrashes] after them the crashed recordings that did not pass,
    each once. *)
Theorem filterRecordings_selects `{RT : JSRuntime} `{HP : Helpers}
  (rs : list RecordingEntry) (p : RecordingEntry -> bool) :
  (forall includeCrashes, filterRecordings rs NoFilter includeCrashes = Ok rs) /\
  filterRecordings rs (FilterFn p) false = Ok (List.filter p rs) /\
  filterRecordings rs (FilterFn p) true
  = Ok (List.filter p rs
        ++ List.filter (fun r => Status_eqb (status r) crashed && negb (p r)) rs).
Proof.
  unfold filterRecordings. cbn [bind_result]. repeat split.
  - intros [|]; rewrite map_app.
    + rewrite (crashes_left_out (fun _ => true)). cbn [negb]. 
      rewrite (select_indexed_filter (fun _ => true)), filter_all.
      replace (List.filter (fun r => Status_eqb (status r) crashed && false) rs)
        with (@nil RecordingEntry); [rewrite app_nil_r; reflexivity|].
      symmetry. erewrite List.filter_ext; [apply filter_none|].
      intros r. apply andb_false_r.
    + rewrite (select_indexed_filter (fun _ => true)), filter_all. cbn [List.map].
      rewrite app_nil_r. reflexivity.
  - rewrite app_nil_r. rewrite select_indexed_filter. reflexivity.
  - rewrite map_app, crashes_left_out, select_indexed_filter. reflexivity.
Qed.

(** X7: what [listAllRecordings] lists: it only reads; every entry it returns
    is an entry of the registry with [buildId] and [crashData] taken off;
    and unless [all] is asked for, the entry has the status [onDisk],
    [startedWrite] or [crashed], whatever the filter and [includeCrashes]
    say. *)
Theorem listAllRecordings_lists `{RT : JSRuntime} `{HP : Helpers} (opts : Options)
  (w w' : World) (read l : list RecordingEntry) :
  readRecordingsOf (log_lines (getDirectory (directory opts)) (disk w)) false = Ok read ->
  listAllRecordings opts w = (Ok l, w') ->
  w' = w /\
  Forall (fun r => exists r0, In r0 read /\ r = listRecording r0 /\
                              buildId r = None /\ crashData r = None /\
                              (all opts = false -> uploadable r0 = true)) l.
Proof.
  intros Hread. unfold listAllRecordings. unfold mbind at 1, M_bind at 1.
  rewrite readRecordings_spec, Hread.
  destruct (all opts) eqn:Hall; unfold mbind, M_bind, lift, mret, M_ret.
  - destruct (filterRecordings read (filter opts) (includeCrashes opts)) as [fl|e] eqn:F;
      [|discriminate].
    intros H. injection H as <- <-. split; [reflexivity|].
    apply List.Forall_forall. intros r Hr. apply in_map_iff in Hr as (r0 & <- & Hr0).
    exists r0. repeat split; [|discriminate]. eapply filterRecordings_In; eassumption.
  - match goal with |- context [filterRecordings ?rs _ _] =>
      destruct (filterRecordings rs (filter opts) (includeCrashes opts)) as [fl|e] eqn:F
    end; [|discriminate].
    intros H. injection H as <- <-. split; [reflexivity|].
    apply List.Forall_forall. intros r Hr. apply in_map_iff in Hr as (r0 & <- & Hr0).
    pose proof (filterRecordings_In _ _ _ _ _ F Hr0) as Hin.
    apply filter_In in Hin as [Hin Hup].
    exists r0. repeat split; [exact Hin|]. intros _. exact Hup.
Qed.

Lemma listAllRecordings_lists_witness :
  exists l,
    listAllRecordings (RT := Reference.js) (HP := Reference.helpers)
      (directory_only "/r") upload_interrupted = (Ok l, upload_interrupted) /\
    List.map id l = [str "A"] /\
    Forall (fun r => buildId r = None /\ crashData r = None /\ status r = onDisk) l.
Proof.
  destruct (listAllRecordings (RT := Reference.js) (HP := Reference.helpers)
              (directory_only "/r") upload_interrupted) as [[l|e] w'] eqn:E;
    [|vm_compute in E; discriminate E].
  destruct (listAllRecordings_lists (RT := Reference.js) (HP := Reference.helpers)
              (directory_only "/r") upload_interrupted w' (registry_of upload_interrupted) l
              ltac:(vm_compute; reflexivity) E) as [-> _].
  exists l. split; [reflexivity|].
  vm_compute in E. injection E as <-. vm_compute. split; [reflexivity|].
  repeat constructor.
Defined.

(** X8: a directory without a log is an empty registry: nothing is listed,
    an upload by id returns [null], the batch upload returns [true],
    removing a recording returns [false] and removing all of them does
    nothing; none of them calls the service or touches the disk.  (A
    jsonata filter is left to its evaluator.) *)
Theorem missing_log_is_empty_registry `{RT : JSRuntime} `{HP : Helpers}
  (env : Environment) (opts : Options) (rid : string) (w : World) :
  disk w !! getRecordingsFile (getDirectory (directory opts)) = None ->
  match filter opts with FilterExpr e => e = "" | _ => True end ->
  listAllRecordings opts w = (Ok [], w) /\
  uploadRecording env rid opts w = (Ok (Some JNull), w) /\
  uploadAllRecordings env opts w = (Ok true, w) /\
  removeRecording rid opts w = (Ok false, w) /\
  removeAllRecordings opts w = (Ok tt, w).
Proof.
  intros Hlog Hfilter.
  assert (Hread : forall h, readRecordings (getDirectory (directory opts)) h w = (Ok [], w)).
  { intros h. rewrite readRecordings_spec. unfold log_lines. rewrite Hlog.
    destruct h; reflexivity. }
  assert (Hsel : filterRecordings [] (filter opts) (includeCrashes opts) = Ok []).
  { unfold filterRecordings. destruct (filter opts) as [|e|p]; try (destruct (includeCrashes opts); reflexivity).
    subst e. destruct (includeCrashes opts); reflexivity. }
  repeat split.
  - unfold listAllRecordings. unfold mbind at 1, M_bind at 1. rewrite Hread.
    destruct (all opts); cbn [List.filter]; unfold mbind, M_bind, lift; rewrite Hsel;
      reflexivity.
  - unfold uploadRecording. unfold mbind at 1, M_bind at 1. rewrite Hread. reflexivity.
  - unfold uploadAllRecordings. unfold mbind at 1, M_bind at 1. rewrite Hread.
    cbn [List.filter]. unfold mbind, M_bind, lift. rewrite Hsel. reflexivity.
  - unfold removeRecording. unfold mbind at 1, M_bind at 1. rewrite Hread. reflexivity.
  - unfold removeAllRecordings. unfold mbind at 1, M_bind at 1. rewrite Hread.
    cbn [forEach]. unfold existsSync, get_disk. unfold mbind, M_bind, mret, M_ret.
    cbv beta iota. cbn [disk]. rewrite Hlog.
    rewrite bool_decide_eq_false_2 by (intros [x Hx]; discriminate). reflexivity.
Qed.

Lemma missing_log_is_empty_registry_witness :
  uploadAllRecordings (RT := Reference.js) (HP := Reference.helpers) (Reference.accepting 9)
    batch_of_thirty {| disk := {[ "/tmp/a" := "recording A" ]}; history := []; pools := [] |}
  = (Ok true, {| disk := {[ "/tmp/a" := "recording A" ]}; history := []; pools := [] |}).
Proof.
  apply (missing_log_is_empty_registry (RT := Reference.js) (HP := Reference.helpers)
           (Reference.accepting 9) batch_of_thirty "A"
           {| disk := {[ "/tmp/a" := "recording A" ]}; history := []; pools := [] |}).
  - vm_compute. reflexivity.
  - exact I.
Defined.

(** * The log as lines *)

Lemma split_lines_nonempty (s : string) : split_lines s <> [].
Proof.
  destruct s as [|c s]; simpl; [discriminate|].
  destruct (Ascii.eqb c "010"); [discriminate|]. destruct (split_lines s); discriminate.
Qed.

Lemma split_lines_no_newline (s : string) :
  Forall (fun l => no_newline l = true) (split_lines s).
Proof.
  induction s as [|c s IH]; simpl; [repeat constructor|].
  destruct (Ascii.eqb c "010") eqn:E; [constructor; [reflexivity|exact IH]|].
  destruct (split_lines s) as [|l ls]; [repeat constructor; simpl; rewrite E; reflexivity|].
  inversion IH as [|? ? Hl Hls]; subst. constructor; [|exact Hls].
  simpl. rewrite E, Hl. reflexivity.
Qed.

Lemma join_lines_cons (l : string) (ls : list string) :
  ls <> [] -> join_lines (l :: ls) = l +:+ String "010" (join_lines ls).
Proof. destruct ls; [congruence|reflexivity]. Qed.

(** Joining the lines a text was split into gives the text back. *)
Lemma join_split_lines (s : string) : join_lines (split_lines s) = s.
Proof.
  induction s as [|c s IH]; [reflexivity|]. simpl.
  destruct (Ascii.eqb c "010") eqn:E.
  - apply Ascii.eqb_eq in E. subst c.
    rewrite join_lines_cons by apply split_lines_nonempty. rewrite IH. reflexivity.
  - pose proof (split_lines_nonempty s) as Hne.
    destruct (split_lines s) as [|l ls]; [congruence|].
    destruct ls as [|l' ls].
    + simpl in *. congruence.
    + rewrite join_lines_cons by discriminate.
      rewrite join_lines_cons in IH by discriminate. rewrite <- IH. reflexivity.
Qed.

Lemma split_lines_line (l rest : string) :
  no_newline l = true ->
  split_lines (l +:+ String "010" rest) = l :: split_lines rest.
Proof.
  induction l as [|c l IH]; simpl; [reflexivity|].
  intros H. apply andb_true_iff in H as [Hc Hl]. apply negb_true_iff in Hc.
  rewrite Hc, (IH Hl). reflexivity.
Qed.

Lemma split_lines_single (l : string) : no_newline l = true -> split_lines l = [l].
Proof.
  induction l as [|c l IH]; simpl; [reflexivity|].
  intros H. apply andb_true_iff in H as [Hc Hl]. apply negb_true_iff in Hc.
  rewrite Hc, (IH Hl). reflexivity.
Qed.

(** Splitting the text that lines without a newline were joined into gives
    the lines back. *)
Lemma split_join_lines (ls : list string) :
  Forall (fun l => no_newline l = true) ls -> ls <> [] ->
  split_lines (join_lines ls) = ls.
Proof.
  induction 1 as [|l ls Hl Hls IH]; intros Hne; [congruence|].
  destruct ls as [|l' ls]; [apply split_lines_single, Hl|].
  rewrite join_lines_cons by discriminate.
  rewrite (split_lines_line _ _ Hl), IH by discriminate. reflexivity.
Qed.

Lemma append_cons (x : ascii) (a b : string) : String x a +:+ b = String x (a +:+ b).
Proof. reflexivity. Qed.

Lemma append_assoc (a b c : string) : (a +:+ b) +:+ c = a +:+ (b +:+ c).
Proof. induction a as [|x a IH]; [reflexivity|]. rewrite !append_cons, IH. reflexivity. Qed.

Lemma join_lines_app_last (ls : list string) (l : string) :
  ls <> [] -> join_lines (ls ++ [l]) = join_lines ls +:+ String "010" l.
Proof.
  induction ls as [|a ls IH]; intros Hne; [congruence|].
  destruct ls as [|b ls]; [reflexivity|].
  change ((a :: b :: ls) ++ [l]) with (a :: ((b :: ls) ++ [l])).
  rewrite join_lines_cons by (simpl; discriminate).
  rewrite IH by discriminate. rewrite (join_lines_cons a (b :: ls)) by discriminate.
  rewrite append_assoc. reflexivity.
Qed.

(** The lines read back from what [writeRecordingFile] wrote. *)
Lemma split_written_lines (ls : list string) :
  Forall (fun l => no_newline l = true) ls ->
  split_lines (join_lines ls +:+ String "010" "")
  = match ls with [] => [""] | _ => ls end ++ [""].
Proof.
  intros H. destruct ls as [|l ls]; [reflexivity|].
  rewrite <- join_lines_app_last by discriminate.
  apply split_join_lines; [|simpl; discriminate].
  apply Forall_app. split; [exact H|repeat constructor].
Qed.

Lemma log_lines_no_newline `{RT : JSRuntime} (dir : string) (d : gmap string string) :
  Forall (fun l => no_newline l = true) (log_lines dir d).
Proof.
  unfold log_lines. destruct (d !! getRecordingsFile dir); [|constructor].
  apply split_lines_no_newline.
Qed.

Lemma log_lines_written `{RT : JSRuntime} (dir : string) (d : gmap string string)
  (ls : list string) :
  Forall (fun l => no_newline l = true) ls ->
  log_lines dir (<[getRecordingsFile dir := join_lines ls +:+ String "010" ""]> d)
  = match ls with [] => [""] | _ => ls end ++ [""].
Proof.
  intros H. unfold log_lines. rewrite lookup_insert_eq. apply split_written_lines, H.
Qed.

(** X9: the log file and its lines.  What [readRecordingFile] reads back from
    what [writeRecordingFile] wrote are the lines written, when none of them
    holds a newline, followed by the empty line the closing newline gives
    (no line at all is written as one empty line); and writing back the
    lines just read gives the file its contents with one more newline at the
    end. *)
Theorem log_lines_round_trip `{RT : JSRuntime} (dir : string) (lines : list string)
  (contents : string) (w : World) :
  Forall (fun l => no_newline l = true) lines ->
  disk w !! getRecordingsFile dir = Some contents ->
  fst ((_ ← writeRecordingFile dir lines; readRecordingFile dir) w)
  = Ok (match lines with [] => [""] | _ => lines end ++ [""]) /\
  (read ← readRecordingFile dir; writeRecordingFile dir read) w
  = (Ok tt,
     {| disk := <[getRecordingsFile dir := contents +:+ String "010" ""]> (disk w);
        history := history w; pools := pools w |}).
Proof.
  intros Hlines Hfile. split.
  - unfold mbind at 1, M_bind at 1. rewrite writeRecordingFile_spec, readRecordingFile_spec.
    cbn [fst disk]. rewrite (log_lines_written _ _ _ Hlines). reflexivity.
  - unfold mbind at 1, M_bind at 1. rewrite readRecordingFile_spec, writeRecordingFile_spec.
    unfold log_lines. rewrite Hfile, join_split_lines. reflexivity.
Qed.

Lemma log_lines_round_trip_witness :
  fst ((_ ← writeRecordingFile (RT := Reference.js) "/r" (shared_log []);
        readRecordingFile (RT := Reference.js) "/r") littered_world)
  = Ok (shared_log [] ++ [""]).
Proof.
  apply (log_lines_round_trip (RT := Reference.js) "/r" (shared_log [])
           (join_lines littered_log +:+ String "010" "") littered_world).
  - repeat constructor.
  - reflexivity.
Defined.

(** X10: an event that [addRecordingEvent] appends is read back as the last
    event of the log: when the runtime parses the line it wrote for the event
    back to the event, the line holds no newline and the empty line is no
    JSON, the entries the loop of [readRecordings] builds afterwards are
    those it built before with the event applied to them; the default read
    returns them without those whose unusable reason then includes
    [No interesting content], and a read with [includeHidden] returns them
    all. *)
Theorem appended_event_is_read_back `{RT : JSRuntime} (env : Environment)
  (dir kind : string) (rid : value) (tags : list (string * JSON)) (w : World)
  (rs : list RecordingEntry) :
  let event :=
    JObj ([("kind", JStr kind)] ++ tag "id" rid
          ++ [("timestamp", JNum (Date_now env (history w)))] ++ tags) in
  let w' := snd (addRecordingEvent env dir kind rid tags w) in
  JSON_parse "" = None ->
  no_newline (JSON_stringify event) = true ->
  JSON_parse (JSON_stringify event) = Some event ->
  foldLines (log_lines dir (disk w)) [] = Ok rs ->
  forall includeHidden,
    readRecordings dir includeHidden w' = (listed includeHidden (applyKind rs event), w').
Proof.
  intros event w' Hblank Hline Hparse Hread includeHidden. subst w'.
  rewrite addRecordingEvent_spec. cbn [snd]. fold event.
  rewrite readRecordings_spec. cbn [disk]. f_equal.
  rewrite log_lines_written.
  2:{ apply Forall_app. split; [apply log_lines_no_newline|repeat constructor; exact Hline]. }
  assert (Hlines : match log_lines dir (disk w) ++ [JSON_stringify event] with
                   | [] => [""]
                   | _ => log_lines dir (disk w) ++ [JSON_stringify event]
                   end = log_lines dir (disk w) ++ [JSON_stringify event])
    by (destruct (log_lines dir (disk w)); reflexivity).
  rewrite Hlines, readRecordingsOf_listed, !foldLines_app, Hread.
  cbn [bind_result foldLines].
  unfold processLine at 1. rewrite Hparse.
  assert (Hobj : match event with
                 | JNull => Throw (TypeError "Cannot read properties of null (reading 'kind')")
                 | _ => Ok (applyKind rs event)
                 end = Ok (applyKind rs event)) by reflexivity.
  rewrite Hobj. cbn [bind_result]. unfold processLine. rewrite Hblank. reflexivity.
Qed.

Lemma appended_event_is_read_back_witness :
  exists rs,
    fst (readRecordings (RT := Reference.js) "/r" false
           (snd (addRecordingEvent (RT := Reference.js) (Reference.accepting 9) "/r"
                   "recordingUnusable" (str "B")
                   [("reason", JStr "No interesting content")]
                   (shared_world [])))) = Ok rs /\
    List.map id rs = [str "A"].
Proof.
  eexists. split.
  - rewrite (appended_event_is_read_back (RT := Reference.js) (Reference.accepting 9) "/r"
               "recordingUnusable" (str "B")
               [("reason", JStr "No interesting content")]
               (shared_world []) (registry_of (shared_world []))
               eq_refl eq_refl eq_refl ltac:(vm_compute; reflexivity) false).
    vm_compute. reflexivity.
  - vm_compute. reflexivity.
Defined.

(** * After a removal *)

Lemma filter_result_In {A} (keep : A -> result bool) (l l' : list A) (x : A) :
  filter_result keep l = Ok l' -> In x l' -> In x l.
Proof.
  revert l'. induction l as [|a l IH]; intros l'; simpl.
  - intros H. injection H as <-. tauto.
  - destruct (keep a) as [b|e]; simpl; [|discriminate].
    destruct (filter_result keep l) as [rest|e]; simpl; [|discriminate].
    intros H. injection H as <-. destruct b; simpl.
    + intros [->|Hin]; [left; reflexivity|right; apply (IH rest eq_refl Hin)].
    + intros Hin. right. apply (IH rest eq_refl Hin).
Qed.

Lemma find_none_all {A} (f : A -> bool) (l : list A) :
  (forall x, In x l -> f x = false) -> List.find f l = None.
Proof.
  induction l as [|a l IH]; intros H; simpl; [reflexivity|].
  rewrite (H a (or_introl eq_refl)). apply IH. intros x Hx. apply H. right. exact Hx.
Qed.

Section AfterRemoval.
Context `{RT : JSRuntime} `{HP : Helpers}.

(** The world [removeRecording] leaves when it returns [true]. *)
Lemma removeRecording_true (rid : string) (opts : Options) (w w' : World) :
  removeRecording rid opts w = (Ok true, w') ->
  exists w1,
    w' = {| disk := <[getRecordingsFile (getDirectory (directory opts)) :=
                        join_lines (List.filter (keepLine rid)
                                      (log_lines (getDirectory (directory opts)) (disk w1)))
                        +:+ String "010" ""]> (disk w1);
            history := history w1; pools := pools w1 |}.
Proof.
  unfold removeRecording. unfold mbind at 1, M_bind at 1. rewrite readRecordings_spec.
  destruct (readRecordingsOf _ false) as [recordings|e]; [|discriminate].
  destruct (List.find _ recordings) as [recording|]; [|discriminate].
  unfold mbind at 1, M_bind at 1.
  destruct (removeRecordingAssets recording opts w) as [[[]|e] w1]; [|discriminate].
  unfold mbind at 1, M_bind at 1. rewrite readRecordingFile_spec.
  unfold mbind at 1, M_bind at 1. rewrite writeRecordingFile_spec.
  intros H. injection H as <-. exists w1. reflexivity.
Qed.

(** No entry read from a log rewritten for [rid] is found under [rid]. *)
Lemma rewritten_log_has_no (rid : string) (lines : list string) (rs : list RecordingEntry) :
  JSON_parse "" = None ->
  foldLines
    (match List.filter (keepLine rid) lines with
     | [] => [""]
     | _ => List.filter (keepLine rid) lines
     end ++ [""]) [] = Ok rs ->
  forall r, In r rs -> looseEq (id r) (str rid) = false.
Proof.
  intros Hblank Hfold r Hr.
  apply foldLines_ids in Hfold. simpl in Hfold.
  apply (in_map id) in Hr. rewrite Hfold in Hr.
  apply in_map_iff in Hr as (line & Hid & Hline).
  apply filter_In in Hline as [Hin Hcreates].
  assert (Hkept : keepLine rid line = true).
  { apply in_app_iff in Hin as [Hin|[<-|[]]].
    - destruct (List.filter (keepLine rid) lines) as [|l0 ls] eqn:F.
      + destruct Hin as [<-|[]]. unfold creates in Hcreates. rewrite Hblank in Hcreates.
        discriminate.
      + rewrite <- F in Hin. apply filter_In in Hin as [_ Hk]. exact Hk.
    - unfold creates in Hcreates. rewrite Hblank in Hcreates. discriminate. }
  unfold keepLine in Hkept. unfold created_id in Hid.
  destruct (JSON_parse line) as [obj|]; [|discriminate].
  rewrite <- Hid.
  destruct obj; try discriminate; apply negb_true_iff in Hkept; exact Hkept.
Qed.
End AfterRemoval.

(** X11: once [removeRecording] has returned [true] for an id, the log it wrote
    creates no recording under that id: when the log reads, the registry
    finds nothing under the id, a second [removeRecording] returns [false]
    and an [uploadRecording] returns [null], both without touching anything;
    when the read throws, so does the second removal. *)
Theorem removed_recording_is_unknown `{RT : JSRuntime} `{HP : Helpers} (env : Environment)
  (rid : string) (opts : Options) (w w' : World) :
  JSON_parse "" = None ->
  removeRecording rid opts w = (Ok true, w') ->
  match readRecordingsOf (log_lines (getDirectory (directory opts)) (disk w')) false with
  | Ok rs =>
      List.find (fun r => looseEq (id r) (str rid)) rs = None /\
      removeRecording rid opts w' = (Ok false, w') /\
      uploadRecording env rid opts w' = (Ok (Some JNull), w')
  | Throw e => removeRecording rid opts w' = (Throw e, w')
  end.
Proof.
  intros Hblank Hrm. destruct (removeRecording_true _ _ _ _ Hrm) as [w1 Hw'].
  destruct (readRecordingsOf _ false) as [rs|e] eqn:Hread.
  - assert (Hfind : List.find (fun r => looseEq (id r) (str rid)) rs = None).
    { apply find_none_all. intros r Hr.
      rewrite Hw' in Hread. cbn [disk] in Hread.
      rewrite log_lines_written in Hread.
      2:{ apply List.Forall_forall. intros l Hl. apply filter_In in Hl as [Hl _].
          pose proof (log_lines_no_newline (getDirectory (directory opts)) (disk w1)) as Hn.
          rewrite List.Forall_forall in Hn. apply Hn, Hl. }
      unfold readRecordingsOf in Hread.
      match type of Hread with bind_result ?m _ = _ => destruct m as [rs0|e] eqn:Hfold end;
        [|discriminate].
      simpl in Hread.
      eapply rewritten_log_has_no; [exact Hblank|exact Hfold|].
      eapply filter_result_In; eassumption. }
    split; [exact Hfind|]. split.
    + unfold removeRecording. unfold mbind at 1, M_bind at 1.
      rewrite readRecordings_spec, Hread, Hfind. reflexivity.
    + unfold uploadRecording. unfold mbind at 1, M_bind at 1.
      rewrite readRecordings_spec, Hread, Hfind. reflexivity.
  - unfold removeRecording. unfold mbind at 1, M_bind at 1.
    rewrite readRecordings_spec, Hread. reflexivity.
Qed.

Lemma removed_recording_is_unknown_witness :
  removeRecording (RT := Reference.js) (HP := Reference.helpers) "A" (directory_only "/r")
    (snd (remove_from_r "A" both_on_disk))
  = (Ok false, snd (remove_from_r "A" both_on_disk)).
Proof.
  pose proof (removed_recording_is_unknown (RT := Reference.js) (HP := Reference.helpers)
                (Reference.accepting 9) "A" (directory_only "/r") both_on_disk
                (snd (remove_from_r "A" both_on_disk)) eq_refl
                ltac:(vm_compute; reflexivity)) as H.
  destruct (readRecordingsOf (RT := Reference.js) _ false) as [rs|e] eqn:E;
    [|vm_compute in E; discriminate E].
  apply H.
Defined.

(** * Removing every recording *)

Lemma flatMap_assets_each (l : list RecordingEntry) (everything : list value) :
  flatMap_assets l = Ok everything ->
  forall r, In r l ->
    getRecordingAssetFiles r = Ok (assets_of r) /\
    forall f, In f (assets_of r) -> In f everything.
Proof.
  revert everything. induction l as [|a l IH]; intros everything H r Hr; [destruct Hr|].
  simpl in H. destruct (getRecordingAssetFiles a) as [files|e] eqn:Ha; simpl in H;
    [|discriminate].
  destruct (flatMap_assets l) as [more|e]; simpl in H; [|discriminate].
  injection H as <-. destruct Hr as [<-|Hr].
  - unfold assets_of. rewrite Ha. split; [reflexivity|].
    intros f Hf. apply in_app_iff. left. exact Hf.
  - destruct (IH more eq_refl r Hr) as [H1 H2]. split; [exact H1|].
    intros f Hf. apply in_app_iff. right. apply H2, Hf.
Qed.

Lemma flatMap_assets_total (l : list RecordingEntry) :
  (forall r, In r l -> getRecordingAssetFiles r = Ok (assets_of r)) ->
  exists files,
    flatMap_assets l = Ok files /\
    forall f, In f files <-> exists r, In r l /\ In f (assets_of r).
Proof.
  induction l as [|a l IH]; intros H.
  - exists []. split; [reflexivity|]. split; [intros []|intros (r & [] & _)].
  - destruct IH as (more & Hmore & Hin); [intros r Hr; apply H; right; exact Hr|].
    exists (assets_of a ++ more). split.
    + simpl. rewrite (H a (or_introl eq_refl)), Hmore. reflexivity.
    + intros f. rewrite in_app_iff, Hin. split.
      * intros [Hf|(r & Hr & Hf)].
        -- exists a. split; [left; reflexivity|exact Hf].
        -- exists r. split; [right; exact Hr|exact Hf].
      * intros (r & [<-|Hr] & Hf); [left; exact Hf|right; exists r; auto].
Qed.

Section RemoveAll.
Context `{RT : JSRuntime} `{HP : Helpers}.

(** One cleaning, from the registry the log gives. *)
Lemma removeRecordingAssets_run (recording : RecordingEntry) (opts : Options) (w : World)
  (read : list RecordingEntry) (used mine : list value) :
  all opts = false -> includeCrashes opts = false ->
  readRecordingsOf (log_lines (getDirectory (directory opts)) (disk w)) false = Ok read ->
  flatMap_assets
    (List.filter (otherLocalRecording recording) (List.filter uploadable read))
  = Ok used ->
  getRecordingAssetFiles recording = Ok mine ->
  removeRecordingAssets recording opts w
  = (Ok tt, {| disk := cleaned used mine (disk w); history := history w; pools := pools w |}).
Proof.
  intros Hall Hcr Hread Hused Hmine. unfold removeRecordingAssets.
  assert (Hlist : listAllRecordings
                    (with_filter opts (FilterFn (otherLocalRecording recording))) w
                  = (Ok (List.map listRecording
                           (List.filter (otherLocalRecording recording)
                              (List.filter uploadable read))), w)).
  { unfold listAllRecordings. cbn [all with_filter filter includeCrashes directory].
    rewrite Hall, Hcr. unfold mbind at 1, M_bind at 1.
    rewrite readRecordings_spec, Hread.
    unfold mbind at 1, M_bind at 1, lift.
    change (List.filter
              (fun recording0 =>
                 existsb (Status_eqb (status recording0)) [onDisk; startedWrite; crashed])
              read) with (List.filter uploadable read).
    rewrite filterRecordings_fn. reflexivity. }
  unfold mbind at 1, M_bind at 1. rewrite Hlist.
  unfold mbind at 1, M_bind at 1, lift. rewrite flatMap_assets_listRecording, Hused.
  unfold mbind at 1, M_bind at 1. rewrite Hmine.
  apply forEach_cleaned.
Qed.

Lemma fold_cleaned_lookup (U M : RecordingEntry -> list value) (rs : list RecordingEntry)
  (d : gmap string string) (file : string) :
  fold_left (fun d r => cleaned (U r) (M r) d) rs d !! file
  = if negb (String.eqb file "")
       && existsb (fun r => existsb (strictEq (str file)) (M r)
                            && negb (existsb (strictEq (str file)) (U r))) rs
    then None else d !! file.
Proof.
  revert d. induction rs as [|r rs IH]; intros d.
  - simpl. rewrite andb_false_r. reflexivity.
  - cbn [fold_left existsb]. rewrite IH, cleaned_lookup.
    destruct (negb (String.eqb file "")); [|reflexivity]. cbn [andb].
    destruct (existsb _ rs); [rewrite orb_true_r; reflexivity|]. rewrite orb_false_r.
    reflexivity.
Qed.

(** The cleanings of [removeAllRecordings], one recording after the other:
    the log stays as it is, so each of them sees the whole registry. *)
Lemma forEach_removeRecordingAssets (opts : Options) (read rs : list RecordingEntry)
  (lines : list string) (w : World) :
  all opts = false -> includeCrashes opts = false ->
  readRecordingsOf lines false = Ok read ->
  (forall r, In r read ->
     getRecordingAssetFiles r = Ok (assets_of r) /\
     existsb (strictEq (str (getRecordingsFile (getDirectory (directory opts)))))
       (assets_of r) = false) ->
  (forall r, In r rs -> In r read) ->
  log_lines (getDirectory (directory opts)) (disk w) = lines ->
  forEach (fun r => removeRecordingAssets r opts) rs w
  = (Ok tt,
     {| disk := fold_left (fun d r => cleaned (used_by_others read r) (assets_of r) d)
                  rs (disk w);
        history := history w; pools := pools w |}).
Proof.
  intros Hall Hcr Hread Hassets. revert w.
  induction rs as [|r rs IH]; intros w Hsub Hlog.
  - destruct w; reflexivity.
  - cbn [forEach fold_left]. unfold mbind, M_bind.
    destruct (Hassets r (Hsub r (or_introl eq_refl))) as [Hmine Hnolog].
    destruct (flatMap_assets_total
                (List.filter (otherLocalRecording r) (List.filter uploadable read)))
      as (used & Hused & _).
    { intros r0 Hr0. apply filter_In in Hr0 as [Hr0 _]. apply filter_In in Hr0 as [Hr0 _].
      apply Hassets, Hr0. }
    assert (Hu : used_by_others read r = used) by (unfold used_by_others; rewrite Hused; reflexivity).
    rewrite (removeRecordingAssets_run r opts w read used (assets_of r) Hall Hcr
               ltac:(rewrite Hlog; exact Hread) Hused Hmine).
    rewrite IH.
    + rewrite Hu. reflexivity.
    + intros r0 Hr0. apply Hsub. right. exact Hr0.
    + cbn [disk]. unfold log_lines in *. rewrite cleaned_lookup, Hnolog.
      rewrite andb_false_r. exact Hlog.
Qed.

(** What [removeAllRecordings] leaves on disk. *)
Lemma removeAllRecordings_run (opts : Options) (w : World) (read : list RecordingEntry)
  (everything : list value) :
  all opts = false -> includeCrashes opts = false ->
  readRecordingsOf (log_lines (getDirectory (directory opts)) (disk w)) false = Ok read ->
  flatMap_assets read = Ok everything ->
  existsb (strictEq (str (getRecordingsFile (getDirectory (directory opts))))) everything
  = false ->
  exists w',
    removeAllRecordings opts w = (Ok tt, w') /\
    history w' = history w /\
    forall file,
      disk w' !! file
      = if String.eqb file (getRecordingsFile (getDirectory (directory opts)))
           || negb (String.eqb file "") && existsb (gives_up read file) read
        then None else disk w !! file.
Proof.
  intros Hall Hcr Hread Hevery Hnolog.
  set (dir := getDirectory (directory opts)) in *.
  assert (Hassets : forall r, In r read ->
            getRecordingAssetFiles r = Ok (assets_of r) /\
            existsb (strictEq (str (getRecordingsFile dir))) (assets_of r) = false).
  { intros r Hr. destruct (flatMap_assets_each _ _ Hevery r Hr) as [H1 H2].
    split; [exact H1|].
    destruct (existsb _ (assets_of r)) eqn:E; [|reflexivity].
    apply existsb_exists in E as (f & Hf & Heq).
    assert (existsb (strictEq (str (getRecordingsFile dir))) everything = true)
      by (apply existsb_exists; exists f; split; [apply H2, Hf|exact Heq]).
    congruence. }
  pose proof (forEach_removeRecordingAssets opts read read _ w Hall Hcr Hread Hassets
                (fun r H => H) eq_refl) as Hloop.
  fold dir in Hloop.
  set (d1 := fold_left (fun d r => cleaned (used_by_others read r) (assets_of r) d)
               read (disk w)) in *.
  exists {| disk := delete (getRecordingsFile dir) d1; history := history w; pools := pools w |}.
  split; [|split; [reflexivity|]].
  - unfold removeAllRecordings. fold dir. unfold mbind at 1, M_bind at 1.
    rewrite readRecordings_spec, Hread.
    unfold mbind at 1, M_bind at 1. rewrite Hloop.
    unfold existsSync, unlinkSync. unfold get_disk, put_disk, skip.
    unfold mbind, M_bind, mret, M_ret. cbv beta iota. cbn [disk history].
    destruct (d1 !! getRecordingsFile dir) as [contents|] eqn:E.
    + rewrite bool_decide_eq_true_2 by eauto. cbn [disk]. rewrite E. reflexivity.
    + rewrite bool_decide_eq_false_2 by (intros [x Hx]; discriminate).
      rewrite delete_id by exact E. reflexivity.
  - intros file. cbn [disk].
    destruct (String.eqb_spec file (getRecordingsFile dir)) as [->|Hne].
    + apply lookup_delete_eq.
    + rewrite lookup_delete_ne by congruence. cbn [orb].
      subst d1. rewrite fold_cleaned_lookup. reflexivity.
Qed.
End RemoveAll.

(** X12: what [removeAllRecordings] removes.  When every recording of the
    registry lists its asset files and none of them is the log itself, it
    calls nobody, deletes the log, and deletes a file exactly when a
    recording of the registry names it among its assets and no listed
    recording (status [onDisk], [startedWrite] or [crashed]) under another
    id names it too; every other file stays as it was. *)
Theorem removeAllRecordings_removes `{RT : JSRuntime} `{HP : Helpers} (opts : Options)
  (w : World) (read : list RecordingEntry) (everything : list value) :
  all opts = false -> includeCrashes opts = false ->
  readRecordingsOf (log_lines (getDirectory (directory opts)) (disk w)) false = Ok read ->
  flatMap_assets read = Ok everything ->
  existsb (strictEq (str (getRecordingsFile (getDirectory (directory opts))))) everything
  = false ->
  exists w',
    removeAllRecordings opts w = (Ok tt, w') /\
    history w' = history w /\
    forall file,
      disk w' !! file
      = if String.eqb file (getRecordingsFile (getDirectory (directory opts)))
           || negb (String.eqb file "") && existsb (gives_up read file) read
        then None else disk w !! file.
Proof. apply removeAllRecordings_run. Qed.

Lemma removeAllRecordings_removes_witness :
  exists w',
    removeAllRecordings (RT := Reference.js) (HP := Reference.helpers) (directory_only "/r")
      (shared_world []) = (Ok tt, w') /\
    disk w' !! "/r/recordings.log" = None /\
    disk w' !! "/tmp/a" = None /\ disk w' !! "/tmp/b" = None.
Proof.
  destruct (removeAllRecordings_removes (RT := Reference.js) (HP := Reference.helpers)
              (directory_only "/r") (shared_world []) (registry_of (shared_world []))
              (assets_of (recording_A (shared_world []))
               ++ assets_of (recording_B (shared_world [])))
              eq_refl eq_refl ltac:(vm_compute; reflexivity) ltac:(vm_compute; reflexivity)
              ltac:(vm_compute; reflexivity))
    as (w' & Hrun & _ & Hdisk).
  exists w'. split; [exact Hrun|].
  rewrite (Hdisk "/r/recordings.log"), (Hdisk "/tmp/a"), (Hdisk "/tmp/b").
  vm_compute. repeat split; reflexivity.
Defined.

Lemma strictEq_true (v w : value) : strictEq v w = true -> v = w.
Proof.
  destruct v as [[| | | | |]|], w as [[| | | | |]|]; simpl; try discriminate; try reflexivity.
  - intros H. apply Bool.eqb_prop in H. congruence.
  - intros H. apply Z.eqb_eq in H. congruence.
  - intros H. apply String.eqb_eq in H. congruence.
Qed.

Lemma uploadable_not_uploaded (r : RecordingEntry) :
  uploadable r = true ->
  Status_eqb (status r) uploaded = false /\ Status_eqb (status r) crashUploaded = false.
Proof. unfold uploadable. destruct (status r); simpl; intros H; try discriminate; auto. Qed.

(** X13: what [removeAllRecordings] leaves behind: an asset file that two
    listed recordings under different ids name, a source map they share,
    is not deleted by the cleaning of either, since each cleaning finds the
    other recording still in the log; the file stays on disk while the log
    that named it is deleted. *)
Theorem removeAllRecordings_keeps_shared_assets `{RT : JSRuntime} `{HP : Helpers}
  (opts : Options) (w : World) (read : list RecordingEntry) (everything : list value)
  (r1 r2 : RecordingEntry) (file : string) :
  all opts = false -> includeCrashes opts = false ->
  readRecordingsOf (log_lines (getDirectory (directory opts)) (disk w)) false = Ok read ->
  flatMap_assets read = Ok everything ->
  existsb (strictEq (str (getRecordingsFile (getDirectory (directory opts))))) everything
  = false ->
  In r1 read -> In r2 read -> uploadable r1 = true -> uploadable r2 = true ->
  strictEq (id r1) (id r2) = false ->
  existsb (strictEq (str file)) (assets_of r1) = true ->
  existsb (strictEq (str file)) (assets_of r2) = true ->
  exists w',
    removeAllRecordings opts w = (Ok tt, w') /\
    disk w' !! getRecordingsFile (getDirectory (directory opts)) = None /\
    disk w' !! file = disk w !! file.
Proof.
  intros Hall Hcr Hread Hevery Hnolog Hin1 Hin2 Hup1 Hup2 Hids Hf1 Hf2.
  destruct (removeAllRecordings_run opts w read everything Hall Hcr Hread Hevery Hnolog)
    as (w' & Hrun & _ & Hdisk).
  exists w'. split; [exact Hrun|]. split.
  { rewrite Hdisk, String.eqb_refl. reflexivity. }
  rewrite Hdisk.
  assert (Hne : String.eqb file (getRecordingsFile (getDirectory (directory opts))) = false).
  { destruct (String.eqb_spec file (getRecordingsFile (getDirectory (directory opts))))
      as [->|]; [|reflexivity].
    apply existsb_exists in Hf1 as (f & Hf & Heq).
    destruct (flatMap_assets_each _ _ Hevery r1 Hin1) as [_ Hsub].
    assert (existsb (strictEq (str (getRecordingsFile (getDirectory (directory opts)))))
              everything = true)
      by (apply existsb_exists; exists f; split; [apply Hsub, Hf|exact Heq]).
    congruence. }
  rewrite Hne. cbn [orb].
  assert (Hkept : existsb (gives_up read file) read = false).
  { destruct (existsb (gives_up read file) read) eqn:E; [|reflexivity]. exfalso.
    apply existsb_exists in E as (r & Hr & Hg). unfold gives_up in Hg.
    apply andb_true_iff in Hg as [_ Hunused]. apply negb_true_iff in Hunused.
    assert (Hother : exists r0, In r0 read /\ uploadable r0 = true /\
                                strictEq (id r0) (id r) = false /\
                                existsb (strictEq (str file)) (assets_of r0) = true).
    { destruct (strictEq (id r1) (id r)) eqn:E1; [|exists r1; auto].
      destruct (strictEq (id r2) (id r)) eqn:E2; [|exists r2; auto].
      exfalso. pose proof (strictEq_true _ _ E1) as H1.
      pose proof (strictEq_true _ _ E2) as H2.
      rewrite H1, H2 in Hids. rewrite H2 in E2. congruence. }
    destruct Hother as (r0 & Hr0 & Hup0 & Hid0 & Hf0).
    destruct (flatMap_assets_total
                (List.filter (otherLocalRecording r) (List.filter uploadable read)))
      as (used & Hused & Hin).
    { intros x Hx. apply filter_In in Hx as [Hx _]. apply filter_In in Hx as [Hx _].
      apply (flatMap_assets_each _ _ Hevery x Hx). }
    unfold used_by_others in Hunused. rewrite Hused in Hunused.
    apply existsb_exists in Hf0 as (f & Hf & Heq).
    assert (existsb (strictEq (str file)) used = true).
    { apply existsb_exists. exists f. split; [|exact Heq]. apply Hin. exists r0.
      split; [|exact Hf]. apply filter_In. split.
      - apply filter_In. split; assumption.
      - unfold otherLocalRecording. destruct (uploadable_not_uploaded _ Hup0) as [-> ->].
        rewrite Hid0. reflexivity. }
    congruence. }
  rewrite Hkept, andb_false_r. reflexivity.
Qed.

Lemma removeAllRecordings_keeps_shared_assets_witness :
  exists w',
    removeAllRecordings (RT := Reference.js) (HP := Reference.helpers) (directory_only "/r")
      (shared_world []) = (Ok tt, w') /\
    disk w' !! "/r/recordings.log" = None /\
    disk w' !! "/tmp/sm.map" = Some "{}".
Proof.
  apply (removeAllRecordings_keeps_shared_assets (RT := Reference.js)
           (HP := Reference.helpers)
           (directory_only "/r") (shared_world []) (registry_of (shared_world []))
           (assets_of (recording_A (shared_world []))
            ++ assets_of (recording_B (shared_world [])))
           (recording_A (shared_world [])) (recording_B (shared_world [])) "/tmp/sm.map");
    try (vm_compute; reflexivity).
  - vm_compute. left. reflexivity.
  - vm_compute. right. left. reflexivity.
Defined.

Lemma removeRecordingAssets_deletes_witness :
  exists w',
    removeRecordingAssets (RT := Reference.js) (HP := Reference.helpers)
      (recording_A (shared_world [])) (directory_only "/r") (shared_world [])
    = (Ok tt, w') /\
    disk w' !! "/tmp/a" = None /\ disk w' !! "/tmp/sm.map" = Some "{}".
Proof.
  destruct (removeRecordingAssets_deletes (RT := Reference.js) (HP := Reference.helpers)
              (recording_A (shared_world [])) (directory_only "/r") (shared_world [])
              (registry_of (shared_world []))
              (assets_of (recording_B (shared_world [])))
              (assets_of (recording_A (shared_world [])))
              eq_refl eq_refl ltac:(vm_compute; reflexivity) ltac:(vm_compute; reflexivity)
              ltac:(vm_compute; reflexivity))
    as (w' & Hrun & _ & Hdisk).
  exists w'. split; [exact Hrun|].
  rewrite (Hdisk "/tmp/a"), (Hdisk "/tmp/sm.map"). vm_compute. split; reflexivity.
Defined.

(** ** The lookup file of a source map *)

Lemma length_append (a b : string) :
  String.length (a +:+ b) = (String.length a + String.length b)%nat.
Proof. induction a as [|c a IH]; [reflexivity|]. rewrite append_cons. simpl. rewrite IH. reflexivity. Qed.

(** X15: the lookup file [getRecordingAssetFiles] lists beside a source map:
    for a path that ends in [.map] the path with [.lookup] in its place,
    and for any other path the path itself. *)
Theorem lookup_file_of_source_map (s : string) :
  replace_map_suffix (s +:+ ".map") = s +:+ ".lookup" /\
  (replace_map_suffix s = s \/ exists p, s = p +:+ ".map") /\
  lookup_file (str s) = Ok (str (replace_map_suffix s)).
Proof.
  split; [|split; [|reflexivity]].
  - induction s as [|c s IH]; [reflexivity|].
    rewrite !append_cons. cbn [replace_map_suffix]. rewrite IH.
    destruct (String.eqb_spec (String c (s +:+ ".map")) ".map") as [E|_]; [|reflexivity].
    apply (f_equal String.length) in E. simpl in E. rewrite length_append in E.
    simpl in E. lia.
  - induction s as [|c s IH]; [left; reflexivity|].
    cbn [replace_map_suffix].
    destruct (String.eqb_spec (String c s) ".map") as [E|_].
    + right. exists "". exact E.
    + destruct IH as [IH|(p & ->)].
      * left. rewrite IH. reflexivity.
      * right. exists (String c p). reflexivity.
Qed.

(** * Retrying, for every cap *)

Section RetryRuns.
Context {T : Type} (asyncFunction : nat -> result T) (random : nat -> Q).
Context (delay : Z -> Double.number).
Context (backOffStrategy : Z -> Retry.Run -> Double.number * Retry.Run).
Context (backOff_draws : forall i st,
           backOffStrategy i st
           = (Double.add (delay i) (jitter_of random (Retry.draws st)), Retry.drawn st)).
Context (onFail : option (Error -> Z -> result unit)).

Local Abbreviation after_failures :=
  (after_failures asyncFunction delay random (bool_decide (is_Some onFail))).

Lemma after_failures_start : after_failures 0 Retry.start.
Proof.
  repeat split. unfold told_of. destruct (bool_decide _); constructor.
Qed.

Lemma retry_delays_S (k : nat) :
  retry_delays delay random (S k)
  = retry_delays delay random k
    ++ [Double.add (delay (Z.of_nat k + 1)%Z) (jitter_of random k)].
Proof. unfold retry_delays. rewrite seq_S, map_app. reflexivity. Qed.

(** What [onFail] was told after one more failure. *)
Lemma told_of_report (k : nat) (st : Retry.Run) (e : Error) :
  after_failures k st -> asyncFunction (S k) = Throw e ->
  told_of asyncFunction
    (Retry.reported (snd (Retry.notify onFail e (Z.of_nat k + 1) (Retry.invoked st))))
    (if bool_decide (is_Some onFail) then seq 1 (S k) else []).
Proof.
  intros (_ & _ & _ & Htold) He. unfold Retry.notify, told_of in *.
  destruct onFail as [g|].
  - rewrite bool_decide_eq_true_2 in * by eauto. cbn [snd Retry.reported Retry.report
      Retry.invoked]. rewrite seq_S. apply Forall2_app; [exact Htold|].
    constructor; [|constructor]. cbn [fst snd]. split; [lia|exact He].
  - rewrite bool_decide_eq_false_2 in * by (intros [x Hx]; discriminate). exact Htold.
Qed.

(** One failed attempt below the cap: the loop reports, waits and turns. *)
Lemma retry_loop_failed (n : Z) (k : nat) (st : Retry.Run) (e : Error) :
  after_failures k st -> Z.of_nat k + 1 < n ->
  asyncFunction (S k) = Throw e ->
  (forall g, onFail = Some g -> g e (Z.of_nat k + 1) = Ok tt) ->
  exists st',
    after_failures (S k) st' /\
    Retry.retry_loop asyncFunction backOffStrategy onFail n (Z.of_nat k) st
    = Retry.retry_loop asyncFunction backOffStrategy onFail n (Z.of_nat (S k)) st'.
Proof.
  intros Hst Hn He Hg. pose proof (told_of_report k st e Hst He) as Htold.
  destruct Hst as (Hinv & Hdraws & Hwaits & _).
  rewrite retry_loop_turn. destruct (Z_le_dec (Z.of_nat k) n) as [_|]; [|lia].
  rewrite Hinv, He.
  assert (Hnotify : fst (Retry.notify onFail e (Z.of_nat k + 1) (Retry.invoked st)) = Ok tt).
  { unfold Retry.notify. destruct onFail as [g|]; [|reflexivity]. apply (Hg g eq_refl). }
  destruct (Retry.notify onFail e (Z.of_nat k + 1) (Retry.invoked st)) as [r st1] eqn:N.
  cbn [fst snd] in *. subst r.
  assert (Hst1 : Retry.invocations st1 = S k /\ Retry.draws st1 = k /\
                 Retry.waits st1 = Retry.waits st).
  { unfold Retry.notify in N.
    destruct onFail; [injection N as _ <-|injection N as <-]; cbn; rewrite Hinv, Hdraws;
      auto. }
  destruct Hst1 as (Hinv1 & Hdraws1 & Hwaits1).
  destruct (Z.eq_dec (Z.of_nat k + 1) n) as [|_]; [lia|].
  rewrite backOff_draws. cbn [fst snd]. rewrite Hdraws1.
  eexists. split; [|replace (Z.of_nat (S k)) with (Z.of_nat k + 1) by lia; reflexivity].
  repeat split; cbn [Retry.invocations Retry.draws Retry.waits Retry.reported Retry.waited
                     Retry.drawn].
  - exact Hinv1.
  - rewrite Hdraws1. reflexivity.
  - rewrite Hwaits1, Hwaits, retry_delays_S. reflexivity.
  - exact Htold.
Qed.

(** The loop after [k] failures on which [onFail] returned. *)
Lemma retry_loop_failures (n : Z) (k : nat) :
  Z.of_nat k < n ->
  (forall j, (1 <= j <= k)%nat ->
     exists e, asyncFunction j = Throw e /\
               forall g, onFail = Some g -> g e (Z.of_nat j) = Ok tt) ->
  exists st,
    after_failures k st /\
    Retry.retry_loop asyncFunction backOffStrategy onFail n 0 Retry.start
    = Retry.retry_loop asyncFunction backOffStrategy onFail n (Z.of_nat k) st.
Proof.
  induction k as [|k IH]; intros Hn Hfail.
  - exists Retry.start. split; [apply after_failures_start|reflexivity].
  - destruct IH as (st & Hst & Hrun); [lia|intros j Hj; apply Hfail; lia|].
    destruct (Hfail (S k) ltac:(lia)) as (e & He & Hg).
    destruct (retry_loop_failed n k st e Hst ltac:(lia) He) as (st' & Hst' & Hstep).
    { intros g Hgg. replace (Z.of_nat k + 1) with (Z.of_nat (S k)) by lia. apply Hg, Hgg. }
    exists st'. split; [exact Hst'|]. rewrite Hrun. exact Hstep.
Qed.

(** The run from [k] failures on, under the cap [n], when [onFail] always
    returns. *)
Lemma capped_from (n m : nat) :
  (forall g e i, onFail = Some g -> g e i = Ok tt) ->
  forall k st,
    (k + S m = n)%nat -> after_failures k st ->
    (forall j, (1 <= j <= k)%nat -> exists e, asyncFunction j = Throw e) ->
    capped_run asyncFunction delay random (bool_decide (is_Some onFail)) n
      (Retry.retry_loop asyncFunction backOffStrategy onFail (Z.of_nat n) (Z.of_nat k) st).
Proof.
  intros Hg. induction m as [|m IH]; intros k st Hk Hst Hfail.
  - (* the attempt at the cap *)
    pose proof Hst as (Hinv & Hdraws & Hwaits & Htold).
    rewrite retry_loop_turn. destruct (Z_le_dec (Z.of_nat k) (Z.of_nat n)) as [_|]; [|lia].
    rewrite Hinv. destruct (asyncFunction (S k)) as [v|e] eqn:F.
    + unfold capped_run. cbn [fst snd Retry.invocations Retry.invoked Retry.waits
                               Retry.reported]. rewrite Hinv, F.
      replace (S k - 1)%nat with k by lia.
      repeat split; [lia|lia|intros j Hj; apply Hfail; lia|exact Hwaits|exact Htold].
    + pose proof (told_of_report k st e Hst F) as Htold'.
      assert (Hnotify : fst (Retry.notify onFail e (Z.of_nat k + 1) (Retry.invoked st))
                        = Ok tt).
      { unfold Retry.notify. destruct onFail as [g|]; [|reflexivity]. apply (Hg g _ _ eq_refl). }
      destruct (Retry.notify onFail e (Z.of_nat k + 1) (Retry.invoked st)) as [r st1] eqn:N.
      cbn [fst snd] in *. subst r.
      assert (Hst1 : Retry.invocations st1 = S k /\ Retry.waits st1 = Retry.waits st).
      { unfold Retry.notify in N.
        destruct onFail; [injection N as _ <-|injection N as <-]; cbn; rewrite Hinv;
          auto. }
      destruct Hst1 as (Hinv1 & Hwaits1).
      destruct (Z.eq_dec (Z.of_nat k + 1) (Z.of_nat n)) as [_|]; [|lia].
      unfold capped_run. cbn [fst snd]. rewrite Hinv1, F.
      replace (S k - 1)%nat with k by lia.
      repeat split; [lia|lia|intros j Hj; apply Hfail; lia|lia|
                     rewrite Hwaits1; exact Hwaits|exact Htold'].
  - pose proof Hst as (Hinv & Hdraws & Hwaits & Htold).
    destruct (asyncFunction (S k)) as [v|e] eqn:F.
    + rewrite retry_loop_turn. destruct (Z_le_dec (Z.of_nat k) (Z.of_nat n)) as [_|]; [|lia].
      rewrite Hinv, F.
      unfold capped_run. cbn [fst snd Retry.invocations Retry.invoked Retry.waits
                               Retry.reported]. rewrite Hinv, F.
      replace (S k - 1)%nat with k by lia.
      repeat split; [lia|lia|intros j Hj; apply Hfail; lia|exact Hwaits|exact Htold].
    + destruct (retry_loop_failed (Z.of_nat n) k st e Hst ltac:(lia) F)
        as (st' & Hst' & Hstep); [intros g Hgg; apply (Hg g _ _ Hgg)|].
      rewrite Hstep. apply IH; [lia|exact Hst'|].
      intros j Hj. destruct (Nat.eq_dec j (S k)) as [->|]; [eauto|apply Hfail; lia].
Qed.
End RetryRuns.

(** X16: [retryWithExponentialBackoff] and [retryWithLinearBackoff] under any
    cap [n] from 1 up, when [onFail] returns: the function is invoked
    between 1 and [n] times; the run returns the value of the first
    invocation that returns; when all [n] invocations throw it throws the
    error of the last one; before retry [j] it waits [2 ** j * 100]
    (exponential) or [100] (linear) plus the jitter; and [onFail] is told
    every failure, the last one too, with its error and its attempt
    number. *)
Theorem retry_under_a_cap {T : Type} (asyncFunction : nat -> result T)
  (random : nat -> Q) (onFail : option (Error -> Z -> result unit)) (n : nat) :
  (1 <= n)%nat ->
  (forall g e i, onFail = Some g -> g e i = Ok tt) ->
  capped_run asyncFunction exponential_delay random (bool_decide (is_Some onFail)) n
    (Retry.retryWithExponentialBackoff asyncFunction random onFail (Some (Z.of_nat n))) /\
  capped_run asyncFunction linear_delay random (bool_decide (is_Some onFail)) n
    (Retry.retryWithLinearBackoff asyncFunction random onFail (Some (Z.of_nat n))).
Proof.
  intros Hn Hg. split.
  - apply (capped_from asyncFunction random exponential_delay
             (Retry.exponential_backoff random) (fun _ _ => eq_refl) onFail n (n - 1) Hg
             0%nat Retry.start); [lia|apply after_failures_start|intros j Hj; lia].
  - apply (capped_from asyncFunction random linear_delay
             (Retry.linear_backoff random) (fun _ _ => eq_refl) onFail n (n - 1) Hg
             0%nat Retry.start); [lia|apply after_failures_start|intros j Hj; lia].
Qed.

Lemma retry_under_a_cap_witness :
  capped_run third_time_lucky linear_delay (fun _ => 1 # 2) false 4
    (Retry.retryWithLinearBackoff third_time_lucky (fun _ => 1 # 2) None (Some 4)).
Proof.
  apply (proj2 (retry_under_a_cap third_time_lucky (fun _ => 1 # 2) None 4
                  ltac:(lia) ltac:(intros g e i H; discriminate H))).
Defined.

(** X17: the caps below 1.  With [maxTries] 0 the function is invoked once: a
    value it returns is returned, but when it throws, [onFail] is told, the
    backoff is waited for, and the run then throws [ShouldBeUnreachable] in
    place of the error; with a negative [maxTries] the function is not
    invoked at all and the run throws [ShouldBeUnreachable] at once. *)
Theorem retry_without_attempts {T : Type} (asyncFunction : nat -> result T)
  (random : nat -> Q) (onFail : option (Error -> Z -> result unit)) (n : Z)
  (linear : bool) :
  n <= 0 ->
  (forall g e i, onFail = Some g -> g e i = Ok tt) ->
  let run :=
    if linear
    then Retry.retryWithLinearBackoff asyncFunction random onFail (Some n)
    else Retry.retryWithExponentialBackoff asyncFunction random onFail (Some n) in
  let delay := if linear then linear_delay else exponential_delay in
  (n < 0 -> run = (Throw ShouldBeUnreachable, Retry.start)) /\
  (n = 0 ->
   Retry.invocations (snd run) = 1%nat /\
   match asyncFunction 1%nat with
   | Ok v => fst run = Ok v /\ Retry.waits (snd run) = []
   | Throw e =>
       fst run = Throw ShouldBeUnreachable /\
       Retry.waits (snd run)
       = [Double.add (delay 1%Z)
            (Double.mul (Double.Finite (random 0%nat)) (Double.Finite 100))] /\
       told_of asyncFunction (Retry.reported (snd run))
         (if bool_decide (is_Some onFail) then [1%nat] else [])
   end).
Proof.
  intros Hn Hg run delay.
  assert (Hrun : run = Retry.retry_loop asyncFunction
                         (if linear then Retry.linear_backoff random
                          else Retry.exponential_backoff random) onFail n 0 Retry.start)
    by (subst run; destruct linear; reflexivity).
  assert (Hb : forall i st,
             (if linear then Retry.linear_backoff random
              else Retry.exponential_backoff random) i st
             = (Double.add (delay i%Z) (jitter_of random (Retry.draws st)), Retry.drawn st))
    by (intros i st; subst delay; destruct linear; reflexivity).
  rewrite Hrun. clear Hrun run. split.
  - intros Hneg. rewrite retry_loop_turn. destruct (Z_le_dec 0 n); [lia|reflexivity].
  - intros ->. rewrite retry_loop_turn. destruct (Z_le_dec 0 0) as [_|]; [|lia].
    cbn [Retry.invocations Retry.start].
    destruct (asyncFunction 1%nat) as [v|e] eqn:F; [repeat split|].
    pose proof (told_of_report asyncFunction random delay onFail 0 Retry.start e
                  (after_failures_start asyncFunction random delay onFail) F) as Htold.
    assert (Hnotify : fst (Retry.notify onFail e (0 + 1) (Retry.invoked Retry.start)) = Ok tt).
    { unfold Retry.notify. destruct onFail as [g|]; [|reflexivity]. apply (Hg g _ _ eq_refl). }
    change (Z.of_nat 0 + 1) with (0 + 1) in Htold.
    destruct (Retry.notify onFail e (0 + 1) (Retry.invoked Retry.start)) as [r st1] eqn:N.
    cbn [fst snd] in *. subst r.
    assert (Hst1 : Retry.invocations st1 = 1%nat /\ Retry.draws st1 = 0%nat /\
                   Retry.waits st1 = []).
    { unfold Retry.notify in N.
      destruct onFail; [injection N as _ <-|injection N as <-]; cbn; auto. }
    destruct Hst1 as (Hinv1 & Hdraws1 & Hwaits1).
    destruct (Z.eq_dec (0 + 1) 0) as [|_]; [lia|].
    rewrite retry_loop_turn. destruct (Z_le_dec (0 + 1) 0) as [|_]; [lia|].
    rewrite Hb. cbn [fst snd Retry.invocations Retry.waits Retry.reported Retry.waited
                     Retry.drawn]. rewrite Hinv1, Hwaits1, Hdraws1.
    repeat split. exact Htold.
Qed.

Lemma retry_without_attempts_witness :
  fst (Retry.retryWithExponentialBackoff third_time_lucky (fun _ => 1 # 2) None (Some 0))
  = Throw ShouldBeUnreachable /\
  Retry.invocations
    (snd (Retry.retryWithExponentialBackoff third_time_lucky (fun _ => 1 # 2) None (Some 0)))
  = 1%nat.
Proof.
  destruct (retry_without_attempts third_time_lucky (fun _ => 1 # 2) None 0 false
              ltac:(lia) ltac:(intros g e i H; discriminate H)) as [_ H].
  destruct (H eq_refl) as (Hinv & Hres & _). split; [exact Hres|exact Hinv].
Defined.

(** X18: when [onFail] throws, the retrying ends: the run throws what [onFail]
    threw, after the invocation whose failure it was told and without a
    further wait. *)
Theorem retry_ends_when_onFail_throws {T : Type} (asyncFunction : nat -> result T)
  (random : nat -> Q) (g : Error -> Z -> result unit) (n : Z) (j : nat) (e e' : Error)
  (linear : bool) :
  (1 <= j)%nat -> Z.of_nat j <= n ->
  (forall i, (1 <= i < j)%nat ->
     exists ei, asyncFunction i = Throw ei /\ g ei (Z.of_nat i) = Ok tt) ->
  asyncFunction j = Throw e -> g e (Z.of_nat j) = Throw e' ->
  let run :=
    if linear
    then Retry.retryWithLinearBackoff asyncFunction random (Some g) (Some n)
    else Retry.retryWithExponentialBackoff asyncFunction random (Some g) (Some n) in
  fst run = Throw e' /\
  Retry.invocations (snd run) = j /\
  length (Retry.waits (snd run)) = (j - 1)%nat.
Proof.
  intros Hj Hn Hfail He Hg run.
  set (delay := if linear then linear_delay else exponential_delay).
  set (b := if linear then Retry.linear_backoff random
            else Retry.exponential_backoff random).
  assert (Hrun : run = Retry.retry_loop asyncFunction b (Some g) n 0 Retry.start)
    by (subst run b; destruct linear; reflexivity).
  assert (Hb : forall i st,
             b i st
             = (Double.add (delay i%Z) (jitter_of random (Retry.draws st)), Retry.drawn st))
    by (intros i st; subst b delay; destruct linear; reflexivity).
  rewrite Hrun. clear Hrun run.
  destruct (retry_loop_failures asyncFunction random delay b Hb (Some g) n (j - 1))
    as (st & (Hinv & Hdraws & Hwaits & _) & Hloop).
  { lia. }
  { intros i Hi. destruct (Hfail i ltac:(lia)) as (ei & Hei & Hgi).
    exists ei. split; [exact Hei|]. intros g0 Hg0. injection Hg0 as <-. exact Hgi. }
  rewrite Hloop, retry_loop_turn.
  destruct (Z_le_dec (Z.of_nat (j - 1)) n) as [_|]; [|lia].
  rewrite Hinv. replace (S (j - 1)) with j by lia. rewrite He.
  unfold Retry.notify. replace (Z.of_nat (j - 1) + 1) with (Z.of_nat j) by lia.
  rewrite Hg. cbn [fst snd Retry.invocations Retry.waits Retry.report Retry.invoked].
  rewrite Hinv, Hwaits. unfold retry_delays. rewrite length_map, length_seq.
  repeat split. lia.
Qed.

Lemma retry_ends_when_onFail_throws_witness :
  fst (Retry.retryWithLinearBackoff third_time_lucky (fun _ => 1 # 2)
         (Some (fun e attempt => if attempt =? 2 then Throw ShouldBeUnreachable else Ok tt))
         (Some 5))
  = Throw ShouldBeUnreachable.
Proof.
  apply (retry_ends_when_onFail_throws third_time_lucky (fun _ => 1 # 2)
           (fun e attempt => if attempt =? 2 then Throw ShouldBeUnreachable else Ok tt)
           5 2 (Rejection (str "ECONNRESET")) ShouldBeUnreachable true).
  - lia.
  - lia.
  - intros i Hi. assert (i = 1%nat) as -> by lia. eexists. split; reflexivity.
  - reflexivity.
  - reflexivity.
Defined.

(** One wait of the linear backoff. *)
Lemma linear_wait (random : nat -> Q) (n : nat) :
  random_in_range random ->
  exists q, Double.add (linear_delay (Z.of_nat n + 1)) (jitter_of random n) = Double.Finite q /\
            (100 <= q <= 200)%Q.
Proof.
  intros Hr. destruct (Hr n) as [Hrep Hrange].
  destruct (jitter_below (random n) Hrep Hrange) as (j & Hj & Hjr).
  unfold linear_delay, jitter_of. rewrite Hj.
  destruct (delay_with_jitter 100 j) as (q & Hq & Hqr); [lia|reflexivity|exact Hjr|].
  change (inject_Z 100) with 100%Q in *. exists q. split; [exact Hq|]. split; lra.
Qed.

(** One wait of the exponential backoff, for the retries 1 to 4. *)
Lemma exponential_wait (random : nat -> Q) (n : nat) :
  random_in_range random -> (n <= 3)%nat ->
  exists q,
    Double.add (exponential_delay (Z.of_nat n + 1)) (jitter_of random n) = Double.Finite q /\
    (q <= inject_Z (2 ^ (Z.of_nat n + 1) * 100) + 100)%Q.
Proof.
  intros Hr Hn.
  destruct (backoff_delay_shape random n Hr Hn) as (j & q & _ & _ & _ & Hq & _ & Hhi).
  unfold exponential_delay. exists q. split; [exact Hq|].
  replace (Z.of_nat n + 1) with (Z.of_nat (S n)) by lia. exact Hhi.
Qed.

(** A sum of finite waits under the sum of their bounds. *)
Lemma total_wait_bound (st : Retry.Run) (bounds : list Q) :
  Forall2 (fun d b => exists q, d = Double.Finite q /\ (q <= b)%Q) (Retry.waits st) bounds ->
  exists t, total_wait st = Some t /\ (t <= fold_right Qplus 0 bounds)%Q.
Proof.
  unfold total_wait. generalize (Retry.waits st). intros ds H.
  induction H as [|d b ds bs (q & -> & Hq) _ (t & Ht & Hle)]; cbn [fold_right].
  - exists 0%Q. split; [reflexivity|lra].
  - rewrite Ht. exists (q + t)%Q. split; [reflexivity|lra].
Qed.

(** X19: how long a run at the default cap can wait in all, when
    [Math.random] returns doubles within [0, 1) and [onFail], if there is
    one, returns: each wait of the linear backoff lies between 100 and 200
    milliseconds, both included, and its waits add up to at most 800; the
    waits of the exponential backoff add up to at most 3400. *)
Theorem default_retry_waits_are_bounded {T : Type} (asyncFunction : nat -> result T)
  (random : nat -> Q) (onFail : option (Error -> Z -> result unit)) :
  random_in_range random ->
  (forall g e i, onFail = Some g -> g e i = Ok tt) ->
  let linear := snd (Retry.retryWithLinearBackoff asyncFunction random onFail None) in
  let exponential :=
    snd (Retry.retryWithExponentialBackoff asyncFunction random onFail None) in
  Forall (fun d => exists q, d = Double.Finite q /\ (100 <= q <= 200)%Q)
    (Retry.waits linear) /\
  (exists t, total_wait linear = Some t /\ (t <= 800)%Q) /\
  (exists t, total_wait exponential = Some t /\ (t <= 3400)%Q).
Proof.
  intros Hr Hg linear exponential.
  pose proof (capped_from asyncFunction random linear_delay
                (Retry.linear_backoff random) (fun _ _ => eq_refl) onFail 5 4 Hg
                0%nat Retry.start eq_refl
                (after_failures_start asyncFunction random linear_delay onFail)
                ltac:(intros j Hj; lia)) as (Hk & _ & _ & Hwaits & _).
  pose proof (capped_from asyncFunction random exponential_delay
                (Retry.exponential_backoff random) (fun _ _ => eq_refl) onFail 5 4 Hg
                0%nat Retry.start eq_refl
                (after_failures_start asyncFunction random exponential_delay onFail)
                ltac:(intros j Hj; lia)) as (Hk' & _ & _ & Hwaits' & _).
  change (Retry.retry_loop asyncFunction (Retry.linear_backoff random) onFail
            (Z.of_nat 5) (Z.of_nat 0) Retry.start)
    with (Retry.retryWithLinearBackoff asyncFunction random onFail None) in Hk, Hwaits.
  change (Retry.retry_loop asyncFunction (Retry.exponential_backoff random) onFail
            (Z.of_nat 5) (Z.of_nat 0) Retry.start)
    with (Retry.retryWithExponentialBackoff asyncFunction random onFail None)
    in Hk', Hwaits'.
  fold linear in Hk, Hwaits. fold exponential in Hk', Hwaits'.
  assert (Hlin : forall m, (m <= 4)%nat ->
            Forall2 (fun d b => exists q, d = Double.Finite q /\ (100 <= q <= b)%Q)
              (retry_delays linear_delay random m) (repeat 200%Q m)).
  { intros m _. unfold retry_delays. generalize 0%nat.
    induction m as [|m IH]; intros s; cbn [seq List.map repeat]; constructor; [|apply IH].
    apply linear_wait, Hr. }
  split; [|split].
  - rewrite Hwaits. apply List.Forall_forall. intros d Hd. unfold retry_delays in Hd.
    apply in_map_iff in Hd as (i & <- & _). apply linear_wait, Hr.
  - destruct (total_wait_bound linear (repeat 200%Q (Retry.invocations linear - 1)))
      as (t & Ht & Hle).
    { rewrite Hwaits. eapply Forall2_impl; [apply Hlin; lia|].
      intros d b (q & Hq & Hlo & Hhi). exists q. split; [exact Hq|exact Hhi]. }
    exists t. split; [exact Ht|].
    assert (Retry.invocations linear - 1 = 0 \/ Retry.invocations linear - 1 = 1 \/
            Retry.invocations linear - 1 = 2 \/ Retry.invocations linear - 1 = 3 \/
            Retry.invocations linear - 1 = 4)%nat as [E | [E | [E | [E | E]]]] by lia;
      rewrite E in Hle; cbn [repeat fold_right] in Hle; lra.
  - pose proof (exponential_wait random 0 Hr ltac:(lia)) as (q0 & Hq0 & Hb0).
    pose proof (exponential_wait random 1 Hr ltac:(lia)) as (q1 & Hq1 & Hb1).
    pose proof (exponential_wait random 2 Hr ltac:(lia)) as (q2 & Hq2 & Hb2).
    pose proof (exponential_wait random 3 Hr ltac:(lia)) as (q3 & Hq3 & Hb3).
    change (inject_Z (2 ^ (Z.of_nat 0 + 1) * 100)) with 200%Q in Hb0.
    change (inject_Z (2 ^ (Z.of_nat 1 + 1) * 100)) with 400%Q in Hb1.
    change (inject_Z (2 ^ (Z.of_nat 2 + 1) * 100)) with 800%Q in Hb2.
    change (inject_Z (2 ^ (Z.of_nat 3 + 1) * 100)) with 1600%Q in Hb3.
    unfold total_wait. rewrite Hwaits'. unfold retry_delays.
    assert (Retry.invocations exponential - 1 = 0 \/ Retry.invocations exponential - 1 = 1 \/
            Retry.invocations exponential - 1 = 2 \/ Retry.invocations exponential - 1 = 3 \/
            Retry.invocations exponential - 1 = 4)%nat as [-> | [-> | [-> | [-> | ->]]]]
      by lia;
      cbn [seq List.map fold_right]; rewrite ?Hq0, ?Hq1, ?Hq2, ?Hq3;
      eexists; (split; [reflexivity|lra]).
Qed.

Lemma default_retry_waits_are_bounded_witness :
  exists t,
    total_wait
      (snd (Retry.retryWithExponentialBackoff third_time_lucky (fun _ => 1 # 2) None None))
    = Some t /\ (t <= 3400)%Q.
Proof.
  apply (default_retry_waits_are_bounded third_time_lucky (fun _ => 1 # 2) None).
  - intros k. split; [|split; lra]. exists 1, (-1).
    split; [unfold Double.emin; lia|]. split; reflexivity.
  - intros g e i H. discriminate H.
Defined.

(** * An upload the service does not take *)

Lemma untouched_refl (w : World) : untouched w w.
Proof. split; reflexivity. Qed.

Lemma untouched_trans (a b c : World) : untouched a b -> untouched b c -> untouched a c.
Proof. intros [H1 H2] [H3 H4]. split; congruence. Qed.

(** A bind whose continuation only runs on what the first part returns. *)
Lemma stays_bind_returned (P : World -> World -> Prop) {A B} (m : M A) (k : A -> M B) :
  (forall a b c, P a b -> P b c -> P a c) ->
  stays P m -> (forall a w, fst (m w) = Ok a -> stays P (k a)) -> stays P (m ≫= k).
Proof.
  intros P_trans Hm Hk w. unfold mbind, M_bind. specialize (Hm w).
  destruct (m w) as [[a|e] w'] eqn:E; simpl in *; [|exact Hm].
  eapply P_trans; [exact Hm|]. apply (Hk a w). rewrite E. reflexivity.
Qed.

Section Refused.
Context `{RT : JSRuntime} `{HP : Helpers} (env : Environment).

Lemma call_untouched (c : Call) : moves_bytes c = false -> stays untouched (call env c).
Proof.
  intros Hc w. split; [reflexivity|]. cbn [call snd history].
  rewrite List.filter_app. cbn [List.filter]. rewrite Hc. apply app_nil_r.
Qed.

Lemma stat_size_untouched (file : value) : stays untouched (stat_size file).
Proof.
  unfold stat_size.
  apply stays_bind; [apply untouched_trans| |intros p].
  { unfold as_path. destruct file as [[]|];
      first [apply stays_ret, untouched_refl|apply stays_throw, untouched_refl]. }
  apply stays_bind; [apply untouched_trans| |intros contents; apply stays_ret, untouched_refl].
  unfold readFileSync. apply stays_bind; [apply untouched_trans| |intros d].
  { apply stays_get_disk, untouched_refl. }
  destruct (d !! p); [apply stays_ret|apply stays_throw]; apply untouched_refl.
Qed.
End Refused.

(** X20: an upload with an API key that the service does not take leaves no
    trace: when the caller gives a (truthy) API key, so that no saved token
    is read, and the connection is refused, or the service rejects
    [beginRecordingUpload], the upload of a recording that has not crashed
    leaves the disk, the log with it, as it was (no [uploadStarted] line is
    written) and sends neither the recording nor a source map, however it
    ends. *)
Theorem refused_upload_leaves_no_trace `{RT : JSRuntime} `{HP : Helpers}
  (env : Environment) (dir srv : string) (recording : RecordingEntry) (key : value)
  (removeAssets : bool) (w : World) :
  truthy key = true ->
  status recording <> crashed ->
  (forall h k, exists c, respond env h (InitConnection srv k) = Ok c /\ truthy c = false) \/
  (forall h size, exists e,
     respond env h (BeginRecordingUpload (id recording) (buildId recording) size)
     = Throw e) ->
  untouched w (snd (doUploadRecording env dir srv recording key removeAssets w)).
Proof.
  intros Hkey Hs Hrefused. revert w. change (stays untouched
    (doUploadRecording env dir srv recording key removeAssets)).
  unfold doUploadRecording.
  destruct (Status_eqb (status recording) uploaded && truthy (recordingId recording));
    [apply stays_ret, untouched_refl|].
  destruct (uploadSkipReason recording); [apply stays_ret, untouched_refl|].
  apply stays_bind; [apply untouched_trans| |intros key'].
  { unfold apiKey_or_token. rewrite Hkey. apply stays_ret, untouched_refl. }
  destruct (Status_eqb (status recording) crashed) eqn:Hc.
  { destruct (status recording); try discriminate Hc. contradiction Hs. reflexivity. }
  apply stays_bind; [apply untouched_trans|apply stat_size_untouched|intros size].
  apply stays_bind_returned;
    [apply untouched_trans|apply call_untouched; reflexivity|intros connected w1 Hconn].
  destruct (negb (truthy connected)) eqn:Ht; [apply stays_ret, untouched_refl|].
  destruct Hrefused as [Hinit|Hbegin].
  { exfalso. destruct (Hinit (history w1) key') as (c & Hc1 & Hc2).
    cbn [call fst] in Hconn. rewrite Hc1 in Hconn. injection Hconn as <-.
    rewrite Hc2 in Ht. discriminate Ht. }
  apply stays_bind; [apply untouched_trans|apply call_untouched; reflexivity|intros md].
  apply stays_bind_returned;
    [apply untouched_trans|apply call_untouched; reflexivity|intros response w2 Hresp].
  exfalso. destruct (Hbegin (history w2) size) as (e & He).
  cbn [call fst] in Hresp. rewrite He in Hresp. discriminate Hresp.
Qed.

Lemma refused_upload_leaves_no_trace_witness :
  untouched (shared_world [])
    (snd (doUploadRecording (RT := Reference.js) (HP := Reference.helpers) (unreachable 9)
            "/r" "wss://dispatch.replay.io" (recording_A (shared_world [])) (str "key") true
            (shared_world []))).
Proof.
  apply (refused_upload_leaves_no_trace (RT := Reference.js) (HP := Reference.helpers)
           (unreachable 9)).
  - reflexivity.
  - vm_compute. discriminate.
  - left. intros h k. exists (Some (JBool false)). split; reflexivity.
Defined.

(** * An upload that goes through *)







Section Uploaded.
Context `{RT : JSRuntime} `{HP : Helpers} (env : Environment).





End Uploaded.


Section UploadRun.
Context `{RT : JSRuntime} `{HP : Helpers} (env : Environment).




End UploadRun.




Lemma update_first_twice {A} (p : A -> bool) (f g : A -> A) (l : list A) :
  (forall x, p (f x) = p x) ->
  update_first p g (update_first p f l) = update_first p (fun x => g (f x)) l.
Proof.
  intros Hp. induction l as [|x l IH]; simpl; [reflexivity|].
  destruct (p x) eqn:E; simpl.
  - rewrite Hp, E. reflexivity.
  - rewrite E, IH. reflexivity.
Qed.

(** X22: what the two events of an upload do to the registry.  Read after any
    log, the [uploadStarted] and [uploadFinished] events of a recording, as
    an upload writes them, change the first entry under the recording's id
    and no other: unless its status was [unusable], [crashed] or
    [crashUploaded], it becomes [uploaded], and it holds the server and the
    remote id of the [uploadStarted] event. *)
Theorem upload_events_mark_the_recording `{RT : JSRuntime} (lines : list string)
  (rs : list RecordingEntry) (A srv : string) (remoteId : value) (t1 t2 : Z) :
  let started :=
    log_event "uploadStarted" (str A) t1
      ([("server", JStr srv)] ++ tag "recordingId" remoteId) in
  let finished := log_event "uploadFinished" (str A) t2 [] in
  let mark := fun r =>
    updateStatus (set_upload (str srv) remoteId (updateStatus r startedUpload)) uploaded in
  JSON_parse "" = None ->
  JSON_parse (JSON_stringify started) = Some started ->
  JSON_parse (JSON_stringify finished) = Some finished ->
  readRecordingsOf lines true = Ok rs ->
  readRecordingsOf
    (lines ++ [JSON_stringify started; ""; JSON_stringify finished; ""]) true
  = Ok (update_first (fun r => looseEq (id r) (str A)) mark rs) /\
  (forall r,
     status r <> unusable -> status r <> crashed -> status r <> crashUploaded ->
     status (mark r) = uploaded /\ recordingId (mark r) = remoteId /\
     server (mark r) = str srv).
Proof.
  intros started finished mark Hblank Hs Hf Hread. split.
  - unfold readRecordingsOf in *. rewrite foldLines_app.
    destruct (foldLines lines []) as [rs0|e]; [|discriminate]. injection Hread as ->.
    assert (Hk1 : prop started "kind" = str "uploadStarted")
      by (subst started; destruct remoteId; reflexivity).
    assert (Hi1 : prop started "id" = str A)
      by (subst started; destruct remoteId; reflexivity).
    assert (Hsrv : prop started "server" = str srv)
      by (subst started; destruct remoteId; reflexivity).
    assert (Hrid : prop started "recordingId" = remoteId)
      by (subst started; destruct remoteId; reflexivity).
    assert (Hk2 : prop finished "kind" = str "uploadFinished") by reflexivity.
    assert (Hskip : forall l, processLine l "" = Ok l)
      by (intros l; unfold processLine; rewrite Hblank; reflexivity).
    cbn [bind_result foldLines].
    rewrite (processLine_kind _ _ _ _ Hs Hk1). cbn [bind_result].
    rewrite Hskip. cbn [bind_result].
    rewrite (processLine_kind _ _ _ _ Hf Hk2). cbn [bind_result].
    rewrite Hskip. cbn [bind_result].
    rewrite (applyKind_uploadStarted _ _ Hk1), (applyKind_uploadFinished _ _ Hk2).
    unfold on_id. rewrite Hi1, Hsrv, Hrid.
    change (prop finished "id") with (str A).
    rewrite update_first_twice; [reflexivity|].
    intros x. cbn [id set_upload]. rewrite id_updateStatus. reflexivity.
  - intros r H1 H2 H3. subst mark. cbv beta.
    assert (Hst : status (set_upload (str srv) remoteId (updateStatus r startedUpload))
                  = startedUpload).
    { cbn [status set_upload]. rewrite updateStatus_status.
      destruct (status r); try reflexivity; congruence. }
    repeat split.
    + rewrite updateStatus_status, Hst. reflexivity.
    + unfold updateStatus at 1. rewrite Hst. reflexivity.
    + unfold updateStatus at 1. rewrite Hst. reflexivity.
Qed.

Lemma upload_events_mark_the_recording_witness :
  exists rs,
    readRecordingsOf (RT := Reference.js)
      (shared_log []
       ++ [Reference.stringify
             (log_event "uploadStarted" (str "B") 9
                [("server", JStr "wss://s"); ("recordingId", JStr "R2")]);
           "";
           Reference.stringify (log_event "uploadFinished" (str "B") 10 []);
           ""]) true = Ok rs /\
    List.map status rs = [onDisk; uploaded].
Proof.
  eexists. split.
  - apply (upload_events_mark_the_recording (RT := Reference.js) (shared_log [])
             (registry_of (shared_world [])) "B" "wss://s" (str "R2") 9 10);
      vm_compute; reflexivity.
  - vm_compute. reflexivity.
Defined.

(** * The saved token *)

Lemma maskToken_length (token : string) :
  String.length (maskToken token) = String.length token.
Proof. induction token as [|c t IH]; simpl; congruence. Qed.

Lemma maskToken_short (token : string) :
  one_line token = true -> (String.length token <= 3)%nat -> maskToken token = token.
Proof.
  induction token as [|c t IH]; [reflexivity|]. cbn [one_line maskToken String.length].
  intros H Hlen. apply andb_true_iff in H as [Hc Ht].
  unfold short_tail. rewrite Ht, andb_true_r.
  replace (String.length t <=? 2)%nat with true by (symmetry; apply Nat.leb_le; lia).
  cbn [negb]. rewrite andb_false_r, IH by (assumption || lia). reflexivity.
Qed.

Lemma substring_all (s : string) (n : nat) :
  (String.length s <= n)%nat -> String.substring 0 n s = s.
Proof.
  revert n. induction s as [|c s IH]; intros n H; [destruct n; reflexivity|].
  destruct n as [|n]; simpl in *; [lia|]. rewrite IH by lia. reflexivity.
Qed.

(** X23: what [maskToken] shows of a token: it keeps the token's length, and of
    a token of one line it replaces every character by an asterisk but the
    last three. *)
Theorem maskToken_shows_the_last_three (token : string) :
  one_line token = true ->
  String.length (maskToken token) = String.length token /\
  maskToken token
  = stars (String.length token - 3)
    +:+ String.substring (String.length token - 3) 3 token.
Proof.
  intros Hone. split; [apply maskToken_length|].
  induction token as [|c t IH]; [reflexivity|].
  cbn [one_line] in Hone. apply andb_true_iff in Hone as [Hc Ht].
  destruct (Nat.le_gt_cases (String.length t) 2) as [Hshort|Hlong].
  - rewrite maskToken_short; [|cbn [one_line]; rewrite Hc, Ht; reflexivity
                               |cbn [String.length]; lia].
    replace (String.length (String c t) - 3)%nat with 0%nat by (cbn [String.length]; lia).
    rewrite substring_all by (cbn [String.length]; lia). reflexivity.
  - cbn [maskToken]. unfold short_tail.
    replace (String.length t <=? 2)%nat with false by (symmetry; apply Nat.leb_gt; lia).
    rewrite Hc. cbn [andb negb]. rewrite (IH Ht).
    replace (String.length (String c t) - 3)%nat with (S (String.length t - 3))
      by (cbn [String.length]; lia).
    reflexivity.
Qed.

Lemma maskToken_shows_the_last_three_witness :
  maskToken "abc.defg.hij" = "*********hij".
Proof.
  rewrite (proj2 (maskToken_shows_the_last_three "abc.defg.hij" eq_refl)).
  vm_compute. reflexivity.
Defined.

(** X24: what [readToken] does, case by case.  Without a token file it
    returns [undefined]; a token that has not expired is returned and
    nothing is written; a token that has expired is erased, the file is left
    empty and [undefined] is returned, and the next [readToken] returns the
    empty text without writing again.  It never throws and calls nobody. *)
Theorem readToken_reads_or_erases `{RT : JSRuntime} `{HP : Helpers} `{AR : AuthRuntime}
  (env : Environment) (dir : option string) (w : World) :
  match disk w !! getTokenPath dir with
  | None => readToken env dir w = (Ok undefined, w)
  | Some token =>
      if expired_at (Date_now env (history w)) (token_exp token)
      then
        let erased :=
          {| disk := <[getTokenPath dir := ""]> (disk w); history := history w;
             pools := pools w |} in
        readToken env dir w = (Ok undefined, erased) /\
        readToken env dir erased = (Ok (str ""), erased)
      else readToken env dir w = (Ok (str token), w)
  end.
Proof.
  assert (Hrun : forall w0 token,
            disk w0 !! getTokenPath dir = Some token ->
            readToken env dir w0
            = if expired_at (Date_now env (history w0)) (token_exp token)
              then (Ok undefined,
                    {| disk := <[getTokenPath dir := ""]> (disk w0);
                       history := history w0; pools := pools w0 |})
              else (Ok (str token), w0)).
  { intros w0 token Hfile. unfold readToken, try_catch, readFileSync, hasTokenExpired, now,
      writeFileSync, get_disk, put_disk. unfold mbind, M_bind, mret, M_ret.
    cbv beta iota zeta. rewrite Hfile.
    destruct (expired_at _ _); reflexivity. }
  destruct (disk w !! getTokenPath dir) as [token|] eqn:Hfile.
  - rewrite (Hrun w token Hfile). destruct (expired_at _ _) eqn:E; [|reflexivity].
    intros erased. split; [reflexivity|].
    rewrite (Hrun erased ""); [reflexivity|]. apply lookup_insert_eq.
  - unfold readToken, try_catch, readFileSync, get_disk. unfold mbind, M_bind, mret, M_ret.
    cbv beta iota zeta. rewrite Hfile. reflexivity.
Qed.

(** * Removing recordings from the disk ([replayio]) *)

Lemma fold_use_sources (l : list Replayio.OriginalSource) (m : gmap string Replayio.Usage) :
  fold_left (fun usageMap originalSource =>
               Replayio.use usageMap (Replayio.source_path originalSource)) l m
  = fold_left Replayio.use (List.map Replayio.source_path l) m.
Proof. revert m. induction l as [|o l IH]; intros m; simpl; [reflexivity|apply IH]. Qed.

Lemma getAssetsUsageMap_fold (recordings : list Replayio.LocalRecording) :
  Replayio.getAssetsUsageMap recordings = fold_left Replayio.use (asset_paths recordings) ∅.
Proof.
  unfold Replayio.getAssetsUsageMap, asset_paths. generalize (∅ : gmap string Replayio.Usage).
  induction recordings as [|r rs IH]; intros m; [reflexivity|].
  cbn [fold_left flat_map]. rewrite fold_left_app, IH. f_equal.
  generalize (Replayio.sourceMaps r). clear. intros sms. revert m.
  induction sms as [|sm sms IH]; intros m; [reflexivity|].
  cbn [fold_left flat_map]. rewrite fold_left_app, IH. f_equal.
  cbn [fold_left]. apply fold_use_sources.
Qed.

Lemma use_other (m : gmap string Replayio.Usage) (x k : string) :
  x <> k -> Replayio.use m x !! k = m !! k.
Proof.
  intros N. unfold Replayio.use.
  destruct (m !! x) as [[n|]|]; [|reflexivity|destruct (Replayio.inherited x)];
    apply lookup_insert_ne; exact N.
Qed.

Lemma use_same (m : gmap string Replayio.Usage) (k : string) :
  Replayio.use m k !! k
  = match m !! k with
    | Some (Replayio.Times n) => Some (Replayio.Times (S n))
    | Some Replayio.NoNumber => Some Replayio.NoNumber
    | None => Some (if Replayio.inherited k then Replayio.NoNumber else Replayio.Times 1)
    end.
Proof.
  unfold Replayio.use. destruct (m !! k) as [[n|]|] eqn:E.
  - apply lookup_insert_eq.
  - exact E.
  - destruct (Replayio.inherited k); apply lookup_insert_eq.
Qed.

Lemma fold_use_lookup (l : list string) (m : gmap string Replayio.Usage) (k : string) :
  fold_left Replayio.use l m !! k
  = match times_in k l with
    | O => m !! k
    | S n =>
        match m !! k with
        | Some (Replayio.Times c) => Some (Replayio.Times (c + S n))
        | Some Replayio.NoNumber => Some Replayio.NoNumber
        | None => Some (if Replayio.inherited k then Replayio.NoNumber else Replayio.Times (S n))
        end
    end.
Proof.
  revert m. induction l as [|x l IH]; intros m; [reflexivity|].
  cbn [fold_left]. rewrite IH. unfold times_in. cbn [List.filter].
  destruct (String.eqb k x) eqn:E.
  - apply String.eqb_eq in E. subst x. rewrite use_same. cbn [List.length].
    fold (times_in k l).
    destruct (m !! k) as [[c|]|], (times_in k l) as [|n], (Replayio.inherited k);
      try reflexivity; do 2 f_equal; lia.
  - apply String.eqb_neq in E. rewrite use_other by congruence. reflexivity.
Qed.

(** X25: what [getAssetsUsageMap] counts: the number of times the recordings
    name a path as a source map or as an original source, nothing for a
    path they do not name, and no number at all for a path that is the
    name of a property of [Object.prototype]. *)
Theorem getAssetsUsageMap_counts (recordings : list Replayio.LocalRecording) (k : string) :
  Replayio.getAssetsUsageMap recordings !! k
  = match times_in k (asset_paths recordings) with
    | O => None
    | S n => Some (if Replayio.inherited k then Replayio.NoNumber else Replayio.Times (S n))
    end.
Proof.
  rewrite getAssetsUsageMap_fold, fold_use_lookup, lookup_empty. reflexivity.
Qed.

Lemma used_once_times (recordings : list Replayio.LocalRecording) (k : string) :
  Replayio.used_once (Replayio.getAssetsUsageMap recordings) k = true ->
  times_in k (asset_paths recordings) = 1%nat.
Proof.
  unfold Replayio.used_once.
  rewrite getAssetsUsageMap_fold, fold_use_lookup, lookup_empty.
  destruct (times_in k (asset_paths recordings)) as [|[|n]]; [discriminate|reflexivity|].
  destruct (Replayio.inherited k); discriminate.
Qed.

Lemma spares_refl (gone : string -> Prop) (w : World) : spares gone w w.
Proof. split; [reflexivity|intros; reflexivity]. Qed.

Lemma spares_trans (gone : string -> Prop) (a b c : World) :
  spares gone a b -> spares gone b c -> spares gone a c.
Proof.
  intros [H1 D1] [H2 D2]. split; [congruence|]. intros file N.
  rewrite (D2 file N). apply D1, N.
Qed.

Lemma removeSync_spares (gone : string -> Prop) (file : string) :
  gone file -> stays (spares gone) (Replayio.removeSync file).
Proof.
  intros G w. split; [reflexivity|]. intros p N. cbn.
  apply lookup_delete_ne. intros ->. exact (N G).
Qed.

Lemma writeFileSync_spares (gone : string -> Prop) (file contents : string) :
  gone file -> stays (spares gone) (writeFileSync file contents).
Proof.
  intros G w. split; [reflexivity|]. intros p N. cbn.
  apply lookup_insert_ne. intros ->. exact (N G).
Qed.

Lemma stays_forEach_In (P : World -> World -> Prop) {A} (f : A -> M unit) (items : list A) :
  (forall w, P w w) -> (forall a b c, P a b -> P b c -> P a c) ->
  (forall x, In x items -> stays P (f x)) -> stays P (forEach f items).
Proof.
  intros P_refl P_trans. induction items as [|x items IH]; intros Hf; simpl.
  - apply stays_ret, P_refl.
  - apply stays_bind; [exact P_trans|apply Hf; left; reflexivity|intros _].
    apply IH. intros y Hy. apply Hf. right. exact Hy.
Qed.

(** X26: the files [removeFromDisk(id)] can change.  When a recording is found
    and reading the log changes nothing, a file is as it was unless it is
    the log, the data file of the recording, the [.lookup] file beside one
    of its source maps, or a path that the source maps and original
    sources of all the recordings name exactly once: an asset that another
    recording names as well stays. *)
Theorem removeFromDisk_spares_shared_assets `{RT : JSRuntime}
  (recordingLogPath recordingsPath : string)
  (getRecordings : M (list Replayio.LocalRecording))
  (readRecordingLog : M (list Replayio.LogEntry))
  (readdirSync : string -> M (list string))
  (stringify : Replayio.LogEntry -> string)
  (id : string) (recordings : list Replayio.LocalRecording)
  (recording : Replayio.LocalRecording) (w : World) :
  let after :=
    snd (Replayio.removeFromDisk recordingLogPath recordingsPath getRecordings
           readRecordingLog readdirSync stringify (Some id) w) in
  id <> "" ->
  getRecordings w = (Ok recordings, w) ->
  List.find (fun r => starts_with id (Replayio.id r)) recordings = Some recording ->
  (forall w', snd (readRecordingLog w') = w') ->
  history after = history w /\
  forall file,
    file <> recordingLogPath ->
    Replayio.path recording <> Some file ->
    (forall sm, In sm (Replayio.sourceMaps recording) ->
       file <> replace_map_suffix (Replayio.sourceMap_path sm)) ->
    times_in file (asset_paths recordings) <> 1%nat ->
    disk after !! file = disk w !! file.
Proof.
  intros after Hid Hget Hfind Hread.
  set (gone := fun file =>
         file = recordingLogPath \/ Replayio.path recording = Some file \/
         (exists sm, In sm (Replayio.sourceMaps recording) /\
            file = replace_map_suffix (Replayio.sourceMap_path sm)) \/
         times_in file (asset_paths recordings) = 1%nat).
  assert (Hsp : spares gone w after).
  { subst after. unfold Replayio.removeFromDisk.
    destruct id as [|c id']; [contradiction|].
    rewrite (bind_ok _ _ _ _ _ Hget). rewrite Hfind.
    clear Hget.
    refine (stays_bind (spares gone) (spares_trans gone) _ _ _ _ w); [|intros _].
    { apply stays_forEach_In; [apply spares_refl|apply spares_trans|]. intros sm Hsm.
      apply stays_bind; [apply spares_trans| |intros _].
      - destruct (Replayio.used_once _ (Replayio.sourceMap_path sm)) eqn:E;
          [|apply stays_skip, spares_refl].
        apply stays_bind; [apply spares_trans| |intros _]; apply removeSync_spares.
        + right; right; right. apply used_once_times, E.
        + right; right; left. exists sm. split; [exact Hsm|reflexivity].
      - apply stays_forEach; [apply spares_refl|apply spares_trans|]. intros source.
        destruct (Replayio.used_once _ (Replayio.source_path source)) eqn:E;
          [|apply stays_skip, spares_refl].
        apply removeSync_spares. right; right; right. apply used_once_times, E. }
    apply stays_bind; [apply spares_trans| |intros _].
    { destruct (Replayio.path recording) as [[|a file]|] eqn:E;
        try apply stays_skip, spares_refl.
      apply removeSync_spares. right; left. reflexivity. }
    apply stays_bind; [apply spares_trans| |intros log].
    { intros w'. rewrite Hread. apply spares_refl. }
    apply writeFileSync_spares. left. reflexivity. }
  destruct Hsp as [Hh Hd]. split; [exact Hh|].
  intros file N1 N2 N3 N4. apply Hd. unfold gone.
  intros [G|[G|[[sm [Hsm G]]|G]]]; [exact (N1 G)|exact (N2 G)|exact (N3 sm Hsm G)|exact (N4 G)].
Qed.

Lemma removeFromDisk_spares_shared_assets_witness :
  let after :=
    snd (Replayio.removeFromDisk (RT := Reference.js) "/r/recordings.log" "/r"
           (mret sharing_recordings) (mret []) (fun _ => mret []) (fun _ => "")
           (Some "A") sharing_world) in
  disk after !! "/r/sourcemap-1.map" = Some "m1" /\
  disk after !! "/r/original-1" = Some "o1" /\
  disk after !! "/r/recording-A" = None.
Proof.
  intros after.
  pose proof (removeFromDisk_spares_shared_assets (RT := Reference.js)
                "/r/recordings.log" "/r" (mret sharing_recordings) (mret [])
                (fun _ => mret []) (fun _ => "") "A" sharing_recordings
                sharing_A sharing_world ltac:(discriminate) eq_refl eq_refl (fun _ => eq_refl))
    as [_ Hkept].
  subst after. split; [|split].
  - rewrite (Hkept "/r/sourcemap-1.map"); [reflexivity|discriminate|discriminate| |].
    + intros sm [<-|[]]. vm_compute. discriminate.
    + vm_compute. discriminate.
  - rewrite (Hkept "/r/original-1"); [reflexivity|discriminate|discriminate| |].
    + intros sm [<-|[]]. vm_compute. discriminate.
    + vm_compute. discriminate.
  - vm_compute. reflexivity.
Defined.

(** * Processing and viewing *)

(** X27: [processUploadedRecording] with an API key closes the connection it
    opened.  When [initConnection] answers a falsy value it returns false
    after that one call.  Otherwise it waits for the processing and then
    calls [closeConnection], whether the wait returned or threw; it returns
    true exactly when the wait returned a falsy value and [closeConnection]
    did not throw. *)
Theorem processing_closes_the_connection `{RT : JSRuntime} `{HP : Helpers} `{AR : AuthRuntime}
  (env : Environment) (connectionWaitForProcessed : value -> M value)
  (recordingId : value) (opts : Options) (connected : value) (w : World) :
  let srv := getServer env opts in
  let w1 := {| disk := disk w; history := history w ++ [InitConnection srv (apiKey opts)];
               pools := pools w |} in
  let waited := connectionWaitForProcessed recordingId w1 in
  let run := processUploadedRecording env connectionWaitForProcessed recordingId opts w in
  truthy (apiKey opts) = true ->
  respond env (history w) (InitConnection srv (apiKey opts)) = Ok connected ->
  if truthy connected then
    history (snd run) = history (snd waited) ++ [CloseConnection] /\
    disk (snd run) = disk (snd waited) /\
    (fst run = Ok true <->
     (exists error, fst waited = Ok error /\ truthy error = false) /\
     (exists v, respond env (history (snd waited)) CloseConnection = Ok v))
  else run = (Ok false, w1).
Proof.
  intros srv w1 waited run Hkey Hinit.
  assert (Hrun : run =
    (if negb (truthy connected) then mret false
     else returned ← try_finally
                      (error ← connectionWaitForProcessed recordingId;
                       mret (if truthy error then Some false else None))
                      (_ ← call env CloseConnection; skip);
          mret (match returned with Some b => b | None => true end)) w1).
  { subst run. unfold processUploadedRecording. rewrite Hkey. cbn [negb].
    unfold mbind at 1, M_bind at 1. unfold mret at 1, M_ret at 1.
    unfold mbind at 1, M_bind at 1. rewrite call_spec. fold srv. rewrite Hinit.
    reflexivity. }
  rewrite Hrun. clear Hrun run. destruct (truthy connected); cbn [negb]; [|reflexivity].
  subst waited. unfold try_finally, skip. unfold mbind, M_bind, mret, M_ret. cbv beta.
  destruct (connectionWaitForProcessed recordingId w1) as [[error|e] w2]; cbn [fst snd];
    rewrite call_spec;
    destruct (respond env (history w2) CloseConnection) as [v|e'] eqn:Hclose;
    cbn [fst snd disk history]; (split; [reflexivity|split; [reflexivity|]]).
  - destruct (truthy error) eqn:Ht; split.
    + discriminate.
    + intros [[error' [[= <-] Ht']] _]. congruence.
    + intros _. split; [exists error; split; [reflexivity|exact Ht]|exists v; reflexivity].
    + reflexivity.
  - split; [discriminate|]. intros [_ [v Hv]]. discriminate Hv.
  - split; [discriminate|]. intros [[error [Herr _]] _]. discriminate Herr.
  - split; [discriminate|]. intros [_ [v Hv]]. discriminate Hv.
Qed.

Lemma processing_closes_the_connection_witness :
  history
    (snd (processUploadedRecording (RT := Reference.js) (HP := Reference.helpers)
            (AR := clear_tokens) (Reference.accepting 9) processing_cut_off (str "R1")
            batch_of_thirty (shared_world [])))
  = [InitConnection "wss://dispatch.replay.io" (str "key"); CloseConnection].
Proof.
  exact (proj1 (processing_closes_the_connection (RT := Reference.js)
                  (HP := Reference.helpers) (AR := clear_tokens) (Reference.accepting 9)
                  processing_cut_off (str "R1") batch_of_thirty (Some (JBool true))
                  (shared_world []) eq_refl eq_refl)).
Defined.

Section GivingUp.
Context `{RT : JSRuntime} `{HP : Helpers} (env : Environment).

Lemma doUploadRecording_skips (dir srv : string) (recording : RecordingEntry)
  (key : value) (removeAssets : bool) (w : World) :
  status recording <> uploaded -> uploadSkipReason recording <> None ->
  doUploadRecording env dir srv recording key removeAssets w = (Ok (Some JNull), w).
Proof.
  intros Hs Hskip. unfold doUploadRecording.
  replace (Status_eqb (status recording) uploaded) with false
    by (destruct (status recording); try reflexivity; contradiction Hs; reflexivity).
  cbn [andb]. destruct (uploadSkipReason recording); [reflexivity|contradiction].
Qed.
End GivingUp.

(** X28: a recording that cannot be uploaded is neither viewed nor processed.
    When the id is unknown, or the recording found has a status other than
    [uploaded] and [crashUploaded] and [uploadSkipReason] gives a reason
    for it, [viewRecording] returns false and [processRecording] null; no
    call is made, no file is changed, and nothing is opened or waited
    for. *)
Theorem unuploadable_is_neither_viewed_nor_processed `{RT : JSRuntime} `{HP : Helpers}
  `{AR : AuthRuntime} (env : Environment) (connectionWaitForProcessed : value -> M value)
  (spawn : string -> list string -> M unit) (openExecutable : M string)
  (rid : string) (opts : Options) (rs : list RecordingEntry) (w : World) :
  readRecordingsOf (log_lines (getDirectory (directory opts)) (disk w)) false = Ok rs ->
  match List.find (fun r => looseEq (id r) (str rid)) rs with
  | None => True
  | Some r =>
      status r <> uploaded /\ status r <> crashUploaded /\ uploadSkipReason r <> None
  end ->
  viewRecording env spawn openExecutable rid opts w = (Ok false, w) /\
  processRecording env connectionWaitForProcessed rid opts w = (Ok (Some JNull), w).
Proof.
  intros Hread Hfound. split.
  - unfold viewRecording. unfold mbind at 1, M_bind at 1.
    rewrite readRecordings_spec, Hread.
    destruct (List.find _ rs) as [r|]; [|reflexivity].
    destruct Hfound as (H1 & H2 & H3). unfold doViewRecording.
    replace (Status_eqb (status r) crashUploaded) with false
      by (destruct (status r); try reflexivity; contradiction H2; reflexivity).
    replace (Status_eqb (status r) uploaded) with false
      by (destruct (status r); try reflexivity; contradiction H1; reflexivity).
    unfold mbind, M_bind. rewrite doUploadRecording_skips by assumption. reflexivity.
  - unfold processRecording, uploadRecording. unfold mbind, M_bind.
    rewrite readRecordings_spec, Hread.
    destruct (List.find _ rs) as [r|]; [|reflexivity].
    destruct Hfound as (H1 & H2 & H3).
    rewrite doUploadRecording_skips by assumption. reflexivity.
Qed.

Lemma unuploadable_is_neither_viewed_nor_processed_witness :
  viewRecording (RT := Reference.js) (HP := Reference.helpers) (Reference.accepting 9)
    (fun _ _ => skip) (mret "open") "B" (directory_only "/r") littered_world
  = (Ok false, littered_world).
Proof.
  refine (proj1 (unuploadable_is_neither_viewed_nor_processed (RT := Reference.js)
                   (HP := Reference.helpers) (AR := clear_tokens) (Reference.accepting 9)
                   processing_cut_off (fun _ _ => skip) (mret "open") "B"
                   (directory_only "/r") (registry_of littered_world) littered_world
                   eq_refl _)).
  vm_compute. repeat split; discriminate.
Defined.

(** * The summary of a test run *)

Lemma lookup_Some (k : Z) (acc : list (Z * Reporter.Test)) (old : Reporter.Test) :
  Reporter.lookup k acc = Some old -> In (k, old) acc.
Proof.
  unfold Reporter.lookup. destruct (List.find _ acc) as [[k' t]|] eqn:E; [|discriminate].
  intros [= <-]. apply List.find_some in E as [Hin Hk]. cbn in Hk.
  apply Z.eqb_eq in Hk. subst k'. exact Hin.
Qed.

Lemma lookup_None (k : Z) (acc : list (Z * Reporter.Test)) :
  Reporter.lookup k acc = None -> forall e, In e acc -> fst e <> k.
Proof.
  unfold Reporter.lookup. destruct (List.find _ acc) eqn:E; [discriminate|].
  intros _ e Hin Hk. pose proof (List.find_none _ _ E e Hin) as H. cbn in H.
  apply Z.eqb_neq in H. contradiction.
Qed.

Lemma In_set (k : Z) (t : Reporter.Test) (acc : list (Z * Reporter.Test))
  (e : Z * Reporter.Test) :
  List.NoDup (List.map fst acc) ->
  In e (Reporter.set k t acc) -> e = (k, t) \/ (In e acc /\ fst e <> k).
Proof.
  induction acc as [|[k' old] acc IH]; cbn [Reporter.set List.map]; intros Hnd.
  - intros [<-|[]]. left. reflexivity.
  - apply List.NoDup_cons_iff in Hnd as [Hnotin Hnd]. destruct (k' =? k) eqn:E.
    + apply Z.eqb_eq in E. subst k'. intros [<-|Hin]; [left; reflexivity|].
      right. split; [right; exact Hin|]. intros Hk. apply Hnotin. cbn [fst].
      rewrite <- Hk. apply in_map. exact Hin.
    + apply Z.eqb_neq in E. intros [<-|Hin].
      * right. split; [left; reflexivity|exact E].
      * destruct (IH Hnd Hin) as [->|[H1 H2]]; [left; reflexivity|].
        right. split; [right; exact H1|exact H2].
Qed.

Lemma set_In_new (k : Z) (t : Reporter.Test) (acc : list (Z * Reporter.Test)) :
  In (k, t) (Reporter.set k t acc).
Proof.
  induction acc as [|[k' old] acc IH]; cbn [Reporter.set]; [left; reflexivity|].
  destruct (k' =? k); [left; reflexivity|right; exact IH].
Qed.

Lemma set_In_old (k : Z) (t : Reporter.Test) (acc : list (Z * Reporter.Test))
  (e : Z * Reporter.Test) :
  In e acc -> fst e <> k -> In e (Reporter.set k t acc).
Proof.
  induction acc as [|[k' old] acc IH]; cbn [Reporter.set]; [intros []|].
  intros [<-|Hin] Hk.
  - cbn [fst] in Hk. apply Z.eqb_neq in Hk. rewrite Hk. left. reflexivity.
  - destruct (k' =? k); right; [exact Hin|apply IH; assumption].
Qed.

Lemma NoDup_set (k : Z) (t : Reporter.Test) (acc : list (Z * Reporter.Test)) :
  List.NoDup (List.map fst acc) -> List.NoDup (List.map fst (Reporter.set k t acc)).
Proof.
  induction acc as [|[k' old] acc IH]; cbn [Reporter.set List.map]; intros Hnd.
  - apply List.NoDup_cons_iff. split; [intros []|constructor].
  - pose proof Hnd as Hnd0. apply List.NoDup_cons_iff in Hnd as [Hnotin Hnd].
    destruct (k' =? k) eqn:E.
    + apply Z.eqb_eq in E. subst k'. exact Hnd0.
    + apply Z.eqb_neq in E. cbn [List.map fst]. apply List.NoDup_cons_iff.
      split; [|apply IH, Hnd]. intros Hin. apply in_map_iff in Hin as [e [He Hin]].
      destruct (In_set _ _ _ _ Hnd Hin) as [->|[H1 H2]].
      * cbn [fst] in He. congruence.
      * apply Hnotin. cbn [fst]. rewrite <- He. apply in_map. exact H1.
Qed.

Lemma one_value_per_key (acc : list (Z * Reporter.Test)) (k : Z) (a b : Reporter.Test) :
  List.NoDup (List.map fst acc) -> In (k, a) acc -> In (k, b) acc -> a = b.
Proof.
  induction acc as [|[k' t] acc IH]; cbn [List.map]; intros Hnd; [intros []|].
  apply List.NoDup_cons_iff in Hnd as [Hnotin Hnd]. cbn [fst] in Hnotin.
  intros [Ha|Ha] [Hb|Hb].
  - congruence.
  - exfalso. apply Hnotin. apply (in_map fst) in Hb. cbn [fst] in Hb. congruence.
  - exfalso. apply Hnotin. apply (in_map fst) in Ha. cbn [fst] in Ha. congruence.
  - apply IH; assumption.
Qed.

Lemma app_cons_split {A} (l1 l1' l2 l2' : list A) (a b : A) :
  l1 ++ a :: l2 = l1' ++ b :: l2' ->
  (l1 = l1' /\ a = b /\ l2 = l2') \/ (In a l1' /\ In b l2) \/ (In b l1 /\ In a l2').
Proof.
  revert l1'. induction l1 as [|c l1 IH]; intros [|c' l1']; cbn [app]; intros [= E1 E2].
  - left. repeat split; assumption.
  - right. left. subst. split; [left; reflexivity|]. apply in_elt.
  - right. right. subst. split; [left; reflexivity|]. apply in_elt.
  - subst c'. destruct (IH l1' E2) as [(-> & -> & ->)|[[H1 H2]|[H1 H2]]].
    + left. repeat split; reflexivity.
    + right. left. split; [right; exact H1|exact H2].
    + right. right. split; [right; exact H1|exact H2].
Qed.

Lemma last_attempt_unique (tests : list Reporter.Test) (t t' : Reporter.Test) :
  last_attempt tests t -> last_attempt tests t' -> Reporter.id t = Reporter.id t' -> t = t'.
Proof.
  intros (b & a & E & Hb & Ha) (b' & a' & E' & Hb' & Ha') Hid.
  rewrite E in E'. destruct (app_cons_split _ _ _ _ _ _ E') as [(_ & H & _)|[[H1 H2]|[H1 H2]]].
  - exact H.
  - pose proof (Hb' t H1 Hid). pose proof (Ha t' H2 (eq_sym Hid)). lia.
  - pose proof (Hb t' H1 (eq_sym Hid)). pose proof (Ha' t H2 Hid). lia.
Qed.

Lemma last_attempt_snoc_old (p : list Reporter.Test) (x t : Reporter.Test) :
  last_attempt p t ->
  (Reporter.id x = Reporter.id t -> Reporter.attempt x <= Reporter.attempt t) ->
  last_attempt (p ++ [x]) t.
Proof.
  intros (b & a & -> & Hb & Ha) Hx. exists b, (a ++ [x]). split; [|split].
  - rewrite <- app_assoc. reflexivity.
  - exact Hb.
  - intros u Hu. apply in_app_or in Hu as [Hu|[<-|[]]]; [apply Ha, Hu|exact Hx].
Qed.

Lemma last_attempt_snoc_new (p : list Reporter.Test) (x : Reporter.Test) :
  (forall u, In u p -> Reporter.id u = Reporter.id x ->
     Reporter.attempt u < Reporter.attempt x) ->
  last_attempt (p ++ [x]) x.
Proof.
  intros H. exists p, []. split; [reflexivity|]. split; [exact H|intros u []].
Qed.

(** What the first loop of [summarizeResults] holds after [p]. *)
Lemma keep_latest_holds (p : list Reporter.Test) :
  let acc := fold_left Reporter.keep_latest p [] in
  List.NoDup (List.map fst acc) /\
  (forall k t, In (k, t) acc -> k = Reporter.id t /\ last_attempt p t) /\
  (forall u, In u p ->
     exists t, In (Reporter.id u, t) acc /\ Reporter.attempt u <= Reporter.attempt t).
Proof.
  induction p as [|x p IH] using rev_ind.
  - cbn. split; [constructor|]. split; [intros k t []|intros u []].
  - rewrite fold_left_app. cbn [fold_left]. cbv zeta in IH |- *.
    set (acc := fold_left Reporter.keep_latest p []) in *.
    destruct IH as (Hnd & Hin & Hall). unfold Reporter.keep_latest.
    destruct (Reporter.lookup (Reporter.id x) acc) as [old|] eqn:El.
    + pose proof (lookup_Some _ _ _ El) as Hold.
      destruct (Reporter.attempt old <? Reporter.attempt x) eqn:Elt.
      * apply Z.ltb_lt in Elt.
        assert (Hbelow : forall u, In u p -> Reporter.id u = Reporter.id x ->
                  Reporter.attempt u <= Reporter.attempt old).
        { intros u Hu Hid. destruct (Hall u Hu) as (t & Ht & Hle). rewrite Hid in Ht.
          rewrite (one_value_per_key _ _ _ _ Hnd Hold Ht). exact Hle. }
        split; [apply NoDup_set, Hnd|]. split.
        -- intros k t Hkt. destruct (In_set _ _ _ _ Hnd Hkt) as [[= -> ->]|[H1 H2]].
           ++ split; [reflexivity|]. apply last_attempt_snoc_new.
              intros u Hu Hid. pose proof (Hbelow u Hu Hid). lia.
           ++ destruct (Hin k t H1) as [Hk Hlast]. split; [exact Hk|].
              apply last_attempt_snoc_old; [exact Hlast|]. intros Hid. cbn [fst] in H2.
              congruence.
        -- intros u Hu. apply in_app_or in Hu as [Hu|[<-|[]]].
           ++ destruct (Z.eq_dec (Reporter.id u) (Reporter.id x)) as [Hid|Hid].
              ** exists x. rewrite Hid. split; [apply set_In_new|].
                 pose proof (Hbelow u Hu Hid). lia.
              ** destruct (Hall u Hu) as (t & Ht & Hle). exists t.
                 split; [apply set_In_old; [exact Ht|exact Hid]|exact Hle].
           ++ exists x. split; [apply set_In_new|lia].
      * apply Z.ltb_ge in Elt. split; [exact Hnd|]. split.
        -- intros k t Hkt. destruct (Hin k t Hkt) as [Hk Hlast]. split; [exact Hk|].
           apply last_attempt_snoc_old; [exact Hlast|]. intros Hid.
           rewrite Hk, <- Hid in Hkt.
           rewrite <- (one_value_per_key _ _ _ _ Hnd Hold Hkt). exact Elt.
        -- intros u Hu. apply in_app_or in Hu as [Hu|[<-|[]]]; [apply Hall, Hu|].
           exists old. split; [exact Hold|exact Elt].
    + pose proof (lookup_None _ _ El) as Hnone.
      split; [apply NoDup_set, Hnd|]. split.
      * intros k t Hkt. destruct (In_set _ _ _ _ Hnd Hkt) as [[= -> ->]|[H1 H2]].
        -- split; [reflexivity|]. apply last_attempt_snoc_new. intros u Hu Hid.
           destruct (Hall u Hu) as (t & Ht & _). exfalso.
           apply (Hnone _ Ht). exact Hid.
        -- destruct (Hin k t H1) as [Hk Hlast]. split; [exact Hk|].
           apply last_attempt_snoc_old; [exact Hlast|]. intros Hid. cbn [fst] in H2.
           congruence.
      * intros u Hu. apply in_app_or in Hu as [Hu|[<-|[]]].
        -- destruct (Hall u Hu) as (t & Ht & Hle). exists t.
           split; [apply set_In_old; [exact Ht|exact (Hnone _ Ht)]|exact Hle].
        -- exists x. split; [apply set_In_new|lia].
Qed.

Lemma kept_are_last_attempts (tests : list Reporter.Test) (t : Reporter.Test) :
  In t (List.map snd (fold_left Reporter.keep_latest tests [])) <-> last_attempt tests t.
Proof.
  destruct (keep_latest_holds tests) as (Hnd & Hin & Hall). cbv zeta in *. split.
  - intros H. apply in_map_iff in H as [[k t'] [E H]]. cbn in E. subst t'.
    apply (Hin k t H).
  - intros Hlast. assert (Ht : In t tests).
    { destruct Hlast as (b & a & -> & _). apply in_elt. }
    destruct (Hall t Ht) as (t' & Ht' & _). destruct (Hin _ _ Ht') as [Hid Hlast'].
    rewrite (last_attempt_unique _ _ _ Hlast Hlast' Hid).
    apply (in_map snd) in Ht'. exact Ht'.
Qed.

Lemma In_insert_by_key (e x : Z * Reporter.Test) (l : list (Z * Reporter.Test)) :
  In x (Reporter.insert_by_key e l) <-> x = e \/ In x l.
Proof.
  induction l as [|e' l IH]; cbn [Reporter.insert_by_key].
  - split; [intros [<-|[]]; left; reflexivity|intros [->|[]]; left; reflexivity].
  - destruct (fst e <? fst e'); cbn [In]; [intuition congruence|].
    rewrite IH. intuition congruence.
Qed.

Lemma In_Object_values (acc : list (Z * Reporter.Test)) (t : Reporter.Test) :
  In t (Reporter.Object_values acc) <-> In t (List.map snd acc).
Proof.
  unfold Reporter.Object_values. rewrite !in_map_iff.
  assert (H : forall x, In x (fold_right Reporter.insert_by_key []
                                (List.filter (fun e => Reporter.is_index (fst e)) acc)
                              ++ List.filter (fun e => negb (Reporter.is_index (fst e))) acc)
                        <-> In x acc).
  { intros x. rewrite in_app_iff, List.filter_In.
    assert (Hs : forall l, In x (fold_right Reporter.insert_by_key [] l) <-> In x l).
    { induction l as [|e l IH]; [reflexivity|]. cbn [fold_right].
      rewrite In_insert_by_key, IH. cbn [In]. intuition congruence. }
    rewrite Hs, List.filter_In. destruct (Reporter.is_index (fst x)); cbn; intuition congruence. }
  split; intros [x [E Hx]]; exists x; (split; [exact E|]); apply H; exact Hx.
Qed.

Lemma tally (sel : Reporter.ResultCounts -> Z) (r : string) :
  (forall rc s, sel (Reporter.count rc s) = sel rc + (if String.eqb s r then 1 else 0)) ->
  forall vs d rc,
    sel (snd (fold_left
                (fun '(duration, resultCounts) t =>
                   (duration + Reporter.approximateDuration t,
                    Reporter.count resultCounts (Reporter.result t)))
                vs (d, rc)))
    = sel rc
      + Z.of_nat (List.length (List.filter (fun t => String.eqb (Reporter.result t) r) vs)).
Proof.
  intros Hsel. induction vs as [|t vs IH]; intros d rc; cbn [fold_left List.filter].
  - cbn. lia.
  - rewrite IH, Hsel. destruct (String.eqb (Reporter.result t) r); cbn [List.length]; lia.
Qed.

Lemma tally_failed (rc : Reporter.ResultCounts) (s : string) :
  Reporter.failed (Reporter.count rc s)
  = Reporter.failed rc + (if String.eqb s "failed" then 1 else 0).
Proof.
  destruct rc. unfold Reporter.count.
  destruct (String.eqb s "failed") eqn:E1; [cbn; reflexivity|].
  destruct (String.eqb s "passed"), (String.eqb s "skipped"), (String.eqb s "timedOut");
    cbn; lia.
Qed.

Lemma tally_timedOut (rc : Reporter.ResultCounts) (s : string) :
  Reporter.timedOut (Reporter.count rc s)
  = Reporter.timedOut rc + (if String.eqb s "timedOut" then 1 else 0).
Proof.
  destruct rc. unfold Reporter.count.
  destruct (String.eqb s "timedOut") eqn:E.
  - apply String.eqb_eq in E. subst s. cbn. reflexivity.
  - destruct (String.eqb s "failed"), (String.eqb s "passed"), (String.eqb s "skipped");
      cbn; lia.
Qed.

Lemma tally_passed (rc : Reporter.ResultCounts) (s : string) :
  Reporter.passed (Reporter.count rc s)
  = Reporter.passed rc + (if String.eqb s "passed" then 1 else 0).
Proof.
  destruct rc. unfold Reporter.count.
  destruct (String.eqb s "passed") eqn:E.
  - apply String.eqb_eq in E. subst s. cbn. reflexivity.
  - destruct (String.eqb s "failed"), (String.eqb s "skipped"), (String.eqb s "timedOut");
      cbn; lia.
Qed.

Lemma counted_positive (sel : Reporter.ResultCounts -> Z) (r : string)
  (tests : list Reporter.Test) :
  sel {| Reporter.failed := 0; Reporter.passed := 0; Reporter.skipped := 0;
         Reporter.timedOut := 0; Reporter.unknown := 0 |} = 0 ->
  (forall rc s, sel (Reporter.count rc s) = sel rc + (if String.eqb s r then 1 else 0)) ->
  (0 <? sel (snd (Reporter.summarizeResults tests))) = true <-> some_last_attempt tests r.
Proof.
  intros H0 Hsel. unfold Reporter.summarizeResults. rewrite (tally sel r Hsel), H0.
  set (vs := Reporter.Object_values _).
  assert (Hvs : forall t, In t vs <-> last_attempt tests t).
  { intros t. subst vs. rewrite In_Object_values. apply kept_are_last_attempts. }
  clearbody vs. rewrite Z.ltb_lt. split.
  - intros Hpos.
    destruct (List.filter (fun t => String.eqb (Reporter.result t) r) vs) as [|t l] eqn:E;
      [cbn in Hpos; lia|].
    assert (Ht : In t (List.filter (fun t => String.eqb (Reporter.result t) r) vs))
      by (rewrite E; left; reflexivity).
    apply List.filter_In in Ht as [Ht Hr]. exists t. split; [apply Hvs, Ht|].
    apply String.eqb_eq, Hr.
  - intros (t & Hlast & Hr). apply Hvs in Hlast.
    assert (Ht : In t (List.filter (fun t => String.eqb (Reporter.result t) r) vs)).
    { apply List.filter_In. split; [exact Hlast|]. apply String.eqb_eq, Hr. }
    destruct (List.filter _ vs); [destruct Ht|]. cbn [List.length]. lia.
Qed.

(** X29: the result of a run goes by the last attempts.  Of the tests with the
    same id, [summarizeResults] counts the first with the greatest attempt
    number.  The result [getResultFromResultCounts] reads off its counts is
    [failed] exactly when such an attempt failed, and [passed] exactly when
    none of them failed or timed out and one passed: a test that failed and
    then passed on a later attempt does not fail the run. *)
Theorem run_result_goes_by_last_attempts (tests : list Reporter.Test) :
  let result :=
    Reporter.getResultFromResultCounts (snd (Reporter.summarizeResults tests)) in
  (result = "failed" <-> some_last_attempt tests "failed") /\
  (result = "passed" <->
   ~ some_last_attempt tests "failed" /\ ~ some_last_attempt tests "timedOut" /\
   some_last_attempt tests "passed").
Proof.
  intros result. subst result. unfold Reporter.getResultFromResultCounts.
  pose proof (counted_positive Reporter.failed "failed" tests eq_refl tally_failed) as Hf.
  pose proof (counted_positive Reporter.timedOut "timedOut" tests eq_refl tally_timedOut) as Ht.
  pose proof (counted_positive Reporter.passed "passed" tests eq_refl tally_passed) as Hp.
  set (rc := snd (Reporter.summarizeResults tests)) in *.
  destruct (0 <? Reporter.failed rc), (0 <? Reporter.timedOut rc),
    (0 <? Reporter.passed rc), (0 <? Reporter.skipped rc);
    split; split; intro H; try discriminate H; try reflexivity;
    intuition discriminate.
Qed.

(** * The log [removeRecording] writes *)

Section Rewrite.
Context `{RT : JSRuntime} `{HP : Helpers}.

(** A cleaning that returns leaves alone every file the recording does not
    name among its assets. *)
Lemma removeRecordingAssets_keeps (recording : RecordingEntry) (opts : Options)
  (w w1 : World) (file : string) :
  removeRecordingAssets recording opts w = (Ok tt, w1) ->
  history w1 = history w /\ pools w1 = pools w /\
  (existsb (strictEq (str file)) (assets_of recording) = false ->
   disk w1 !! file = disk w !! file).
Proof.
  unfold removeRecordingAssets, assets_of. intros Hclean.
  unfold mbind at 1, M_bind at 1 in Hclean.
  pose proof (stays_listAllRecordings eq (@eq_refl World) (@eq_trans World)
                (with_filter opts (FilterFn (otherLocalRecording recording))) w) as Hsame.
  destruct (listAllRecordings _ w) as [[localRecordings|e] w0]; [|discriminate Hclean].
  cbn [snd] in Hsame. subst w0.
  unfold mbind at 1, M_bind at 1, lift in Hclean.
  destruct (flatMap_assets localRecordings) as [used|e]; [|discriminate Hclean].
  unfold mbind at 1, M_bind at 1 in Hclean.
  destruct (getRecordingAssetFiles recording) as [mine|e]; [|discriminate Hclean].
  rewrite forEach_cleaned in Hclean. injection Hclean as <-. cbn [disk history pools].
  split; [reflexivity|]. split; [reflexivity|]. intros Hnot.
  rewrite cleaned_lookup, Hnot, andb_false_r. reflexivity.
Qed.
End Rewrite.

(** C10 (amended): when the registry lists a recording with the given id,
    the recording does not name the log itself among its asset files and
    its assets are cleaned without an error, [removeRecording] returns
    [true] and rewrites the log to the lines it held before the call, in
    their order and as they were, that parse as JSON and whose [id] is not
    [==] to the given one, joined by newlines and followed by one; every
    other line, blank or not JSON, is dropped.  When no recording is listed
    under the id it returns [false] and leaves the log alone. *)
Theorem removeRecording_rewrites `{RT : JSRuntime} `{HP : Helpers} (rid : string)
  (opts : Options) (w : World) (recordings : list RecordingEntry) :
  let dir := getDirectory (directory opts) in
  readRecordingsOf (log_lines dir (disk w)) false = Ok recordings ->
  match List.find (fun r => looseEq (id r) (str rid)) recordings with
  | None => removeRecording rid opts w = (Ok false, w)
  | Some recording =>
      existsb (strictEq (str (getRecordingsFile dir))) (assets_of recording) = false ->
      forall w1, removeRecordingAssets recording opts w = (Ok tt, w1) ->
        let kept := List.filter (keepLine rid) (log_lines dir (disk w)) in
        let w' :=
          {| disk := <[getRecordingsFile dir := join_lines kept +:+ String "010"%char ""]>
                       (disk w1);
             history := history w; pools := pools w |} in
        removeRecording rid opts w = (Ok true, w') /\
        log_lines dir (disk w') = match kept with [] => [""] | _ => kept end ++ [""] /\
        (forall line, In line (log_lines dir (disk w)) ->
           (keepLine rid line = true <->
            exists obj, JSON_parse line = Some obj /\
                        looseEq (prop obj "id") (str rid) = false))
  end.
Proof.
  intros dir Hread.
  destruct (List.find _ recordings) as [recording|] eqn:Hfind.
  - intros Hnot w1 Hclean kept w'.
    destruct (removeRecordingAssets_keeps recording opts w w1 (getRecordingsFile dir) Hclean)
      as (Hh & Hp & Hkeeps).
    assert (Hlog : log_lines dir (disk w1) = log_lines dir (disk w)).
    { unfold log_lines. rewrite (Hkeeps Hnot). reflexivity. }
    split; [|split].
    + unfold removeRecording. fold dir. unfold mbind at 1, M_bind at 1.
      rewrite readRecordings_spec, Hread, Hfind.
      unfold mbind at 1, M_bind at 1. rewrite Hclean.
      unfold mbind at 1, M_bind at 1. rewrite readRecordingFile_spec.
      unfold mbind at 1, M_bind at 1. rewrite writeRecordingFile_spec.
      simpl. rewrite Hh, Hp, Hlog. reflexivity.
    + subst w'. cbn [disk]. apply log_lines_written.
      subst kept. apply List.Forall_forall. intros line Hin.
      apply List.filter_In in Hin as [Hin _].
      pose proof (log_lines_no_newline dir (disk w)) as Hno.
      rewrite List.Forall_forall in Hno. apply Hno, Hin.
    + intros line Hin. unfold keepLine.
      pose proof (readRecordingsOf_no_null _ _ _ line Hread Hin) as Hnn.
      destruct (JSON_parse line) as [obj|].
      * split.
        -- intros Hk. exists obj. split; [reflexivity|].
           destruct obj; try (apply negb_true_iff in Hk; exact Hk). discriminate Hk.
        -- intros (obj' & Hobj & Hne). injection Hobj as <-.
           destruct obj; try (rewrite Hne; reflexivity). congruence.
      * split; [discriminate|]. intros (obj & Hobj & _). discriminate.
  - unfold removeRecording. fold dir. unfold mbind at 1, M_bind at 1.
    rewrite readRecordings_spec, Hread, Hfind. reflexivity.
Qed.

Lemma removeRecording_rewrites_witness :
  exists w',
    removeRecording (RT := Reference.js) (HP := Reference.helpers) "A"
      (directory_only "/r") both_on_disk = (Ok true, w') /\
    log_lines (RT := Reference.js) "/r" (disk w')
    = skipn 3 (shared_log []) ++ [""] /\
    disk w' !! "/tmp/a" = None /\ disk w' !! "/tmp/sm.map" = Some "{}".
Proof.
  pose proof (removeRecording_rewrites (RT := Reference.js) (HP := Reference.helpers)
                "A" (directory_only "/r") both_on_disk (registry_of both_on_disk)
                ltac:(vm_compute; reflexivity)) as H.
  assert (Hfind : List.find (fun r => looseEq (JSRuntime := Reference.js) (id r) (str "A"))
                    (registry_of both_on_disk) = Some (recording_A both_on_disk))
    by (vm_compute; reflexivity).
  rewrite Hfind in H.
  destruct (H ltac:(vm_compute; reflexivity)
              (snd (removeRecordingAssets (RT := Reference.js) (HP := Reference.helpers)
                      (recording_A both_on_disk) (directory_only "/r") both_on_disk))
              ltac:(vm_compute; reflexivity)) as [Heq _].
  eexists. split; [exact Heq|]. vm_compute. repeat split; reflexivity.
Defined.

(** * The pool of a batch *)







